(** * The swap coordinator of the DEX server (package [swap])

    A shallow embedding of [swapper.go]: the order-swap tracker, the match
    registry, failure ascription, the two inaction sweeps, the step
    resolver, the init and redeem handlers with their coin waiters, state
    restoration and the constructor.

    Go maps are [gmap]s, pointers to match trackers are locations of an
    explicit heap, and everything the coordinator asks of its collaborators
    (the clock, the database, the asset backends, the auth manager, the
    file system) is answered by a [World] of oracles.  What the coordinator
    tells them is appended to a trace of [Event]s.

    Every method runs to its end without interleaving, so the mutexes are
    left out, as is logging.  The order in which a [range] visits a Go map is
    the world's choice too.  A run-time panic (a nil dereference, an explicit
    [panic]) ends a run in [Panic] with the state reached. *)

From stdpp Require Import gmap strings list fin_maps.
From Stdlib Require Import ZArith Lia.

Open Scope Z_scope.

(** ** Identifiers and scalar types *)

(** [account.AccountID], [order.OrderID] and [order.MatchID] are 32-byte
    arrays; they are read as the big-endian number they spell. *)
Definition AccountID := N.
Definition OrderID := N.
Definition MatchID := N.
(** Asset ids are [uint32]. *)
Definition AssetID := N.
(** A byte slice. *)
Definition Bytes := list N.

Definition MatchIDSize : nat := 32.

(** [copy(matchID[:], params.MatchID)] for a slice of [MatchIDSize] bytes. *)
Definition matchIDOfBytes (b : Bytes) : MatchID :=
  fold_left (fun acc x => (acc * 256 + x)%N) b 0%N.

(** ** [time.Time] and [time.Duration]

    An instant is the number of nanoseconds since the zero time (January 1,
    year 1, 00:00:00 UTC), so the zero [time.Time] is [0].  A duration is an
    [int64] count of nanoseconds. *)
Definition Time := Z.
Definition Duration := Z.

Definition maxDuration : Duration := 2 ^ 63 - 1.
Definition minDuration : Duration := - 2 ^ 63.

Definition Millisecond : Duration := 1000000.
Definition Second : Duration := 1000000000.
Definition Minute : Duration := 60 * Second.

Definition IsZero (t : Time) : bool := t =? 0.

Definition timeAdd (t : Time) (d : Duration) : Time := t + d.

(** [t.Sub(u)]: the difference, saturated to the range of a [Duration]. *)
Definition timeSub (t u : Time) : Duration :=
  Z.max minDuration (Z.min maxDuration (t - u)).

Definition Before (t u : Time) : bool := t <? u.
Definition After (t u : Time) : bool := u <? t.

(** [t.Truncate(d)] rounds down to a multiple of [d] since the zero time. *)
Definition Truncate (t : Time) (d : Duration) : Time :=
  if d <=? 0 then t else t - t mod d.

(** Go's [int] on the 64-bit platforms the server runs on. *)
Definition wrap64 (z : Z) : Z := (z + 2 ^ 63) mod 2 ^ 64 - 2 ^ 63.

(** ** Orders and matches *)

(** The fields of an order's [Prefix] and [Trade] that the coordinator
    reads, with the order id (in Go a hash of the serialized order). *)
Record OrderData := mkOrderData {
  ordID : OrderID;
  ordUser : AccountID;
  BaseAsset : AssetID;
  QuoteAsset : AssetID;
  Sell : bool;
  ordSwapAddress : string
}.

Record LimitOrder := mkLimitOrder {
  loData : OrderData;
  Rate : N
}.

(** [order.Order] as the registry sees it: matches whose taker is a cancel
    order are never tracked ([Negotiate] only registers the others). *)
Inductive Order :=
| OLimit (lo : LimitOrder)
| OMarket (mo : OrderData).

Definition orderData (o : Order) : OrderData :=
  match o with
  | OLimit lo => loData lo
  | OMarket mo => mo
  end.

Definition ID (o : Order) : OrderID := ordID (orderData o).
Definition User (o : Order) : AccountID := ordUser (orderData o).

(** [order.MatchStatus]. *)
Inductive MatchStatus :=
| NewlyMatched
| MakerSwapCast
| TakerSwapCast
| MakerRedeemed
| MatchComplete.

#[global] Instance MatchStatus_eq_dec : EqDecision MatchStatus.
Proof. solve_decision. Defined.

(** [auth.NoActionStep], the scoring labels for inaction. *)
Inductive NoActionStep :=
| NoSwapAsMaker
| NoSwapAsTaker
| NoRedeemAsMaker
| NoRedeemAsTaker.

(** The wire error codes of [msgjson] that the coordinator uses. *)
Inductive ErrCode :=
| RPCParseError
| SignatureError
| RPCUnknownMatch
| SettlementSequenceError
| ContractError
| RedemptionError
| TransactionUndiscovered
| UnknownMarketError
| TryAgainLaterError.

(** [msgjson.Error]. *)
Record MsgError := mkMsgError {
  Code : ErrCode;
  errMessage : string
}.

(** [order.Match]; [EpochEnd] is [match.Epoch.End()]. *)
Record Match := mkMatch {
  matchID : MatchID;
  Taker : Order;
  Maker : LimitOrder;
  Quantity : N;
  matchRate : N;
  EpochEnd : Time;
  FeeRateBase : N;
  FeeRateQuote : N;
  Status : MatchStatus
}.

(** ** The order-swap tracker *)

Record orderSwapStat := mkStat {
  SwapCount : Z;
  OffBook : bool;
  HasFailed : bool
}.

Abbreviation orderMatches := (gmap OrderID orderSwapStat).

Definition newOrderSwapTracker : orderMatches := ∅.

(** [decrementActiveSwapCount]: the returned flag and the map afterwards.
    [stat] is a pointer into the map, so its updates are written back. *)
Definition decrementActiveSwapCount (ord : Order) (failed : bool)
    (s : orderMatches) : bool * orderMatches :=
  let oid := ID ord in
  match s !! oid with
  | None => (true, s)
  | Some stat =>
      let hasFailed := HasFailed stat || failed in
      let count := wrap64 (SwapCount stat - 1) in
      let stat' := mkStat count (OffBook stat) hasFailed in
      if negb (count =? 0) then (false, <[oid := stat']> s)
      else
        (OffBook stat && negb hasFailed,
         if negb hasFailed || OffBook stat
         then delete oid s
         else <[oid := stat']> s)
  end.

Definition swapSuccess (ord : Order) (s : orderMatches) : bool * orderMatches :=
  decrementActiveSwapCount ord false s.

Definition swapFailure (ord : Order) (s : orderMatches) : orderMatches :=
  snd (decrementActiveSwapCount ord true s).

Definition incActiveSwapCount (ord : Order) (offBook : bool)
    (s : orderMatches) : orderMatches :=
  let oid := ID ord in
  match s !! oid with
  | None => <[oid := mkStat 1 offBook false]> s
  | Some stat =>
      <[oid := mkStat (wrap64 (SwapCount stat + 1)) offBook (HasFailed stat)]> s
  end.

Definition canceled (ord : Order) (s : orderMatches) : orderMatches :=
  let oid := ID ord in
  match s !! oid with
  | None => s
  | Some stat => <[oid := mkStat (SwapCount stat) true true]> s
  end.

(** A call of one of the tracker's three operations. *)
Inductive TrackerOp :=
| OpInc (ord : Order) (offBook : bool)
| OpDec (ord : Order) (failed : bool)
| OpCanceled (ord : Order).

(** One call: what [decrementActiveSwapCount] returned, if that was the
    call, and the map afterwards. *)
Definition runOp (op : TrackerOp) (s : orderMatches) : option bool * orderMatches :=
  match op with
  | OpInc ord offBook => (None, incActiveSwapCount ord offBook s)
  | OpDec ord failed =>
      let r := decrementActiveSwapCount ord failed s in (Some (fst r), snd r)
  | OpCanceled ord => (None, canceled ord s)
  end.

(** A sequence of calls, with every return value in call order. *)
Fixpoint runOps (ops : list TrackerOp) (s : orderMatches)
    : list (option bool) * orderMatches :=
  match ops with
  | [] => ([], s)
  | op :: rest =>
      let r := runOp op s in
      let rs := runOps rest (snd r) in
      (fst r :: fst rs, snd rs)
  end.

Definition opOrder (op : TrackerOp) : OrderID :=
  match op with
  | OpInc ord _ | OpDec ord _ | OpCanceled ord => ID ord
  end.

(** How often [decrementActiveSwapCount] returned true for order [oid]. *)
Fixpoint trueReturns (oid : OrderID) (ops : list TrackerOp) (s : orderMatches) : nat :=
  match ops with
  | [] => 0
  | op :: rest =>
      ((match op with
        | OpDec ord failed =>
            if decide (ID ord = oid)
            then (if fst (decrementActiveSwapCount ord failed s) then 1 else 0)
            else 0
        | _ => 0
        end) + trueReturns oid rest (snd (runOp op s)))%nat
  end.

(** How often it returned true for [oid] while [oid] had an entry. *)
Fixpoint trackedTrueReturns (oid : OrderID) (ops : list TrackerOp) (s : orderMatches) : nat :=
  match ops with
  | [] => 0
  | op :: rest =>
      ((match op with
        | OpDec ord failed =>
            if decide (ID ord = oid)
            then (if fst (decrementActiveSwapCount ord failed s)
                  then (match s !! oid with Some _ => 1 | None => 0 end) else 0)
            else 0
        | _ => 0
        end) + trackedTrueReturns oid rest (snd (runOp op s)))%nat
  end.

(** How often [incActiveSwapCount] made a new entry for [oid]. *)
Fixpoint entriesCreated (oid : OrderID) (ops : list TrackerOp) (s : orderMatches) : nat :=
  match ops with
  | [] => 0
  | op :: rest =>
      ((match op with
        | OpInc ord _ =>
            if decide (ID ord = oid)
            then (match s !! oid with Some _ => 0 | None => 1 end) else 0
        | _ => 0
        end) + entriesCreated oid rest (snd (runOp op s)))%nat
  end.

(** ** Asset backends, messages and waiters *)

(** An [asset.BackedAsset] of the configuration ([LockableAsset] adds the
    coin locker).  [Backend] is the handle under which the [World] answers
    for the asset's backend. *)
Record BackedAsset := mkAsset {
  Symbol : string;
  MaxFeeRate : N;
  SwapConf : N;
  Backend : AssetID
}.

(** What an [asset.Contract] reports about a located swap contract. *)
Record Contract := mkContract {
  contractID : Bytes;
  contractFeeRate : N;
  contractSwapAddress : string;
  contractValue : N;
  contractLockTime : Time;
  contractRedeemScript : Bytes
}.

(** An [asset.Coin], here a located redemption. *)
Record Coin := mkCoin {
  coinID : Bytes
}.

(** The result of asking a backend for a coin. *)
Inductive Lookup (A : Type) :=
| Found (a : A)
| CoinNotFoundError
| OtherLookupError.
Arguments Found {A} a.
Arguments CoinNotFoundError {A}.
Arguments OtherLookupError {A}.

(** The result of a storage call. *)
Inductive DBResult :=
| DBOk
| DBGeneralFailure
| DBOtherError.

Definition dbFailed (r : DBResult) : bool :=
  match r with DBOk => false | _ => true end.

Definition IsErrGeneralFailure (r : DBResult) : bool :=
  match r with DBGeneralFailure => true | _ => false end.

(** [os.Stat]: file information, the not-exist error, or another error (in
    which case the returned [FileInfo] is nil). *)
Inductive StatResult :=
| StatInfo (isDir : bool)
| StatNotExist
| StatOtherError.

(** [wait.TryAgain] and [wait.DontTryAgain]. *)
Inductive TryDirective :=
| TryAgain
| DontTryAgain.

Record swapStatus := mkSwapStatus {
  swapAsset : AssetID;
  redeemAsset : AssetID;
  swapTime : Time;
  swap : option Contract;
  swapConfirmed : Time;
  redeemTime : Time;
  redemption : option Coin
}.

Definition newSwapStatus (swapA redeemA : AssetID) : swapStatus :=
  mkSwapStatus swapA redeemA 0 None 0 0 None.

Record matchTracker := mkMatchTracker {
  mtMatch : Match;
  time : Time;
  matchTime : Time;
  makerStatus : swapStatus;
  takerStatus : swapStatus
}.

Definition swapConfTime (ss : swapStatus) : Time := swapConfirmed ss.
Definition redeemSeenTime (ss : swapStatus) : Time := redeemTime ss.

(** A pointer to a match tracker. *)
Definition loc := N.

(** Which of a tracker's two [swapStatus] pointers a [stepActor] holds. *)
Inductive Side :=
| MakerSide
| TakerSide.

Record stepActor := mkStepActor {
  actorUser : AccountID;
  actorSwapAsset : AssetID;
  isMaker : bool;
  actorOrder : Order;
  actorStatus : Side
}.

Record stepInformation := mkStepInformation {
  siMatch : loc;
  actor : stepActor;
  counterParty : stepActor;
  siAsset : BackedAsset;
  isBaseAsset : bool;
  step_ : MatchStatus;
  nextStep : MatchStatus;
  checkVal : N
}.

Record Message := mkMessage {
  msgID : N;
  Route : string;
  Payload : Bytes
}.

Definition InitRoute : string := "init".
Definition RedeemRoute : string := "redeem".

(** [msgjson.Init] and [msgjson.Redeem]. *)
Record Init := mkInit {
  initOrderID : Bytes;
  initMatchID : Bytes;
  initCoinID : Bytes;
  initContract : Bytes;
  initSig : Bytes
}.

Record Redeem := mkRedeem {
  redeemOrderID : Bytes;
  redeemMatchID : Bytes;
  redeemCoinID : Bytes;
  redeemSecret : Bytes;
  redeemSig : Bytes
}.

Record handlerArgs := mkHandlerArgs {
  haUser : AccountID;
  haMsg : Message
}.

(** The closures of a coin waiter, by what they captured: [TryFunc] runs
    [processInit] or [processRedeem] on the captured message, parameters
    and step; [ExpireFunc] reports the coin [coinStr] undiscovered. *)
Inductive WaiterFuncs :=
| InitWaiter (user : AccountID) (msg : Message) (params : Init)
    (stepInfo : stepInformation) (coinStr : string)
| RedeemWaiter (user : AccountID) (msg : Message) (params : Redeem)
    (stepInfo : stepInformation) (coinStr : string).

(** A [wait.Waiter]. *)
Record Waiter := mkWaiter {
  Expiration : Time;
  waiterFuncs : WaiterFuncs
}.

(** ** The saved state *)

Record swapStatusData := mkSwapStatusData {
  SwapAsset : AssetID;
  RedeemAsset : AssetID;
  SwapTime : Z;
  ContractCoinOut : Bytes;
  ContractScript : Bytes;
  SwapConfirmTime : Z;
  RedeemTime : Z;
  RedeemCoinIn : Bytes
}.

Record matchTrackerData := mkMatchTrackerData {
  mtdMatch : Match;
  mtdTime : Z;
  MakerStatus : swapStatusData;
  TakerStatus : swapStatusData
}.

Record State := mkState {
  Assets : list AssetID;
  MatchTrackers : gmap MatchID matchTrackerData;
  OrderMatches : orderMatches;
  LiveWaiters : gmap (N * AccountID) handlerArgs
}.

Record Config := mkConfig {
  DataDir : string;
  AllowPartialRestore : bool;
  cfgAssets : gmap AssetID BackedAsset;
  BroadcastTimeout : Duration;
  LockTimeTaker : Duration;
  LockTimeMaker : Duration;
  IgnoreState : bool;
  StatePath : string
}.

(** ** The trace

    The calls the coordinator makes on the auth manager, the storage, the
    coin lockers and the unbook hook.  [db.MatchID(match)] is recorded by the
    match id; signatures (which [Sign] fills in) and rendered [Sprintf]
    arguments are not recorded. *)
Inductive Event :=
| EvSetMatchInactive (mid : MatchID)
| EvUnbookHook (lo : LimitOrder)
| EvInaction (user : AccountID) (misstep : NoActionStep) (mid : MatchID)
    (matchValue : N) (refTime : Time) (oid : OrderID)
| EvSwapSuccess (user : AccountID) (mid : MatchID) (value : N) (refTime : Time)
| EvRecordCompletedOrder (user : AccountID) (oid : OrderID) (t : Time)
| EvSetOrderCompleteTime (oid : OrderID) (compTimeMs : Z)
| EvUnlockOrderCoins (asset : AssetID) (oid : OrderID)
| EvSendRevokeMatch (user : AccountID) (oid : OrderID) (mid : MatchID)
| EvRespondError (id : N) (user : AccountID) (code : ErrCode) (errMsg : string)
| EvRespondSuccess (id : N) (user : AccountID) (mid : MatchID)
| EvSaveContract (isMakerA : bool) (mid : MatchID) (contract coin : Bytes) (ms : Z)
| EvSaveRedeem (isMakerA : bool) (mid : MatchID) (coin : Bytes)
    (secret : option Bytes) (ms : Z)
| EvRequestAudit (user : AccountID) (oid : OrderID) (mid : MatchID) (ms : Z)
    (coin contract : Bytes) (expireTimeout : Duration)
| EvRequestRedemption (user : AccountID) (oid : OrderID) (mid : MatchID) (ms : Z)
    (coin secret : Bytes) (expireTimeout : Duration)
| EvRoute (route : string).

(** ** The world

    Every question the coordinator asks outside itself.  The first argument
    of an oracle is the number of questions asked before, so the same
    question may be answered differently each time. *)
Record World := mkWorld {
  (* time.Now() *)
  wNow : nat -> Time;
  (* Storage *)
  wLastErr : nat -> bool;
  wSetOrderCompleteTime : nat -> OrderID -> Z -> DBResult;
  wSaveContract : nat -> bool -> MatchID -> Bytes -> Bytes -> Z -> DBResult;
  wSaveRedeem : nat -> bool -> MatchID -> Bytes -> Z -> DBResult;
  wGetStateHash : nat -> option Bytes;
  (* the unbook hook: was the order on the book? *)
  wUnbookHook : nat -> LimitOrder -> bool;
  (* AuthManager.Auth succeeded? *)
  wAuth : nat -> AccountID -> Bytes -> Bytes -> bool;
  (* asset backends *)
  wContract : nat -> AssetID -> Bytes -> Bytes -> Lookup Contract;
  wRedemption : nat -> AssetID -> Bytes -> Bytes -> Lookup Coin;
  wValidateSecret : nat -> AssetID -> Bytes -> Bytes -> bool;
  wValidateCoinID : nat -> AssetID -> Bytes -> option string;
  wValidateContract : nat -> AssetID -> Bytes -> bool;
  (* the file system *)
  wStat : nat -> string -> StatResult;
  wLoadStateFile : nat -> string -> option State;
  wLatestStateFile : nat -> string -> option (option string);
  wFileHash : nat -> string -> option Bytes;
  (* json.Unmarshal and Serialize *)
  unmarshalInit : Bytes -> option Init;
  unmarshalRedeem : Bytes -> option Redeem;
  serializeInit : Init -> Bytes;
  serializeRedeem : Redeem -> Bytes;
  (* the order in which a range visits the entries of a map *)
  wRange : forall A : Type, nat -> list A -> list A;
  (* matcher.BaseToQuote and the time helpers of package encode *)
  BaseToQuote : N -> N -> N;
  DropMilliseconds : Time -> Time;
  UnixMilli : Time -> Z;
  UnixTimeMilli : Z -> Time
}.

(** A range visits every entry of the map once. *)
Definition fairRange (W : World) : Prop :=
  forall (A : Type) (n : nat) (l : list A), wRange W A n l ≡ₚ l.

(** ** The coordinator's state

    The fields of the Go struct, then its surroundings: the heap of match
    trackers, the package variable [txWaitExpiration], the trace, and the
    number of questions asked of the world. *)
Record Swapper := mkSwapper {
  dataDir : string;
  coins : gmap AssetID BackedAsset;
  matches : gmap MatchID loc;
  userMatches : gmap AccountID (gmap MatchID loc);
  orders : orderMatches;
  bTimeout : Duration;
  lockTimeTaker : Duration;
  lockTimeMaker : Duration;
  latencyQ : list Waiter;
  stop : bool;
  liveWaiters : gmap (N * AccountID) handlerArgs;
  heap : gmap loc matchTracker;
  txWaitExpiration : Duration;
  trace : list Event;
  tick : nat
}.

Definition upd_matches (f : gmap MatchID loc -> gmap MatchID loc) (s : Swapper) : Swapper :=
  mkSwapper (dataDir s) (coins s) (f (matches s)) (userMatches s) (orders s) (bTimeout s) (lockTimeTaker s) (lockTimeMaker s) (latencyQ s) (stop s) (liveWaiters s) (heap s) (txWaitExpiration s) (trace s) (tick s).

Definition upd_userMatches (f : gmap AccountID (gmap MatchID loc) -> gmap AccountID (gmap MatchID loc)) (s : Swapper) : Swapper :=
  mkSwapper (dataDir s) (coins s) (matches s) (f (userMatches s)) (orders s) (bTimeout s) (lockTimeTaker s) (lockTimeMaker s) (latencyQ s) (stop s) (liveWaiters s) (heap s) (txWaitExpiration s) (trace s) (tick s).

Definition upd_orders (f : orderMatches -> orderMatches) (s : Swapper) : Swapper :=
  mkSwapper (dataDir s) (coins s) (matches s) (userMatches s) (f (orders s)) (bTimeout s) (lockTimeTaker s) (lockTimeMaker s) (latencyQ s) (stop s) (liveWaiters s) (heap s) (txWaitExpiration s) (trace s) (tick s).

Definition upd_latencyQ (f : list Waiter -> list Waiter) (s : Swapper) : Swapper :=
  mkSwapper (dataDir s) (coins s) (matches s) (userMatches s) (orders s) (bTimeout s) (lockTimeTaker s) (lockTimeMaker s) (f (latencyQ s)) (stop s) (liveWaiters s) (heap s) (txWaitExpiration s) (trace s) (tick s).

Definition upd_liveWaiters (f : gmap (N * AccountID) handlerArgs -> gmap (N * AccountID) handlerArgs) (s : Swapper) : Swapper :=
  mkSwapper (dataDir s) (coins s) (matches s) (userMatches s) (orders s) (bTimeout s) (lockTimeTaker s) (lockTimeMaker s) (latencyQ s) (stop s) (f (liveWaiters s)) (heap s) (txWaitExpiration s) (trace s) (tick s).

Definition upd_heap (f : gmap loc matchTracker -> gmap loc matchTracker) (s : Swapper) : Swapper :=
  mkSwapper (dataDir s) (coins s) (matches s) (userMatches s) (orders s) (bTimeout s) (lockTimeTaker s) (lockTimeMaker s) (latencyQ s) (stop s) (liveWaiters s) (f (heap s)) (txWaitExpiration s) (trace s) (tick s).

Definition upd_txWaitExpiration (f : Duration -> Duration) (s : Swapper) : Swapper :=
  mkSwapper (dataDir s) (coins s) (matches s) (userMatches s) (orders s) (bTimeout s) (lockTimeTaker s) (lockTimeMaker s) (latencyQ s) (stop s) (liveWaiters s) (heap s) (f (txWaitExpiration s)) (trace s) (tick s).

Definition upd_trace (f : list Event -> list Event) (s : Swapper) : Swapper :=
  mkSwapper (dataDir s) (coins s) (matches s) (userMatches s) (orders s) (bTimeout s) (lockTimeTaker s) (lockTimeMaker s) (latencyQ s) (stop s) (liveWaiters s) (heap s) (txWaitExpiration s) (f (trace s)) (tick s).

Definition upd_tick (f : nat -> nat) (s : Swapper) : Swapper :=
  mkSwapper (dataDir s) (coins s) (matches s) (userMatches s) (orders s) (bTimeout s) (lockTimeTaker s) (lockTimeMaker s) (latencyQ s) (stop s) (liveWaiters s) (heap s) (txWaitExpiration s) (trace s) (f (tick s)).

(** ** The monad: state, and a panic that keeps the state it was raised in *)

Inductive Res (A : Type) :=
| Ret (a : A) (s : Swapper)
| Panic (reason : string) (s : Swapper).
Arguments Ret {A} a s.
Arguments Panic {A} reason s.

Definition M (A : Type) := Swapper -> Res A.

Definition ret {A} (a : A) : M A := fun s => Ret a s.

Definition bind {A B} (m : M A) (k : A -> M B) : M B :=
  fun s => match m s with
           | Ret a s' => k a s'
           | Panic r s' => Panic r s'
           end.

Notation "x <- m ;; k" := (bind m (fun x => k))
  (at level 100, m at next level, right associativity).
Notation "m ;;; k" := (bind m (fun _ => k))
  (at level 100, right associativity).

Definition get : M Swapper := fun s => Ret s s.
Definition modify (f : Swapper -> Swapper) : M unit := fun s => Ret tt (f s).
Definition panic {A} (reason : string) : M A := fun s => Panic reason s.

(** A call recorded in the trace. *)
Definition emit (e : Event) : M unit := modify (upd_trace (fun t => t ++ [e])).

(** A question to the world. *)
Definition ask {A} (f : nat -> A) : M A :=
  fun s => Ret (f (tick s)) (upd_tick S s).

(** The state a run ends in, returned or panicked. *)
Definition final {A} (r : Res A) : Swapper :=
  match r with Ret _ s | Panic _ s => s end.

(** A run that returned. *)
Definition returned {A} (r : Res A) : Prop :=
  match r with Ret _ _ => True | Panic _ _ => False end.

(** [for _, x := range xs { body }], with the loop's local state [acc]. *)
Fixpoint forRange {A B} (xs : list A) (body : A -> B -> M B) (acc : B) : M B :=
  match xs with
  | [] => ret acc
  | x :: rest => acc' <- body x acc ;; forRange rest body acc'
  end.

(** Dereferencing a tracker pointer. *)
Definition deref (l : loc) : M matchTracker :=
  s <- get ;;
  match heap s !! l with
  | Some mt => ret mt
  | None => panic "invalid memory address or nil pointer dereference"
  end.

Definition setStatus (st : MatchStatus) (mt : matchTracker) : matchTracker :=
  let m := mtMatch mt in
  mkMatchTracker
    (mkMatch (matchID m) (Taker m) (Maker m) (Quantity m) (matchRate m) (EpochEnd m)
       (FeeRateBase m) (FeeRateQuote m) st)
    (time mt) (matchTime mt) (makerStatus mt) (takerStatus mt).

Definition statusOf (side : Side) (mt : matchTracker) : swapStatus :=
  match side with MakerSide => makerStatus mt | TakerSide => takerStatus mt end.

Definition updStatusOf (side : Side) (f : swapStatus -> swapStatus)
    (mt : matchTracker) : matchTracker :=
  match side with
  | MakerSide =>
      mkMatchTracker (mtMatch mt) (time mt) (matchTime mt) (f (makerStatus mt)) (takerStatus mt)
  | TakerSide =>
      mkMatchTracker (mtMatch mt) (time mt) (matchTime mt) (makerStatus mt) (f (takerStatus mt))
  end.

Definition unixMsNow (W : World) : M Time :=
  now <- ask (wNow W) ;; ret (Truncate now Millisecond).

Section Coordinator.

Variable W : World.

(** The entries of a map in the order a [range] visits them. *)
Definition rangeMap {K V} `{Countable K} (m : gmap K V) : M (list (K * V)) :=
  ask (fun n => wRange W (K * V) n (map_to_list m)).

(** ** The match registry *)

(** The loop of [addMatch] over the maker's and the taker's user, which
    breaks after the first round of a self-match. *)
Fixpoint addUserMatches (users : list AccountID) (selfMatch : bool) (mid : MatchID)
    (l : loc) (um : gmap AccountID (gmap MatchID loc)) : gmap AccountID (gmap MatchID loc) :=
  match users with
  | [] => um
  | user :: rest =>
      let um' := match um !! user with
                 | None => <[user := {[mid := l]}]> um
                 | Some userMatches => <[user := <[mid := l]> userMatches]> um
                 end in
      if selfMatch then um' else addUserMatches rest selfMatch mid l um'
  end.

Definition addMatch (l : loc) : M unit :=
  mt <- deref l ;;
  let mid := matchID (mtMatch mt) in
  modify (upd_matches (insert mid l)) ;;;
  let maker := ordUser (loData (Maker (mtMatch mt))) in
  let taker := User (Taker (mtMatch mt)) in
  modify (upd_userMatches
            (addUserMatches [maker; taker] (bool_decide (maker = taker)) mid l)).

(** The loop of [deleteMatch]: a user without matches is skipped with
    [continue], a self-match breaks after its round. *)
Fixpoint deleteUserMatches (users : list AccountID) (selfMatch : bool) (mid : MatchID)
    (um : gmap AccountID (gmap MatchID loc)) : gmap AccountID (gmap MatchID loc) :=
  match users with
  | [] => um
  | user :: rest =>
      match um !! user with
      | None => deleteUserMatches rest selfMatch mid um
      | Some userMatches =>
          let userMatches' := delete mid userMatches in
          let um' := if bool_decide (size userMatches' = 0%nat)
                     then delete user um
                     else <[user := userMatches']> um in
          if selfMatch then um' else deleteUserMatches rest selfMatch mid um'
      end
  end.

Definition deleteMatch (l : loc) : M unit :=
  mt <- deref l ;;
  let mid := matchID (mtMatch mt) in
  modify (upd_matches (delete mid)) ;;;
  let maker := ordUser (loData (Maker (mtMatch mt))) in
  let taker := User (Taker (mtMatch mt)) in
  modify (upd_userMatches
            (deleteUserMatches [maker; taker] (bool_decide (maker = taker)) mid)).

(** ** Coin locks, responses, revocation *)

Definition unlockOrderIDCoins (asset : AssetID) (oid : OrderID) : M unit :=
  s <- get ;;
  match coins s !! asset with
  | None => panic "Unable to lock coins for asset"
  | Some _ => emit (EvUnlockOrderCoins asset oid)
  end.

Definition unlockOrderCoins (ord : Order) : M unit :=
  let d := orderData ord in
  let asset := if Sell d then BaseAsset d else QuoteAsset d in
  unlockOrderIDCoins asset (ID ord).

(** [respondError] and [respondSuccess] build the response and send it.
    [msgjson.NewResponse] refuses only a zero message id, which the
    transport never hands to a handler, so the response is always sent. *)
Definition respondError (id : N) (user : AccountID) (code : ErrCode) (errMsg : string)
    : M unit :=
  emit (EvRespondError id user code errMsg).

Definition respondSuccess (id : N) (user : AccountID) (mid : MatchID) : M unit :=
  emit (EvRespondSuccess id user mid).

Definition revoke (l : loc) : M unit :=
  mt <- deref l ;;
  let m := mtMatch mt in
  unlockOrderCoins (Taker m) ;;;
  unlockOrderCoins (OLimit (Maker m)) ;;;
  let sendRev := fun (mid : MatchID) (ord : Order) =>
    emit (EvSendRevokeMatch (User ord) (ID ord) mid) in
  let mid := matchID m in
  sendRev mid (Taker m) ;;;
  sendRev mid (OLimit (Maker m)).

(** The order tracker's operations on the coordinator's tracker. *)
Definition ordersSwapSuccess (ord : Order) : M bool :=
  s <- get ;;
  let r := swapSuccess ord (orders s) in
  modify (upd_orders (fun _ => snd r)) ;;;
  ret (fst r).

Definition ordersSwapFailure (ord : Order) : M unit :=
  modify (upd_orders (swapFailure ord)).

Definition ordersCanceled (ord : Order) : M unit :=
  modify (upd_orders (canceled ord)).

(** ** Failure ascription *)

(** The [switch] of [failMatch]: the scoring label, the reference time, and
    whether the maker is at fault; [None] is the [default] case. *)
Definition ascribe (mt : matchTracker) : option (NoActionStep * Time * bool) :=
  match Status (mtMatch mt) with
  | NewlyMatched => Some (NoSwapAsMaker, EpochEnd (mtMatch mt), true)
  | MakerSwapCast => Some (NoSwapAsTaker, swapTime (makerStatus mt), false)
  | TakerSwapCast => Some (NoRedeemAsMaker, swapTime (takerStatus mt), true)
  | MakerRedeemed => Some (NoRedeemAsTaker, redeemTime (makerStatus mt), false)
  | MatchComplete => None
  end.

Definition failMatch (l : loc) : M unit :=
  mt <- deref l ;;
  let m := mtMatch mt in
  match ascribe mt with
  | None => ret tt
  | Some (misstep, refTime, makerFault) =>
      let orderAtFault := if makerFault then OLimit (Maker m) else Taker m in
      let otherOrder := if makerFault then Taker m else OLimit (Maker m) in
      emit (EvSetMatchInactive (matchID m)) ;;;
      match orderAtFault with
      | OLimit lo =>
          emit (EvUnbookHook lo) ;;;
          onBook <- ask (fun n => wUnbookHook W n lo) ;;
          (if onBook then ordersCanceled orderAtFault else ret tt)
      | OMarket _ => ret tt
      end ;;;
      ordersSwapFailure orderAtFault ;;;
      complete <- ordersSwapSuccess otherOrder ;;
      (if complete then
         compTime <- ask (wNow W) ;;
         emit (EvRecordCompletedOrder (User otherOrder) (ID otherOrder) compTime) ;;;
         emit (EvSetOrderCompleteTime (ID otherOrder) (UnixMilli W compTime)) ;;;
         _ <- ask (fun n => wSetOrderCompleteTime W n (ID otherOrder) (UnixMilli W compTime)) ;;
         ret tt
       else ret tt) ;;;
      emit (EvInaction (User orderAtFault) misstep (matchID m) (Quantity m) refTime
              (ID orderAtFault)) ;;;
      revoke l
  end.

(** ** The inaction sweeps *)

(** [tooOld] of the event-based sweep. *)
Definition tooOldEvent (now : Time) (bTimeout : Duration) (evt : Time) : bool :=
  bTimeout <=? timeSub now evt.

(** [tooOld] of the block-based sweep. *)
Definition tooOldBlock (now : Time) (bTimeout : Duration) (evt : Time) : bool :=
  negb (IsZero evt) && (bTimeout <=? timeSub now evt).

(** [checkMatch] of [checkInactionEventBased]; [deletions] is the slice the
    closure appends to. *)
Definition checkMatchEventBased (now : Time) (l : loc) (deletions : list loc)
    : M (list loc) :=
  mt <- deref l ;;
  s <- get ;;
  let tooOld := tooOldEvent now (bTimeout s) in
  let failMatch' := failMatch l ;;; ret (deletions ++ [l]) in
  match Status (mtMatch mt) with
  | NewlyMatched =>
      if tooOld (time mt) then failMatch' else ret deletions
  | MakerRedeemed =>
      if tooOld (redeemSeenTime (makerStatus mt)) then failMatch' else ret deletions
  | _ => ret deletions
  end.

(** The sweep proper, over the registry's entries in the order [ms]. *)
Definition sweepEventBased (now : Time) (ms : list (MatchID * loc)) : M unit :=
  deletions <- forRange ms (fun e => checkMatchEventBased now (snd e)) [] ;;
  forRange deletions (fun l _ => deleteMatch l) tt.

Definition checkInactionEventBased : M unit :=
  failing <- ask (wLastErr W) ;;
  if failing then ret tt
  else
    now <- ask (wNow W) ;;
    s <- get ;;
    ms <- rangeMap (matches s) ;;
    sweepEventBased now ms.

Definition checkMatchBlockBased (now : Time) (assetID : AssetID) (l : loc)
    (deletions : list loc) : M (list loc) :=
  mt <- deref l ;;
  if bool_decide (swapAsset (makerStatus mt) ≠ assetID)
     && bool_decide (swapAsset (takerStatus mt) ≠ assetID)
  then ret deletions
  else
    s <- get ;;
    let tooOld := tooOldBlock now (bTimeout s) in
    let failMatch' := failMatch l ;;; ret (deletions ++ [l]) in
    match Status (mtMatch mt) with
    | MakerSwapCast =>
        if tooOld (swapConfTime (makerStatus mt)) then failMatch' else ret deletions
    | TakerSwapCast =>
        if tooOld (swapConfTime (takerStatus mt)) then failMatch' else ret deletions
    | _ => ret deletions
    end.

Definition sweepBlockBased (now : Time) (assetID : AssetID) (ms : list (MatchID * loc))
    : M unit :=
  deletions <- forRange ms (fun e => checkMatchBlockBased now assetID (snd e)) [] ;;
  forRange deletions (fun l _ => deleteMatch l) tt.

Definition checkInactionBlockBased (assetID : AssetID) : M unit :=
  failing <- ask (wLastErr W) ;;
  if failing then ret tt
  else
    now <- ask (wNow W) ;;
    s <- get ;;
    ms <- rangeMap (matches s) ;;
    sweepBlockBased now assetID ms.

(** ** The step resolver *)

Definition errUnknownMatch : MsgError :=
  mkMsgError RPCUnknownMatch "unknown match ID".
Definition errUnknownSequence : MsgError :=
  mkMsgError SettlementSequenceError "unknown settlement sequence identifier".
Definition errOtherParty : MsgError :=
  mkMsgError SettlementSequenceError "expected other party to act".

(** The [switch] of [step]: the two actors before their swap assets are set,
    the next status, and whether the step is on the base asset. *)
Definition stepParties (mt : matchTracker)
    : option (stepActor * stepActor * MatchStatus * bool) :=
  let m := mtMatch mt in
  let maker := Maker m in
  let taker := Taker m in
  match Status m with
  | NewlyMatched | TakerSwapCast =>
      let actor := mkStepActor (ordUser (loData maker)) 0%N true (OLimit maker) MakerSide in
      let counterParty := mkStepActor (User taker) 0%N false taker TakerSide in
      if bool_decide (Status m = NewlyMatched)
      then Some (actor, counterParty, MakerSwapCast, Sell (loData maker))
      else Some (actor, counterParty, MakerRedeemed, negb (Sell (loData maker)))
  | MakerSwapCast | MakerRedeemed =>
      let actor := mkStepActor (User taker) 0%N false taker TakerSide in
      let counterParty := mkStepActor (ordUser (loData maker)) 0%N true (OLimit maker) MakerSide in
      if bool_decide (Status m = MakerSwapCast)
      then Some (actor, counterParty, TakerSwapCast, negb (Sell (loData maker)))
      else Some (actor, counterParty, MatchComplete, Sell (loData maker))
  | MatchComplete => None
  end.

Definition withSwapAsset (a : stepActor) (asset : AssetID) : stepActor :=
  mkStepActor (actorUser a) asset (isMaker a) (actorOrder a) (actorStatus a).

Definition step (user : AccountID) (mid : MatchID) : M (stepInformation + MsgError) :=
  s <- get ;;
  match matches s !! mid with
  | None => ret (inr errUnknownMatch)
  | Some l =>
      mt <- deref l ;;
      let m := mtMatch mt in
      let maker := Maker m in
      match stepParties mt with
      | None => ret (inr errUnknownSequence)
      | Some (actor0, counterParty0, next, isBase) =>
          if negb (bool_decide (actorUser actor0 = user)) then ret (inr errOtherParty)
          else
            let actorAsset :=
              if isBase then BaseAsset (loData maker) else QuoteAsset (loData maker) in
            let counterAsset :=
              if isBase then QuoteAsset (loData maker) else BaseAsset (loData maker) in
            let val :=
              if isBase then Quantity m else BaseToQuote W (Rate maker) (Quantity m) in
            match coins s !! actorAsset with
            | None => panic "invalid memory address or nil pointer dereference"
            | Some backed =>
                ret (inl (mkStepInformation l
                            (withSwapAsset actor0 actorAsset)
                            (withSwapAsset counterParty0 counterAsset)
                            backed isBase (Status m) next val))
            end
      end
  end.

(** ** Live waiters *)

Definition setLiveWaiter (user : AccountID) (msg : Message) : M unit :=
  modify (upd_liveWaiters (insert (msgID msg, user) (mkHandlerArgs user msg))).

Definition rmLiveWaiter (user : AccountID) (id : N) : M unit :=
  modify (upd_liveWaiters (delete (id, user))).

(** ** [processInit] *)

Definition setSwap (c : Contract) (t : Time) (ss : swapStatus) : swapStatus :=
  mkSwapStatus (swapAsset ss) (redeemAsset ss) t (Some c) (swapConfirmed ss)
    (redeemTime ss) (redemption ss).

Definition setRedemption (c : Coin) (t : Time) (ss : swapStatus) : swapStatus :=
  mkSwapStatus (swapAsset ss) (redeemAsset ss) (swapTime ss) (swap ss) (swapConfirmed ss)
    t (Some c).

Definition processInit (msg : Message) (params : Init) (stepInfo : stepInformation)
    : M TryDirective :=
  mt <- deref (siMatch stepInfo) ;;
  let chain := Backend (siAsset stepInfo) in
  let actor := actor stepInfo in
  let counterParty := counterParty stepInfo in
  found <- ask (fun n => wContract W n chain (initCoinID params) (initContract params)) ;;
  match found with
  | CoinNotFoundError => ret TryAgain
  | OtherLookupError =>
      respondError (msgID msg) (actorUser actor) ContractError "redemption error" ;;;
      ret DontTryAgain
  | Found contract =>
      let reqFeeRate :=
        if isBaseAsset stepInfo then FeeRateBase (mtMatch mt) else FeeRateQuote (mtMatch mt) in
      if (contractFeeRate contract <? reqFeeRate)%N then
        respondError (msgID msg) (actorUser actor) ContractError "low tx fee" ;;;
        ret DontTryAgain
      else if negb (bool_decide (contractSwapAddress contract
                                 = ordSwapAddress (orderData (actorOrder counterParty)))) then
        respondError (msgID msg) (actorUser actor) ContractError
          "incorrect recipient. expected %s. got %s" ;;;
        ret DontTryAgain
      else if negb (bool_decide (contractValue contract = checkVal stepInfo)) then
        respondError (msgID msg) (actorUser actor) ContractError
          "contract error. expected contract value to be %d, got %d" ;;;
        ret DontTryAgain
      else
        s <- get ;;
        let reqLockTime :=
          if isMaker actor
          then DropMilliseconds W (timeAdd (matchTime mt) (lockTimeMaker s))
          else DropMilliseconds W (timeAdd (matchTime mt) (lockTimeTaker s)) in
        if Before (contractLockTime contract) reqLockTime then
          respondError (msgID msg) (actorUser actor) ContractError
            "contract error. expected lock time >= %s, got %s" ;;;
          ret DontTryAgain
        else
          swapTime <- unixMsNow W ;;
          let mid := matchID (mtMatch mt) in
          let swapTimeMs := UnixMilli W swapTime in
          emit (EvSaveContract (isMaker actor) mid (initContract params)
                  (initCoinID params) swapTimeMs) ;;;
          err <- ask (fun n => wSaveContract W n (isMaker actor) mid (initContract params)
                                 (initCoinID params) swapTimeMs) ;;
          if dbFailed err then
            respondError (msgID msg) (actorUser actor) UnknownMarketError
              "internal server error" ;;;
            ret TryAgain
          else
            s <- get ;;
            match matches s !! mid with
            | None =>
                respondError (msgID msg) (actorUser actor) ContractError
                  "match already revoked due to inaction" ;;;
                ret DontTryAgain
            | Some _ =>
                modify (upd_heap (alter (updStatusOf (actorStatus actor)
                                           (setSwap contract swapTime)) (siMatch stepInfo))) ;;;
                modify (upd_heap (alter (setStatus (nextStep stepInfo)) (siMatch stepInfo))) ;;;
                respondSuccess (msgID msg) (actorUser actor) mid ;;;
                emit (EvRequestAudit (actorUser counterParty) (ID (actorOrder counterParty))
                        mid swapTimeMs (initCoinID params) (initContract params)
                        (bTimeout s)) ;;;
                ret DontTryAgain
            end
  end.

(** ** [processRedeem] *)

Definition processRedeem (msg : Message) (params : Redeem) (stepInfo : stepInformation)
    : M TryDirective :=
  let actor := actor stepInfo in
  let counterParty := counterParty stepInfo in
  mt <- deref (siMatch stepInfo) ;;
  match swap (statusOf (actorStatus counterParty) mt) with
  | None => panic "invalid memory address or nil pointer dereference"
  | Some cpSwap =>
      let cpContract := contractRedeemScript cpSwap in
      let cpSwapCoin := contractID cpSwap in
      let mid := matchID (mtMatch mt) in
      let chain := Backend (siAsset stepInfo) in
      valid <- ask (fun n => wValidateSecret W n chain (redeemSecret params) cpContract) ;;
      if negb valid then
        respondError (msgID msg) (actorUser actor) UnknownMarketError
          "secret validation failed" ;;;
        ret DontTryAgain
      else
        found <- ask (fun n => wRedemption W n chain (redeemCoinID params) cpSwapCoin) ;;
        match found with
        | CoinNotFoundError => ret TryAgain
        | OtherLookupError =>
            respondError (msgID msg) (actorUser actor) RedemptionError "redemption error" ;;;
            ret DontTryAgain
        | Found redemption =>
            let newStatus := nextStep stepInfo in
            s <- get ;;
            match matches s !! mid with
            | None =>
                respondError (msgID msg) (actorUser actor) RedemptionError
                  "match already revoked due to inaction" ;;;
                ret DontTryAgain
            | Some _ =>
                redeemTime <- unixMsNow W ;;
                modify (upd_heap (alter (updStatusOf (actorStatus actor)
                                           (setRedemption redemption redeemTime))
                                    (siMatch stepInfo))) ;;;
                modify (upd_heap (alter (setStatus newStatus) (siMatch stepInfo))) ;;;
                (if bool_decide (newStatus = MatchComplete)
                 then deleteMatch (siMatch stepInfo) else ret tt) ;;;
                (if negb (bool_decide (actorUser actor = actorUser counterParty))
                    || bool_decide (newStatus = MatchComplete)
                 then emit (EvSwapSuccess (actorUser actor) mid (Quantity (mtMatch mt))
                              redeemTime)
                 else ret tt) ;;;
                let redeemTimeMs := UnixMilli W redeemTime in
                let secret := if isMaker actor then Some (redeemSecret params) else None in
                emit (EvSaveRedeem (isMaker actor) mid (redeemCoinID params) secret
                        redeemTimeMs) ;;;
                _ <- ask (fun n => wSaveRedeem W n (isMaker actor) mid (redeemCoinID params)
                                     redeemTimeMs) ;;
                respondSuccess (msgID msg) (actorUser actor) mid ;;;
                let ord := if isMaker actor then OLimit (Maker (mtMatch mt))
                           else Taker (mtMatch mt) in
                complete <- ordersSwapSuccess ord ;;
                failedHard <-
                  (if complete then
                     emit (EvRecordCompletedOrder (actorUser actor) (ID ord) redeemTime) ;;;
                     emit (EvSetOrderCompleteTime (ID ord) redeemTimeMs) ;;;
                     err <- ask (fun n => wSetOrderCompleteTime W n (ID ord) redeemTimeMs) ;;
                     if IsErrGeneralFailure err then
                       respondError (msgID msg) (actorUser actor) UnknownMarketError
                         "internal server error" ;;;
                       ret true
                     else ret false
                   else ret false) ;;
                if failedHard then ret DontTryAgain
                else if negb (isMaker actor) then ret DontTryAgain
                else
                  s <- get ;;
                  now <- ask (wNow W) ;;
                  emit (EvRequestRedemption (actorUser counterParty)
                          (ID (actorOrder counterParty)) mid redeemTimeMs
                          (redeemCoinID params) (redeemSecret params)
                          (timeSub (timeAdd redeemTime (bTimeout s)) now)) ;;;
                  ret DontTryAgain
            end
        end
  end.

(** ** The handlers *)

Definition errStopping : MsgError :=
  mkMsgError TryAgainLaterError "The swapper is stopping. Try again later.".

Definition authUser (user : AccountID) (serialized sig : Bytes) : M (option MsgError) :=
  ok <- ask (fun n => wAuth W n user serialized sig) ;;
  if ok then ret None
  else ret (Some (mkMsgError SignatureError "error authenticating init params")).

(** The expiry of a coin waiter, as both handlers compute it. *)
Definition waiterExpiration (now : Time) (txWait : Duration) (lastEvent : Time)
    (bTimeout : Duration) : Time :=
  let expireTime := timeAdd now txWait in
  if IsZero lastEvent then expireTime
  else
    let deadline := timeAdd lastEvent bTimeout in
    if After expireTime deadline then deadline else expireTime.

Definition latencyQWait (w : Waiter) : M unit :=
  modify (upd_latencyQ (fun q => q ++ [w])).

Definition handleInit (user : AccountID) (msg : Message) : M (option MsgError) :=
  s <- get ;;
  if stop s then ret (Some errStopping)
  else
    match unmarshalInit W (Payload msg) with
    | None =>
        ret (Some (mkMsgError RPCParseError "Error decoding 'init' method params"))
    | Some params =>
        rpcErr <- authUser user (serializeInit W params) (initSig params) ;;
        match rpcErr with
        | Some e => ret (Some e)
        | None =>
            if negb (bool_decide (length (initMatchID params) = MatchIDSize)) then
              ret (Some (mkMsgError RPCParseError "Invalid 'matchid' in 'init' message"))
            else
              let mid := matchIDOfBytes (initMatchID params) in
              r <- step user mid ;;
              match r with
              | inr e => ret (Some e)
              | inl stepInfo =>
                  mt <- deref (siMatch stepInfo) ;;
                  match Status (mtMatch mt) with
                  | NewlyMatched | MakerSwapCast =>
                      let backend := Backend (siAsset stepInfo) in
                      coin <- ask (fun n => wValidateCoinID W n backend (initCoinID params)) ;;
                      match coin with
                      | None =>
                          ret (Some (mkMsgError ContractError
                                       "invalid contract coinID or script"))
                      | Some coinStr =>
                          ok <- ask (fun n => wValidateContract W n backend
                                                (initContract params)) ;;
                          if negb ok then
                            ret (Some (mkMsgError ContractError "invalid swap contract"))
                          else
                            setLiveWaiter user msg ;;;
                            mt <- deref (siMatch stepInfo) ;;
                            let lastEvent :=
                              if bool_decide (step_ stepInfo = MakerSwapCast)
                              then swapConfTime (makerStatus mt)
                              else time mt in
                            now <- ask (wNow W) ;;
                            s <- get ;;
                            let expireTime :=
                              waiterExpiration now (txWaitExpiration s) lastEvent
                                (bTimeout s) in
                            (* time.Until(expireTime), an argument of the debug log *)
                            _ <- ask (wNow W) ;;
                            latencyQWait
                              (mkWaiter expireTime
                                 (InitWaiter user msg params stepInfo coinStr)) ;;;
                            ret None
                      end
                  | _ =>
                      ret (Some (mkMsgError SettlementSequenceError
                                   "swap contract already provided"))
                  end
              end
        end
    end.

Definition handleRedeem (user : AccountID) (msg : Message) : M (option MsgError) :=
  s <- get ;;
  if stop s then ret (Some errStopping)
  else
    match unmarshalRedeem W (Payload msg) with
    | None =>
        ret (Some (mkMsgError RPCParseError "Error decoding 'redeem' request payload"))
    | Some params =>
        rpcErr <- authUser user (serializeRedeem W params) (redeemSig params) ;;
        match rpcErr with
        | Some e => ret (Some e)
        | None =>
            if negb (bool_decide (length (redeemMatchID params) = MatchIDSize)) then
              ret (Some (mkMsgError RPCParseError "Invalid 'matchid' in 'redeem' message"))
            else
              let mid := matchIDOfBytes (redeemMatchID params) in
              r <- step user mid ;;
              match r with
              | inr e => ret (Some e)
              | inl stepInfo =>
                  let backend := Backend (siAsset stepInfo) in
                  coin <- ask (fun n => wValidateCoinID W n backend (redeemCoinID params)) ;;
                  match coin with
                  | None =>
                      ret (Some (mkMsgError ContractError "invalid 'redeem' parameters"))
                  | Some coinStr =>
                      setLiveWaiter user msg ;;;
                      mt <- deref (siMatch stepInfo) ;;
                      let lastEvent :=
                        if bool_decide (step_ stepInfo = MakerRedeemed)
                        then redeemSeenTime (makerStatus mt)
                        else swapConfTime (takerStatus mt) in
                      now <- ask (wNow W) ;;
                      s <- get ;;
                      let expireTime :=
                        waiterExpiration now (txWaitExpiration s) lastEvent (bTimeout s) in
                      _ <- ask (wNow W) ;;
                      latencyQWait
                        (mkWaiter expireTime
                           (RedeemWaiter user msg params stepInfo coinStr)) ;;;
                      ret None
                  end
              end
        end
    end.

(** [TryFunc] and [ExpireFunc] of a registered waiter. *)
Definition tryFunc (w : Waiter) : M TryDirective :=
  match waiterFuncs w with
  | InitWaiter user msg params stepInfo _ =>
      done <- processInit msg params stepInfo ;;
      match done with
      | DontTryAgain => rmLiveWaiter user (msgID msg) ;;; ret done
      | TryAgain => ret done
      end
  | RedeemWaiter user msg params stepInfo _ =>
      done <- processRedeem msg params stepInfo ;;
      match done with
      | DontTryAgain => rmLiveWaiter user (msgID msg) ;;; ret done
      | TryAgain => ret done
      end
  end.

Definition expireFunc (w : Waiter) : M unit :=
  match waiterFuncs w with
  | InitWaiter user msg _ _ _ =>
      rmLiveWaiter user (msgID msg) ;;;
      respondError (msgID msg) user TransactionUndiscovered
        "failed to find contract coin %v"
  | RedeemWaiter user msg _ _ _ =>
      rmLiveWaiter user (msgID msg) ;;;
      respondError (msgID msg) user TransactionUndiscovered
        "failed to find redeemed coin %v"
  end.

(** ** Restoring a saved state *)

(** The loop of [restoreState] over the assets the state needs: the set of
    missing ones, or [None] when one is missing and partial restores are not
    allowed. *)
Fixpoint findMissingAssets (ids : list AssetID) (coins : gmap AssetID BackedAsset)
    (allowPartial : bool) (missing : gset AssetID) : option (gset AssetID) :=
  match ids with
  | [] => Some missing
  | id :: rest =>
      match coins !! id with
      | None =>
          if negb allowPartial then None
          else findMissingAssets rest coins allowPartial ({[id]} ∪ missing)
      | Some _ => findMissingAssets rest coins allowPartial missing
      end
  end.

Definition backendOf (assetID : AssetID) : M AssetID :=
  s <- get ;;
  match coins s !! assetID with
  | None => panic "invalid memory address or nil pointer dereference"
  | Some a => ret (Backend a)
  end.

(** [translateSwapStatus]; [None] is its error return. *)
Definition translateSwapStatus (ss : swapStatus) (ssd : swapStatusData)
    (cpSwapCoin : Bytes) : M (option swapStatus) :=
  let swapCoin := ContractCoinOut ssd in
  r1 <- (if (0 <? length swapCoin)%nat then
           chain <- backendOf (SwapAsset ssd) ;;
           found <- ask (fun n => wContract W n chain swapCoin (ContractScript ssd)) ;;
           match found with
           | Found c => ret (Some (setSwap c (UnixTimeMilli W (SwapTime ssd)) ss))
           | _ => ret None
           end
         else ret (Some ss)) ;;
  match r1 with
  | None => ret None
  | Some ss1 =>
      let ss2 :=
        if negb (SwapConfirmTime ssd =? 0)
        then mkSwapStatus (swapAsset ss1) (redeemAsset ss1) (swapTime ss1) (swap ss1)
               (UnixTimeMilli W (SwapConfirmTime ssd)) (redeemTime ss1) (redemption ss1)
        else ss1 in
      let redeemCoin := RedeemCoinIn ssd in
      if (0 <? length redeemCoin)%nat then
        chain <- backendOf (RedeemAsset ssd) ;;
        found <- ask (fun n => wRedemption W n chain redeemCoin cpSwapCoin) ;;
        match found with
        | Found c => ret (Some (setRedemption c (UnixTimeMilli W (RedeemTime ssd)) ss2))
        | _ => ret None
        end
      else ret (Some ss2)
  end.

(** [&matchTracker{...}]: a tracker at a fresh location. *)
Definition alloc (mt : matchTracker) : M loc :=
  s <- get ;;
  let l := fresh (dom (heap s)) in
  modify (upd_heap (insert l mt)) ;;;
  ret l.

Definition restoreMatch (missing : gset AssetID) (e : MatchID * matchTrackerData)
    (_ : unit) : M unit :=
  let mtd := snd e in
  let makerSwapAsset := SwapAsset (MakerStatus mtd) in
  let makerRedeemAsset := RedeemAsset (MakerStatus mtd) in
  if bool_decide (makerSwapAsset ∈ missing) then ret tt
  else if bool_decide (makerRedeemAsset ∈ missing) then ret tt
  else
    maker <- translateSwapStatus (newSwapStatus makerSwapAsset makerRedeemAsset)
               (MakerStatus mtd) (ContractCoinOut (TakerStatus mtd)) ;;
    match maker with
    | None => ret tt
    | Some makerStatus =>
        taker <- translateSwapStatus (newSwapStatus makerRedeemAsset makerSwapAsset)
                   (TakerStatus mtd) (ContractCoinOut (MakerStatus mtd)) ;;
        match taker with
        | None => ret tt
        | Some takerStatus =>
            l <- alloc (mkMatchTracker (mtdMatch mtd) (UnixTimeMilli W (mtdTime mtd))
                          (EpochEnd (mtdMatch mtd)) makerStatus takerStatus) ;;
            addMatch l
        end
    end.

Definition restoreWaiter (e : N * AccountID * handlerArgs) (_ : unit) : M unit :=
  let waitDat := snd e in
  let rt := Route (haMsg waitDat) in
  if bool_decide (rt = InitRoute) then
    _ <- handleInit (haUser waitDat) (haMsg waitDat) ;; ret tt
  else if bool_decide (rt = RedeemRoute) then
    _ <- handleRedeem (haUser waitDat) (haMsg waitDat) ;; ret tt
  else ret tt.

(** [restoreState]; the result is its error. *)
Definition restoreState (state : State) (allowPartial : bool) : M (option string) :=
  s <- get ;;
  match findMissingAssets (Assets state) (coins s) allowPartial ∅ with
  | None => ret (Some "unable to find backend for asset %d in restore state")
  | Some missingAssets =>
      modify (upd_matches (fun _ => ∅)) ;;;
      modify (upd_userMatches (fun _ => ∅)) ;;;
      trackers <- rangeMap (MatchTrackers state) ;;
      forRange trackers (restoreMatch missingAssets) tt ;;;
      modify (upd_orders (fun _ => OrderMatches state)) ;;;
      waiters <- rangeMap (LiveWaiters state) ;;
      forRange waiters restoreWaiter tt ;;;
      ret None
  end.

(** ** The constructor *)

(** The first asset, in the order visited, whose maximum fee rate is zero. *)
Definition zeroFeeAsset (assets : list (AssetID * BackedAsset)) : option BackedAsset :=
  snd <$> List.find (fun e => bool_decide (MaxFeeRate (snd e) = 0%N)) assets.

(** The state loaded by the constructor: an error, or the state if there is
    one to restore. *)
Definition loadInitialState (cfg : Config) : M (string + option State) :=
  if negb (bool_decide (StatePath cfg = EmptyString)) then
    st <- ask (fun n => wLoadStateFile W n (StatePath cfg)) ;;
    match st with
    | None => ret (inl "failed to load specified state file %s")
    | Some state => ret (inr (Some state))
    end
  else if negb (IgnoreState cfg) then
    latest <- ask (fun n => wLatestStateFile W n (DataDir cfg)) ;;
    match latest with
    | None => ret (inl "unable to read datadir: %w")
    | Some None => ret (inr None)
    | Some (Some name) =>
        hash <- ask (wGetStateHash W) ;;
        match hash with
        | None => ret (inl "error getting stateHash")
        | Some stateHash =>
            if (0 <? length stateHash)%nat then
              fh <- ask (fun n => wFileHash W n name) ;;
              match fh with
              | None => ret (inl "FileHash error: %w")
              | Some fileHash =>
                  if negb (bool_decide (stateHash = fileHash)) then
                    ret (inl "latest swap %s file failed consistency check")
                  else
                    st <- ask (fun n => wLoadStateFile W n name) ;;
                    match st with
                    | None => ret (inl "failed to load swap state file %v: %w")
                    | Some state => ret (inr (Some state))
                    end
              end
            else ret (inr None)
        end
    end
  else ret (inr None).

(** [NewSwapper].  It runs in the state of the starting process, of which it
    keeps the heap, [txWaitExpiration], the trace and the counter; the result
    is the returned error, [None] when the swapper (the state after) is
    returned. *)
Definition NewSwapper (cfg : Config) : M (option string) :=
  inf <- ask (fun n => wStat W n (DataDir cfg)) ;;
  match inf with
  | StatNotExist => ret (Some "data folder %q does not exist")
  | StatOtherError => panic "invalid memory address or nil pointer dereference"
  | StatInfo isDir =>
      if negb isDir then ret (Some "path %q is not a directory")
      else
        assets <- rangeMap (cfgAssets cfg) ;;
        match zeroFeeAsset assets with
        | Some _ => ret (Some "max fee rate of 0 is invalid for asset %q")
        | None =>
            modify (fun s =>
              mkSwapper (DataDir cfg) (cfgAssets cfg) ∅ ∅ newOrderSwapTracker
                (BroadcastTimeout cfg) (LockTimeTaker cfg) (LockTimeMaker cfg)
                [] false ∅ (heap s) (txWaitExpiration s) (trace s) (tick s)) ;;;
            s <- get ;;
            (let sensible := bTimeout s in
             if sensible <? txWaitExpiration s
             then modify (upd_txWaitExpiration (fun _ => sensible))
             else ret tt) ;;;
            loaded <- loadInitialState cfg ;;
            match loaded with
            | inl err => ret (Some err)
            | inr state =>
                restored <-
                  match state with
                  | Some st => restoreState st (AllowPartialRestore cfg)
                  | None => ret None
                  end ;;
                match restored with
                | Some err => ret (Some err)
                | None =>
                    emit (EvRoute InitRoute) ;;;
                    emit (EvRoute RedeemRoute) ;;;
                    ret None
                end
            end
        end
  end.

End Coordinator.

(** ** Queries, block notifications and new matches *)

(** Arithmetic on [uint64]. *)
Definition wrapU64 (n : N) : N := (n mod 2 ^ 64)%N.

(** What the asset backends answer when asked whether the chain is synced,
    how many confirmations a contract has, and what fee rate is optimal;
    [None] is the error return.  As with the [World], the first argument is
    the number of questions asked before. *)
Record Chains := mkChains {
  wSynced : nat -> AssetID -> option bool;
  wConfirmations : nat -> Contract -> option Z;
  wFeeRate : nat -> AssetID -> option N
}.

(** A [blockNotification]. *)
Record blockNotification := mkBlockNotification {
  blockTime : Time;
  blockAssetID : AssetID;
  blockErr : option string
}.

Definition setSwapConfirmed (t : Time) (ss : swapStatus) : swapStatus :=
  mkSwapStatus (swapAsset ss) (redeemAsset ss) (swapTime ss) (swap ss) t
    (redeemTime ss) (redemption ss).

Section Blocks.

Variable W : World.
Variable C : Chains.

(** [UserSwappingAmt]: the amount and the count. *)
Definition UserSwappingAmt (user : AccountID) (base quote : AssetID) : M (N * N) :=
  s <- get ;;
  match userMatches s !! user with
  | None => ret (0%N, 0%N)
  | Some um =>
      ms <- rangeMap W um ;;
      forRange ms
        (fun e acc =>
           mt <- deref (snd e) ;;
           let maker := loData (Maker (mtMatch mt)) in
           if bool_decide (BaseAsset maker = base) && bool_decide (QuoteAsset maker = quote)
           then ret (wrapU64 (fst acc + Quantity (mtMatch mt)), wrapU64 (snd acc + 1))
           else ret acc)
        (0%N, 0%N)
  end.

(** [ChainsSynced]; an error is its format string with the asset id it is
    rendered with. *)
Definition ChainsSynced (base quote : AssetID) : M (bool * option (string * AssetID)) :=
  s <- get ;;
  match coins s !! base with
  | None => ret (false, Some ("No backend found for %d", base))
  | Some b =>
      r <- ask (fun n => wSynced C n (Backend b)) ;;
      match r with
      | None => ret (false, Some ("Error checking sync status for %d", base))
      | Some baseSynced =>
          if negb baseSynced then ret (false, None)
          else
            match coins s !! quote with
            | None => ret (false, Some ("No backend found for %d", base))
            | Some q =>
                r <- ask (fun n => wSynced C n (Backend q)) ;;
                match r with
                | None => ret (false, Some ("Error checking sync status for %d", base))
                | Some quoteSynced => ret (quoteSynced, None)
                end
            end
      end
  end.

(** [tryConfirmSwap]; the [swapStatus] pointer is the tracker's location and
    the side. *)
Definition tryConfirmSwap (l : loc) (side : Side) (confTime : Time) : M bool :=
  mt <- deref l ;;
  let status := statusOf side mt in
  if IsZero (swapTime status) || negb (IsZero (swapConfirmed status)) then ret false
  else
    match swap status with
    | None => panic "invalid memory address or nil pointer dereference"
    | Some c =>
        r <- ask (fun n => wConfirmations C n c) ;;
        match r with
        | None => ret false
        | Some confs =>
            s <- get ;;
            match coins s !! swapAsset status with
            | None => panic "invalid memory address or nil pointer dereference"
            | Some a =>
                if Z.of_N (SwapConf a) <=? confs then
                  modify (upd_heap (alter (updStatusOf side (setSwapConfirmed confTime)) l)) ;;;
                  ret true
                else ret false
            end
        end
    end.

(** [checkMatch] of [processBlock]. *)
Definition checkMatchBlock (block : blockNotification) (l : loc) : M unit :=
  mt <- deref l ;;
  let m := mtMatch mt in
  if bool_decide (swapAsset (makerStatus mt) ≠ blockAssetID block)
     && bool_decide (swapAsset (takerStatus mt) ≠ blockAssetID block)
  then ret tt
  else
    match Status m with
    | MakerSwapCast =>
        if bool_decide (swapAsset (makerStatus mt) ≠ blockAssetID block) then ret tt
        else
          confirmed <- tryConfirmSwap l MakerSide (blockTime block) ;;
          if confirmed then unlockOrderCoins (OLimit (Maker m)) else ret tt
    | TakerSwapCast =>
        if bool_decide (swapAsset (takerStatus mt) ≠ blockAssetID block) then ret tt
        else
          confirmed <- tryConfirmSwap l TakerSide (blockTime block) ;;
          if confirmed then unlockOrderCoins (Taker m) else ret tt
    | _ => ret tt
    end.

Definition processBlock (block : blockNotification) : M unit :=
  s <- get ;;
  ms <- rangeMap W (matches s) ;;
  forRange ms (fun e _ => checkMatchBlock block (snd e)) tt.

(** [getFeeRate] of [Negotiate]: whether the asset is unsupported, and the
    fee rates found so far. *)
Definition getFeeRate (assetID : AssetID) (feeRates : gmap AssetID N)
    : M (bool * gmap AssetID N) :=
  match feeRates !! assetID with
  | Some _ => ret (false, feeRates)
  | None =>
      s <- get ;;
      match coins s !! assetID with
      | None => ret (true, feeRates)
      | Some asset =>
          let maxFeeRate := MaxFeeRate asset in
          r <- ask (fun n => wFeeRate C n (Backend asset)) ;;
          let feeRate :=
            match r with
            | None => maxFeeRate
            | Some feeRate => if (maxFeeRate <? feeRate)%N then maxFeeRate else feeRate
            end in
          ret (false, <[assetID := feeRate]> feeRates)
      end
  end.

(** The tracker [readMatches] makes of a match. *)
Definition trackMatch (nowMs : Time) (feeRates : gmap AssetID N) (m : Match) : matchTracker :=
  let maker := loData (Maker m) in
  let base := BaseAsset maker in
  let quote := QuoteAsset maker in
  let makerSwapAsset := if Sell maker then base else quote in
  let takerSwapAsset := if Sell maker then quote else base in
  mkMatchTracker
    (mkMatch (matchID m) (Taker m) (Maker m) (Quantity m) (matchRate m) (EpochEnd m)
       (default 0%N (feeRates !! base)) (default 0%N (feeRates !! quote)) (Status m))
    nowMs (EpochEnd m)
    (newSwapStatus makerSwapAsset takerSwapAsset)
    (newSwapStatus takerSwapAsset makerSwapAsset).

(** [readMatches]; a match set is given by the matches its [Matches] method
    returns, and the result is the slice of pointers to the new trackers. *)
Definition readMatches (matchSets : list (list Match)) (feeRates : gmap AssetID N)
    : M (list loc) :=
  nowMs <- unixMsNow W ;;
  forRange matchSets
    (fun matchSet matches =>
       forRange matchSet
         (fun m matches =>
            l <- alloc (trackMatch nowMs feeRates m) ;;
            ret (matches ++ [l]))
         matches)
    [].

End Blocks.

(** ** A concrete market: one DCR-BTC match *)

Definition unixEpoch : Time := 62135596800 * Second.

(** A clock reading in the year 2026. *)
Definition exNow : Time := 63900000000 * Second.

Definition exContract : Contract :=
  mkContract [1%N] 10%N "taker-address" 100000000%N (exNow + 20 * 60 * Minute) [8%N].

(** A world where every call succeeds, every coin is found (the contract
    found is [found]) and the clock stands at [exNow]; [secretOk] is the
    backends' verdict on a secret and [stat] what [os.Stat] returns. *)
Definition exWorldWith (found : Contract) (secretOk : bool) (stat : StatResult) : World :=
  mkWorld
    (fun _ => exNow)
    (fun _ => false)
    (fun _ _ _ => DBOk)
    (fun _ _ _ _ _ _ => DBOk)
    (fun _ _ _ _ _ => DBOk)
    (fun _ => None)
    (fun _ _ => true)
    (fun _ _ _ _ => true)
    (fun _ _ _ _ => Found found)
    (fun _ _ _ _ => Found (mkCoin [9%N]))
    (fun _ _ _ _ => secretOk)
    (fun _ _ _ => Some "coin")
    (fun _ _ _ => true)
    (fun _ _ => stat)
    (fun _ _ => None)
    (fun _ _ => Some None)
    (fun _ _ => None)
    (fun payload => Some (mkInit [] payload [1%N] [2%N] [3%N]))
    (fun payload => Some (mkRedeem [] payload [4%N] [5%N] [6%N]))
    initMatchID
    redeemMatchID
    (fun _ _ l => l)
    (fun rate qty => (rate * qty / 100000000)%N)
    (fun t => Truncate t Second)
    (fun t => (t - unixEpoch) / Millisecond)
    (fun ms => unixEpoch + ms * Millisecond).

Definition exWorld : World := exWorldWith exContract true (StatInfo true).

(** The maker sells DCR (asset 42) for BTC (asset 0); the taker buys. *)
Definition exMaker : LimitOrder :=
  mkLimitOrder (mkOrderData 1%N 10%N 42%N 0%N true "maker-address") 1500000%N.

Definition exTaker : Order :=
  OMarket (mkOrderData 2%N 20%N 42%N 0%N false "taker-address").

Definition exEpochEnd : Time := exNow - 30 * Minute.

Definition exMatch (st : MatchStatus) : Match :=
  mkMatch 7%N exTaker exMaker 100000000%N 1500000%N exEpochEnd 10%N 20%N st.

Definition exCoins : gmap AssetID BackedAsset :=
  {[ 42%N := mkAsset "dcr" 10%N 1%N 42%N; 0%N := mkAsset "btc" 100%N 1%N 0%N ]}.

(** A coordinator tracking one match, with tracker [mt] at location 1 and an
    active swap counted for each of the two orders. *)
Definition exSwapper (mt : matchTracker) : Swapper :=
  mkSwapper "/var/dex/swaps" exCoins {[ 7%N := 1%N ]}
    {[ 10%N := {[ 7%N := 1%N ]}; 20%N := {[ 7%N := 1%N ]} ]}
    {[ 1%N := mkStat 1 false false; 2%N := mkStat 1 true false ]}
    (12 * Minute) (8 * 60 * Minute) (20 * 60 * Minute) [] false ∅
    {[ 1%N := mt ]} (2 * Minute) [] 0.

(** The match as it arrives, seen at [seen]. *)
Definition exNewlyMatched (seen : Time) : matchTracker :=
  mkMatchTracker (exMatch NewlyMatched) seen exEpochEnd
    (newSwapStatus 42%N 0%N) (newSwapStatus 0%N 42%N).

(** The maker's contract is in, confirmed at [confirmed] (zero: not yet). *)
Definition exMakerSwapCast (confirmed : Time) : matchTracker :=
  mkMatchTracker (exMatch MakerSwapCast) (exNow - 10 * Minute) exEpochEnd
    (mkSwapStatus 42%N 0%N (exNow - 5 * Minute) (Some exContract) confirmed 0 None)
    (newSwapStatus 0%N 42%N).

(** Both contracts are in and the maker has redeemed. *)
Definition exMakerRedeemed : matchTracker :=
  mkMatchTracker (exMatch MakerRedeemed) (exNow - 10 * Minute) exEpochEnd
    (mkSwapStatus 42%N 0%N (exNow - 5 * Minute) (Some exContract) (exNow - 4 * Minute)
       (exNow - Minute) (Some (mkCoin [7%N])))
    (mkSwapStatus 0%N 42%N (exNow - 3 * Minute) (Some exContract) (exNow - 2 * Minute)
       0 None).

(** The bytes of match id 7. *)
Definition exMatchIDBytes : Bytes := repeat 0%N 31 ++ [7%N].

Definition exInitMsg : Message := mkMessage 5%N InitRoute exMatchIDBytes.
Definition exRedeemMsg : Message := mkMessage 6%N RedeemRoute exMatchIDBytes.

Definition exInit : Init := mkInit [] exMatchIDBytes [1%N] [2%N] [3%N].
Definition exRedeem : Redeem := mkRedeem [] exMatchIDBytes [4%N] [5%N] [6%N].

(** The step of the maker's init, of the taker's redeem. *)
Definition exMakerInitStep : stepInformation :=
  mkStepInformation 1%N
    (mkStepActor 10%N 42%N true (OLimit exMaker) MakerSide)
    (mkStepActor 20%N 0%N false exTaker TakerSide)
    (mkAsset "dcr" 10%N 1%N 42%N) true NewlyMatched MakerSwapCast 100000000%N.

Definition exTakerRedeemStep : stepInformation :=
  mkStepInformation 1%N
    (mkStepActor 20%N 42%N false exTaker TakerSide)
    (mkStepActor 10%N 0%N true (OLimit exMaker) MakerSide)
    (mkAsset "dcr" 10%N 1%N 42%N) true MakerRedeemed MatchComplete 100000000%N.

(** A configuration with a one-minute broadcast timeout, and the same with an
    asset whose maximum fee rate is zero. *)
Definition exConfig : Config :=
  mkConfig "/var/dex/swaps" false exCoins Minute (8 * 60 * Minute) (20 * 60 * Minute)
    true EmptyString.

Definition exZeroFeeConfig : Config :=
  mkConfig "/var/dex/swaps" false (<[ 60%N := mkAsset "eth" 0%N 1%N 60%N ]> exCoins)
    Minute (8 * 60 * Minute) (20 * 60 * Minute) true EmptyString.

(** The process before any swapper is built. *)
Definition processStart : Swapper :=
  mkSwapper EmptyString ∅ ∅ ∅ ∅ 0 0 0 [] false ∅ ∅ (2 * Minute) [] 0.

(** ** The concrete market, continued *)

(** Backends that are synced, count one confirmation for every contract and
    recommend a fee rate of 25. *)
Definition exChains : Chains :=
  mkChains (fun _ _ => Some true) (fun _ _ => Some 1) (fun _ _ => Some 25%N).

(** A DCR block seen at [exNow]. *)
Definition exBlock : blockNotification := mkBlockNotification exNow 42%N None.

(** The coordinator with its tracker made and not registered yet. *)
Definition exUnregistered (mt : matchTracker) : Swapper :=
  upd_matches (fun _ => ∅) (upd_userMatches (fun _ => ∅) (exSwapper mt)).

(** Both contracts are in and confirmed. *)
Definition exTakerSwapCast : matchTracker :=
  mkMatchTracker (exMatch TakerSwapCast) (exNow - 10 * Minute) exEpochEnd
    (mkSwapStatus 42%N 0%N (exNow - 5 * Minute) (Some exContract) (exNow - 4 * Minute) 0 None)
    (mkSwapStatus 0%N 42%N (exNow - 3 * Minute) (Some exContract) (exNow - 2 * Minute) 0 None).

(** The step of the maker's redeem. *)
Definition exMakerRedeemStep : stepInformation :=
  mkStepInformation 1%N
    (mkStepActor 10%N 0%N true (OLimit exMaker) MakerSide)
    (mkStepActor 20%N 42%N false exTaker TakerSide)
    (mkAsset "btc" 100%N 1%N 0%N) false TakerSwapCast MakerRedeemed 1500000%N.

(** A world like [exWorld] where the backends answer a contract lookup with
    [contract], the data directory holds the state file [latest], and the
    storage and the file system return the hashes [stateHash] and
    [fileHash]. *)
Definition exWorldFull (contract : Lookup Contract) (latest : option (option string))
    (stateHash fileHash : option Bytes) : World :=
  mkWorld
    (fun _ => exNow)
    (fun _ => false)
    (fun _ _ _ => DBOk)
    (fun _ _ _ _ _ _ => DBOk)
    (fun _ _ _ _ _ => DBOk)
    (fun _ => stateHash)
    (fun _ _ => true)
    (fun _ _ _ _ => true)
    (fun _ _ _ _ => contract)
    (fun _ _ _ _ => Found (mkCoin [9%N]))
    (fun _ _ _ _ => true)
    (fun _ _ _ => Some "coin")
    (fun _ _ _ => true)
    (fun _ _ => StatInfo true)
    (fun _ _ => None)
    (fun _ _ => latest)
    (fun _ _ => fileHash)
    (fun payload => Some (mkInit [] payload [1%N] [2%N] [3%N]))
    (fun payload => Some (mkRedeem [] payload [4%N] [5%N] [6%N]))
    initMatchID
    redeemMatchID
    (fun _ _ l => l)
    (fun rate qty => (rate * qty / 100000000)%N)
    (fun t => Truncate t Second)
    (fun t => (t - unixEpoch) / Millisecond)
    (fun ms => unixEpoch + ms * Millisecond).

(** A configuration that looks for the latest state file. *)
Definition exStateConfig : Config :=
  mkConfig "/var/dex/swaps" false exCoins Minute (8 * 60 * Minute) (20 * 60 * Minute)
    false EmptyString.

(** A coordinator of the two assets that tracks nothing. *)
Definition exFresh : Swapper :=
  mkSwapper "/var/dex/swaps" exCoins ∅ ∅ ∅ (12 * Minute) (8 * 60 * Minute)
    (20 * 60 * Minute) [] false ∅ ∅ (2 * Minute) [] 0.

(** A saved state of the assets [assets] with the match of the market, new,
    and the two orders' counters. *)
Definition exState (assets : list AssetID) : State :=
  mkState assets
    {[ 7%N := mkMatchTrackerData (exMatch NewlyMatched) 1700000000000
                (mkSwapStatusData 42%N 0%N 0 [] [] 0 0 [])
                (mkSwapStatusData 0%N 42%N 0 [] [] 0 0 []) ]}
    {[ 1%N := mkStat 1 false false; 2%N := mkStat 1 true false ]}
    ∅.

(** The coordinator with more swaps under way: two for the maker's order and
    three for the taker's, both orders booked and neither failed. *)
Definition exBusySwapper (mt : matchTracker) : Swapper :=
  upd_orders (fun _ => {[ 1%N := mkStat 2 false false; 2%N := mkStat 3 false false ]})
    (exSwapper mt).

(** A state file of the match at MakerRedeemed in which both contracts are
    recorded, and no redeem coin of the maker. *)
Definition exUnredeemedState : State :=
  mkState [42%N; 0%N]
    {[ 7%N := mkMatchTrackerData (exMatch MakerRedeemed) 1764402600000
                (mkSwapStatusData 42%N 0%N 1764402900000 [1%N] [8%N] 1764402960000 0 [])
                (mkSwapStatusData 0%N 42%N 1764403020000 [1%N] [8%N] 1764403080000 0 []) ]}
    {[ 1%N := mkStat 1 false false; 2%N := mkStat 1 true false ]}
    ∅.

(** A world like [exWorld] where every state file holds [state]. *)
Definition exWorldLoading (state : State) : World :=
  mkWorld
    (fun _ => exNow)
    (fun _ => false)
    (fun _ _ _ => DBOk)
    (fun _ _ _ _ _ _ => DBOk)
    (fun _ _ _ _ _ => DBOk)
    (fun _ => None)
    (fun _ _ => true)
    (fun _ _ _ _ => true)
    (fun _ _ _ _ => Found exContract)
    (fun _ _ _ _ => Found (mkCoin [9%N]))
    (fun _ _ _ _ => true)
    (fun _ _ _ => Some "coin")
    (fun _ _ _ => true)
    (fun _ _ => StatInfo true)
    (fun _ _ => Some state)
    (fun _ _ => Some None)
    (fun _ _ => None)
    (fun payload => Some (mkInit [] payload [1%N] [2%N] [3%N]))
    (fun payload => Some (mkRedeem [] payload [4%N] [5%N] [6%N]))
    initMatchID
    redeemMatchID
    (fun _ _ l => l)
    (fun rate qty => (rate * qty / 100000000)%N)
    (fun t => Truncate t Second)
    (fun t => (t - unixEpoch) / Millisecond)
    (fun ms => unixEpoch + ms * Millisecond).

(** A configuration that names the state file to load. *)
Definition exPathConfig : Config :=
  mkConfig "/var/dex/swaps" false exCoins (12 * Minute) (8 * 60 * Minute) (20 * 60 * Minute)
    false "/var/dex/swaps/swapState-1764403200000.gob".
(** ** Properties of the order-swap tracker *)

Definition anOrder (oid : OrderID) : Order :=
  OMarket (mkOrderData oid 0%N 42%N 0%N true "addr").

(** Calls for another order leave an order's entry alone. *)
Lemma runOp_other oid op s :
  opOrder op ≠ oid -> snd (runOp op s) !! oid = s !! oid.
Proof.
  intros Hne. destruct op as [ord b | ord b | ord]; simpl in *.
  - unfold incActiveSwapCount. destruct (s !! ID ord); by rewrite lookup_insert_ne.
  - unfold decrementActiveSwapCount. destruct (s !! ID ord) as [stat|]; [|done].
    simpl. destruct (negb _); simpl; [by rewrite lookup_insert_ne|].
    destruct (_ || _); [by rewrite lookup_delete_ne | by rewrite lookup_insert_ne].
  - unfold canceled. destruct (s !! ID ord); [by rewrite lookup_insert_ne | done].
Qed.

(** A true return on a tracked order removes the order's entry. *)
Lemma decrement_true_deletes ord failed s stat :
  s !! ID ord = Some stat ->
  fst (decrementActiveSwapCount ord failed s) = true ->
  snd (decrementActiveSwapCount ord failed s) !! ID ord = None.
Proof.
  intros Hs. unfold decrementActiveSwapCount. rewrite Hs. simpl.
  destruct (negb (wrap64 (SwapCount stat - 1) =? 0)); simpl; [done|].
  intros Hb. apply andb_true_iff in Hb as [Hoff Hnf].
  rewrite Hnf. simpl. apply lookup_delete_eq.
Qed.

Lemma incActiveSwapCount_tracked ord offBook (s : orderMatches) :
  is_Some (incActiveSwapCount ord offBook s !! ID ord).
Proof.
  unfold incActiveSwapCount. destruct (s !! ID ord); rewrite lookup_insert_eq; eauto.
Qed.

Lemma canceled_tracked ord (s : orderMatches) :
  is_Some (canceled ord s !! ID ord) <-> is_Some (s !! ID ord).
Proof.
  unfold canceled. destruct (s !! ID ord) eqn:Hs; [|by rewrite Hs].
  rewrite lookup_insert_eq. split; eauto.
Qed.

Lemma trackedTrue_le_created oid ops : forall s : orderMatches,
  (trackedTrueReturns oid ops s
   <= entriesCreated oid ops s + match s !! oid with Some _ => 1 | None => 0 end)%nat.
Proof.
  induction ops as [|op rest IH]; intros s; simpl; [lia|].
  specialize (IH (snd (runOp op s))).
  destruct (decide (opOrder op = oid)) as [Heq|Hne].
  - destruct op as [ord b | ord b | ord]; simpl in Heq; subst oid;
      cbn [runOp snd] in *.
    + destruct (decide (ID ord = ID ord)); [|done].
      destruct (incActiveSwapCount_tracked ord b s) as [st Hst].
      rewrite Hst in IH. destruct (s !! ID ord); lia.
    + destruct (decide (ID ord = ID ord)); [|done].
      destruct (s !! ID ord) as [stat|] eqn:Hs.
      * destruct (fst (decrementActiveSwapCount ord b s)) eqn:Hb.
        -- rewrite (decrement_true_deletes ord b s stat Hs Hb) in IH. lia.
        -- destruct (snd (decrementActiveSwapCount ord b s) !! ID ord); lia.
      * unfold decrementActiveSwapCount in *. rewrite Hs in *.
        cbn [fst snd] in *. rewrite Hs in IH. lia.
    + pose proof (canceled_tracked ord s) as Hc.
      destruct (canceled ord s !! ID ord) eqn:Hcs, (s !! ID ord) eqn:Hs; try lia.
      destruct Hc as [Hc _]. destruct Hc; [eauto | done].
  - rewrite (runOp_other oid op s Hne) in IH.
    destruct op as [ord b | ord b | ord]; simpl in Hne;
      try destruct (decide (ID ord = oid)); try done; cbn [runOp snd] in *; lia.
Qed.

(** C2, as stated, fails: once the entry of an off-book, never-failed order is
    gone, every further decrement of that order returns true again. *)
Lemma decrement_returns_true_twice :
  fst (runOps [OpInc (anOrder 1%N) true; OpDec (anOrder 1%N) false; OpDec (anOrder 1%N) false] ∅)
    = [None; Some true; Some true]
  /\ trueReturns 1%N [OpInc (anOrder 1%N) true; OpDec (anOrder 1%N) false; OpDec (anOrder 1%N) false] ∅
     = 2%nat.
Proof. split; vm_compute; reflexivity. Qed.

(** C2 (amended). [decrementActiveSwapCount] returns true exactly when the
    order has no entry, or when the decrement brings the active swap count to
    zero while the entry is off-book and has not failed (the [failed] argument
    included).  Over any sequence of tracker operations, the true returns an
    order gets while it has an entry number at most the entries created for it,
    counting the one it may start with: at most one per entry. *)
Theorem decrementActiveSwapCount_true_iff :
  (forall ord failed (s : orderMatches),
     fst (decrementActiveSwapCount ord failed s) = true <->
     (s !! ID ord = None \/
      exists stat, s !! ID ord = Some stat /\ wrap64 (SwapCount stat - 1) = 0 /\
                   OffBook stat = true /\ HasFailed stat = false /\ failed = false))
  /\
  (forall oid ops (s : orderMatches),
     (trackedTrueReturns oid ops s
      <= entriesCreated oid ops s + match s !! oid with Some _ => 1 | None => 0 end)%nat).
Proof.
  split; [|intros; apply trackedTrue_le_created].
  intros ord failed s. unfold decrementActiveSwapCount.
  destruct (s !! ID ord) as [stat|] eqn:Hs; simpl.
  - destruct (Z.eqb_spec (wrap64 (SwapCount stat - 1)) 0) as [Hz|Hz]; simpl.
    + rewrite andb_true_iff, negb_true_iff, orb_false_iff. split.
      * intros (Hoff & Hf & Hfailed). right. exists stat. done.
      * intros [?|(stat' & Heq & _ & Hoff & Hf & Hfailed)]; [done|].
        by simplify_eq.
    + split; [done|]. intros [?|(stat' & Heq & Hz' & _)]; [done|]. by simplify_eq.
  - split; [by left | done].
Qed.

(** ** [incActiveSwapCount] and the off-book flag *)

(** The order is flagged off-book, or has no entry. *)
Definition offBookOrUntracked (oid : OrderID) (s : orderMatches) : Prop :=
  match s !! oid with
  | Some stat => OffBook stat = true
  | None => True
  end.

(** One call keeps the flag, unless it is an increment of the order that
    passes false. *)
Lemma runOp_keeps_offBook oid op (s : orderMatches) :
  (forall ord, op = OpInc ord false -> ID ord ≠ oid) ->
  offBookOrUntracked oid s -> offBookOrUntracked oid (snd (runOp op s)).
Proof.
  intros Hop Hs. unfold offBookOrUntracked in *.
  destruct (decide (opOrder op = oid)) as [Heq|Hne];
    [|by rewrite (runOp_other oid op s Hne)].
  destruct op as [ord b | ord b | ord]; simpl in Heq; subst oid; cbn [runOp snd].
  - destruct b; [|by destruct (Hop ord eq_refl)].
    unfold incActiveSwapCount. destruct (s !! ID ord); by rewrite lookup_insert_eq.
  - unfold decrementActiveSwapCount. destruct (s !! ID ord) as [stat|] eqn:Hst; simpl.
    + destruct (negb (wrap64 (SwapCount stat - 1) =? 0)); simpl;
        [by rewrite lookup_insert_eq|].
      destruct (negb (HasFailed stat || b) || OffBook stat);
        [by rewrite lookup_delete_eq | by rewrite lookup_insert_eq].
    + by rewrite Hst.
  - unfold canceled. destruct (s !! ID ord) as [stat|] eqn:Hst.
    + by rewrite lookup_insert_eq.
    + by rewrite Hst.
Qed.

(** C4. The claim holds of every call but one kind.  [incActiveSwapCount]
    gives a new entry the flag it is passed.  Over any sequence of tracker
    operations in which no increment of the order passes [offBook = false],
    the order's flag, once true, is true whenever the order has an entry:
    increments that pass true, decrements and cancellations never clear it.
    But an increment that passes false on an entry whose flag is true
    leaves the flag false: the assignment is unconditional. *)
Theorem offBook_cleared_by_inc_false :
  (forall ord offBook (s : orderMatches),
     s !! ID ord = None ->
     incActiveSwapCount ord offBook s !! ID ord = Some (mkStat 1 offBook false))
  /\ (forall oid ops (s : orderMatches),
        (forall ord, In (OpInc ord false) ops -> ID ord ≠ oid) ->
        offBookOrUntracked oid s ->
        offBookOrUntracked oid (snd (runOps ops s)))
  /\ (forall ord (s : orderMatches) stat,
        s !! ID ord = Some stat -> OffBook stat = true ->
        incActiveSwapCount ord false s !! ID ord
        = Some (mkStat (wrap64 (SwapCount stat + 1)) false (HasFailed stat))).
Proof.
  split; [|split].
  - intros ord offBook s Hs. unfold incActiveSwapCount. by rewrite Hs, lookup_insert_eq.
  - intros oid ops. induction ops as [|op rest IH]; intros s Hops Hs; [done|].
    cbn [runOps snd]. apply IH.
    + intros ord Hin. apply Hops. by right.
    + apply runOp_keeps_offBook; [|done]. intros ord ->. apply Hops. by left.
  - intros ord s stat Hs _. unfold incActiveSwapCount. by rewrite Hs, lookup_insert_eq.
Qed.

(** C4 at its failing input: the entry is flagged off-book by a first
    increment, and a second increment that passes false clears the flag. *)
Lemma incActiveSwapCount_clears_off_book :
  incActiveSwapCount (anOrder 1%N) true ∅ !! 1%N = Some (mkStat 1 true false)
  /\ incActiveSwapCount (anOrder 1%N) false (incActiveSwapCount (anOrder 1%N) true ∅) !! 1%N
     = Some (mkStat 2 false false).
Proof.
  split.
  - apply (proj1 offBook_cleared_by_inc_false (anOrder 1%N) true ∅). reflexivity.
  - apply (proj2 (proj2 offBook_cleared_by_inc_false) (anOrder 1%N)
             (incActiveSwapCount (anOrder 1%N) true ∅) (mkStat 1 true false));
      reflexivity.
Defined.

(** ** Reading the trace *)

(** The calls made between two states of a run. *)
Definition newEvents (s s' : Swapper) : list Event :=
  drop (length (trace s)) (trace s').

Definition isInaction (e : Event) : bool :=
  match e with EvInaction _ _ _ _ _ _ => true | _ => false end.

(** The match a revocation call is about. *)
Definition revocationOf (e : Event) : option MatchID :=
  match e with
  | EvSetMatchInactive mid => Some mid
  | EvInaction _ _ mid _ _ _ => Some mid
  | EvSendRevokeMatch _ _ mid => Some mid
  | _ => None
  end.

Lemma newEvents_app (s s' : Swapper) evs :
  trace s' = trace s ++ evs -> newEvents s s' = evs.
Proof. intros H. unfold newEvents. rewrite H. apply drop_app_length. Qed.

(** Running the monad by unfolding its primitives. *)
Create HintDb swapper.
#[global] Hint Unfold bind ret get modify emit ask panic deref final unixMsNow
  respondError respondSuccess ordersSwapSuccess ordersSwapFailure ordersCanceled
  unlockOrderCoins unlockOrderIDCoins setLiveWaiter rmLiveWaiter latencyQWait
  authUser swapSuccess swapFailure rangeMap : swapper.

Ltac mrun := repeat (autounfold with swapper; simpl).

(** Case analysis on a scrutinee that has no [match] inside. *)
Ltac mcase :=
  match goal with
  | |- context [match ?x with _ => _ end] =>
      lazymatch x with
      | context [match _ with _ => _ end] => fail
      | _ => destruct x eqn:?
      end
  end.

(** Replaces [newEvents s s'] by the events [s'] appended to the trace. *)
Ltac read_trace :=
  match goal with
  | |- context [newEvents ?s ?s'] =>
      let t := eval simpl in (trace s') in
      let H := fresh "Htrace" in
      assert (H : trace s' = t) by reflexivity;
      rewrite <- ?app_assoc in H;
      rewrite (newEvents_app s s' _ H); clear H
  end.

Section FailureAscription.

Variable W : World.

(** What a decrement with [failed] makes of an order's entry: the count is
    one less and a failure is recorded; at zero the entry goes, unless the
    order has failed while it is still on the book.  An order without an
    entry gets none. *)
Definition decrementedEntry (failed : bool) (before after : option orderSwapStat) : Prop :=
  match before with
  | None => after = None
  | Some stat =>
      let count := wrap64 (SwapCount stat - 1) in
      let hasFailed := HasFailed stat || failed in
      if (count =? 0) && negb (hasFailed && negb (OffBook stat))
      then after = None
      else after = Some (mkStat count (OffBook stat) hasFailed)
  end.

(** What the cancellation of an order found on the book makes of its entry:
    off-book and failed, the count as it was. *)
Definition unbookedEntry (wasBooked : bool) (before : option orderSwapStat)
    : option orderSwapStat :=
  if wasBooked
  then (fun stat => mkStat (SwapCount stat) true true) <$> before
  else before.

(** The order tracker after [failMatch], as the composition of its calls. *)
Definition trackerAfterFailure (s : Swapper) (atFault other : Order) : orderMatches :=
  let unbooked :=
    match atFault with
    | OLimit lo =>
        if wUnbookHook W (tick s) lo then canceled atFault (orders s) else orders s
    | OMarket _ => orders s
    end in
  snd (decrementActiveSwapCount other false
         (snd (decrementActiveSwapCount atFault true unbooked))).

(** What [failMatch] does to a match at fault of [atFault]: exactly one
    inaction penalty, charged to the user of [atFault] with [label] and
    [refTime], after the match was set inactive.  On the order tracker, with
    [atFault] and [other] two orders: the entry of [other] is decremented
    with [failed = false]; the entry of [atFault] is decremented with
    [failed = true], after it was flagged off-book and failed if [atFault] is
    a limit order that was still booked; and no other order's entry
    changes. *)
Definition revokedWith (s : Swapper) (l : loc) (mt : matchTracker)
    (atFault other : Order) (label : NoActionStep) (refTime : Time) : Prop :=
  let s' := final (failMatch W l s) in
  let m := mtMatch mt in
  let wasBooked :=
    match atFault with
    | OLimit lo => wUnbookHook W (tick s) lo
    | OMarket _ => false
    end in
  filter (fun e => isInaction e = true) (newEvents s s')
    = [EvInaction (User atFault) label (matchID m) (Quantity m) refTime (ID atFault)]
  /\ (exists rest, newEvents s s' = EvSetMatchInactive (matchID m) :: rest)
  /\ orders s' = trackerAfterFailure s atFault other
  /\ (ID other ≠ ID atFault ->
      decrementedEntry false (orders s !! ID other) (orders s' !! ID other)
      /\ decrementedEntry true (unbookedEntry wasBooked (orders s !! ID atFault))
           (orders s' !! ID atFault))
  /\ (forall oid, oid ≠ ID atFault -> oid ≠ ID other -> orders s' !! oid = orders s !! oid).

(** The asset whose coins back an order: what it sells. *)
Definition fundingAsset (ord : Order) : AssetID :=
  if Sell (orderData ord) then BaseAsset (orderData ord) else QuoteAsset (orderData ord).

(** With both funding assets configured, [failMatch] runs to its end. *)
Lemma failMatch_returns (s : Swapper) l mt :
  heap s !! l = Some mt ->
  is_Some (coins s !! fundingAsset (Taker (mtMatch mt))) ->
  is_Some (coins s !! fundingAsset (OLimit (Maker (mtMatch mt)))) ->
  returned (failMatch W l s).
Proof.
  intros Hl [a Ha] [b Hb]. unfold fundingAsset in *. simpl in *.
  unfold failMatch, revoke. mrun. rewrite Hl. mrun.
  destruct (Taker (mtMatch mt)) as [lo|mo] eqn:Htk; simpl in *;
    match type of Ha with
    | context [Sell ?d] => destruct (Sell d) eqn:Hts
    end;
    destruct (Sell (loData (Maker (mtMatch mt)))) eqn:Hms;
    repeat first [ progress mrun
                 | progress rewrite ?Hl, ?Htk, ?Hts, ?Hms, ?Ha, ?Hb
                 | mcase ];
    done.
Qed.

(** The entry of the order a decrement is for. *)
Lemma decrement_entry ord failed (s : orderMatches) :
  decrementedEntry failed (s !! ID ord)
    (snd (decrementActiveSwapCount ord failed s) !! ID ord).
Proof.
  unfold decrementedEntry, decrementActiveSwapCount.
  destruct (s !! ID ord) as [stat|] eqn:Hs; simpl; [|done].
  destruct (wrap64 (SwapCount stat - 1) =? 0); simpl; [|by rewrite lookup_insert_eq].
  destruct (HasFailed stat || failed), (OffBook stat); simpl;
    by rewrite ?lookup_delete_eq, ?lookup_insert_eq.
Qed.

Lemma decrement_other ord failed (s : orderMatches) oid :
  oid ≠ ID ord -> snd (decrementActiveSwapCount ord failed s) !! oid = s !! oid.
Proof. intros Hne. apply (runOp_other oid (OpDec ord failed) s). simpl. congruence. Qed.

Lemma canceled_entry ord (s : orderMatches) :
  canceled ord s !! ID ord = unbookedEntry true (s !! ID ord).
Proof.
  unfold canceled, unbookedEntry. destruct (s !! ID ord) as [stat|] eqn:Hs; simpl.
  - by rewrite lookup_insert_eq.
  - by rewrite Hs.
Qed.

Lemma canceled_other ord (s : orderMatches) oid :
  oid ≠ ID ord -> canceled ord s !! oid = s !! oid.
Proof. intros Hne. apply (runOp_other oid (OpCanceled ord) s). simpl. congruence. Qed.

(** The calls of [failMatch] and the tracker they leave. *)
Lemma failMatch_run (s : Swapper) l mt :
  heap s !! l = Some mt ->
  forall label refTime makerFault,
  ascribe mt = Some (label, refTime, makerFault) ->
  let atFault := if makerFault then OLimit (Maker (mtMatch mt)) else Taker (mtMatch mt) in
  let other := if makerFault then Taker (mtMatch mt) else OLimit (Maker (mtMatch mt)) in
  let s' := final (failMatch W l s) in
  let m := mtMatch mt in
  filter (fun e => isInaction e = true) (newEvents s s')
    = [EvInaction (User atFault) label (matchID m) (Quantity m) refTime (ID atFault)]
  /\ (exists rest, newEvents s s' = EvSetMatchInactive (matchID m) :: rest)
  /\ orders s' = trackerAfterFailure s atFault other.
Proof.
  intros Hl label refTime makerFault Hasc. cbv zeta.
  unfold trackerAfterFailure, failMatch, revoke. mrun. rewrite Hl. mrun. rewrite Hasc.
  set (atFault := if makerFault then OLimit (Maker (mtMatch mt)) else Taker (mtMatch mt)).
  set (other := if makerFault then Taker (mtMatch mt) else OLimit (Maker (mtMatch mt))).
  clearbody atFault other.
  repeat (mrun; rewrite ?Hl; try mcase);
    read_trace; simpl;
    (split; [reflexivity|]); (split; [eauto|]);
    repeat match goal with H : _ = _ |- _ => rewrite H end; reflexivity.
Qed.

(** The entries of the tracker after [failMatch]. *)
Lemma trackerAfterFailure_entries (s : Swapper) (atFault other : Order) :
  let wasBooked :=
    match atFault with
    | OLimit lo => wUnbookHook W (tick s) lo
    | OMarket _ => false
    end in
  (ID other ≠ ID atFault ->
   decrementedEntry false (orders s !! ID other)
     (trackerAfterFailure s atFault other !! ID other)
   /\ decrementedEntry true (unbookedEntry wasBooked (orders s !! ID atFault))
        (trackerAfterFailure s atFault other !! ID atFault))
  /\ (forall oid, oid ≠ ID atFault -> oid ≠ ID other ->
        trackerAfterFailure s atFault other !! oid = orders s !! oid).
Proof.
  cbv zeta. unfold trackerAfterFailure.
  set (unbooked := match atFault with
                   | OLimit lo =>
                       if wUnbookHook W (tick s) lo
                       then canceled atFault (orders s) else orders s
                   | OMarket _ => orders s
                   end).
  assert (Hself : unbooked !! ID atFault
                  = unbookedEntry (match atFault with
                                   | OLimit lo => wUnbookHook W (tick s) lo
                                   | OMarket _ => false
                                   end) (orders s !! ID atFault)).
  { subst unbooked. destruct atFault as [lo|mo]; [|done].
    destruct (wUnbookHook W (tick s) lo); [apply canceled_entry | done]. }
  assert (Hrest : forall oid, oid ≠ ID atFault -> unbooked !! oid = orders s !! oid).
  { intros oid Hne. subst unbooked. destruct atFault as [lo|mo]; [|done].
    destruct (wUnbookHook W (tick s) lo); [by apply canceled_other | done]. }
  clearbody unbooked. split.
  - intros Hne. split.
    + rewrite <- (Hrest (ID other) Hne).
      rewrite <- (decrement_other atFault true unbooked (ID other) Hne).
      apply decrement_entry.
    + rewrite decrement_other by congruence. rewrite <- Hself. apply decrement_entry.
  - intros oid Hne1 Hne2. by rewrite !decrement_other, Hrest.
Qed.

Lemma failMatch_revokedWith (s : Swapper) l mt :
  heap s !! l = Some mt ->
  forall label refTime makerFault,
  ascribe mt = Some (label, refTime, makerFault) ->
  revokedWith s l mt
    (if makerFault then OLimit (Maker (mtMatch mt)) else Taker (mtMatch mt))
    (if makerFault then Taker (mtMatch mt) else OLimit (Maker (mtMatch mt)))
    label refTime.
Proof.
  intros Hl label refTime makerFault Hasc.
  destruct (failMatch_run s l mt Hl label refTime makerFault Hasc) as (Hev & Hfirst & Hord).
  unfold revokedWith. cbv zeta.
  split; [exact Hev|]. split; [exact Hfirst|]. split; [exact Hord|].
  rewrite Hord. apply trackerAfterFailure_entries.
Qed.

(** C1. A match revoked by [failMatch] is ascribed by its status: the maker
    with [NoSwapAsMaker] and the epoch end at [NewlyMatched]; the taker with
    [NoSwapAsTaker] and the maker's swap time at [MakerSwapCast]; the maker
    with [NoRedeemAsMaker] and the taker's swap time at [TakerSwapCast]; the
    taker with [NoRedeemAsTaker] and the maker's redeem time at
    [MakerRedeemed].  The inaction penalty goes to the user at fault, and the
    counterparty's order is decremented with [failed = false]: its entry has
    one active swap less and its failure flag as before, and is gone at zero
    unless the order had failed while booked.  The order at fault is
    decremented with [failed = true].  The run returns when the coin lockers
    of both orders' funding assets exist. *)
Theorem failMatch_ascription (s : Swapper) (l : loc) (mt : matchTracker) :
  heap s !! l = Some mt ->
  let m := mtMatch mt in
  let maker := OLimit (Maker m) in
  let taker := Taker m in
  (Status m = NewlyMatched ->
     revokedWith s l mt maker taker NoSwapAsMaker (EpochEnd m))
  /\ (Status m = MakerSwapCast ->
     revokedWith s l mt taker maker NoSwapAsTaker (swapTime (makerStatus mt)))
  /\ (Status m = TakerSwapCast ->
     revokedWith s l mt maker taker NoRedeemAsMaker (swapTime (takerStatus mt)))
  /\ (Status m = MakerRedeemed ->
     revokedWith s l mt taker maker NoRedeemAsTaker (redeemTime (makerStatus mt)))
  /\ (is_Some (coins s !! fundingAsset taker) -> is_Some (coins s !! fundingAsset maker) ->
      returned (failMatch W l s)).
Proof.
  intros Hl m maker taker.
  assert (Hasc : forall st x, Status m = st ->
            match st with
            | NewlyMatched => Some (NoSwapAsMaker, EpochEnd m, true)
            | MakerSwapCast => Some (NoSwapAsTaker, swapTime (makerStatus mt), false)
            | TakerSwapCast => Some (NoRedeemAsMaker, swapTime (takerStatus mt), true)
            | MakerRedeemed => Some (NoRedeemAsTaker, redeemTime (makerStatus mt), false)
            | MatchComplete => None
            end = Some x -> ascribe mt = Some x).
  { intros st x Hst Hx. unfold ascribe. fold m. by rewrite Hst. }
  split; [|split; [|split; [|split]]]; [intros Hst ..|].
  - apply (failMatch_revokedWith s l mt Hl _ _ true). by eapply Hasc.
  - apply (failMatch_revokedWith s l mt Hl _ _ false). by eapply Hasc.
  - apply (failMatch_revokedWith s l mt Hl _ _ true). by eapply Hasc.
  - apply (failMatch_revokedWith s l mt Hl _ _ false). by eapply Hasc.
  - by apply failMatch_returns.
Qed.

End FailureAscription.

(** ** The inaction sweeps *)

(** Every registered match has a tracker, which carries the id it is
    registered under ([addMatch] registers a tracker under its own id). *)
Definition registryWf (s : Swapper) : Prop :=
  forall mid l, matches s !! mid = Some l ->
    exists mt, heap s !! l = Some mt /\ matchID (mtMatch mt) = mid.

(** A run from [s] to [s'] did not revoke the match [mid] at [l]: the match
    is still registered, its tracker is as it was, and no revocation call
    (set-inactive, inaction penalty, revoke_match) was made for it. *)
Definition notRevoked (mid : MatchID) (l : loc) (s s' : Swapper) : Prop :=
  matches s' !! mid = Some l
  /\ heap s' !! l = heap s !! l
  /\ Forall (fun e => revocationOf e ≠ Some mid) (newEvents s s').

(** What a sweep leaves alone while it works on other matches. *)
Definition untouched (mid : MatchID) (s s' : Swapper) : Prop :=
  heap s' = heap s /\ matches s' = matches s /\ bTimeout s' = bTimeout s
  /\ exists evs, trace s' = trace s ++ evs
                 /\ Forall (fun e => revocationOf e ≠ Some mid) evs.

Lemma untouched_refl mid s : untouched mid s s.
Proof.
  repeat split. exists []. split; [by rewrite app_nil_r | constructor].
Qed.

Lemma untouched_trans mid s1 s2 s3 :
  untouched mid s1 s2 -> untouched mid s2 s3 -> untouched mid s1 s3.
Proof.
  intros (Hh & Hm & Hb & evs & Ht & Hf) (Hh' & Hm' & Hb' & evs' & Ht' & Hf').
  repeat split; try congruence.
  exists (evs ++ evs'). split; [by rewrite Ht', Ht, app_assoc | by apply Forall_app].
Qed.

(** Names the events a run appended to the trace. *)
Ltac give_events :=
  eexists; split;
  [ first [ rewrite <- ?app_assoc; reflexivity | symmetry; apply app_nil_r ] | ].

(** The decisions of the two [checkMatch] closures. *)
Definition eventDue (now : Time) (bTimeout : Duration) (mt : matchTracker) : bool :=
  match Status (mtMatch mt) with
  | NewlyMatched => tooOldEvent now bTimeout (time mt)
  | MakerRedeemed => tooOldEvent now bTimeout (redeemTime (makerStatus mt))
  | _ => false
  end.

Definition blockDue (now : Time) (bTimeout : Duration) (assetID : AssetID)
    (mt : matchTracker) : bool :=
  if bool_decide (swapAsset (makerStatus mt) ≠ assetID)
     && bool_decide (swapAsset (takerStatus mt) ≠ assetID)
  then false
  else match Status (mtMatch mt) with
       | MakerSwapCast => tooOldBlock now bTimeout (swapConfirmed (makerStatus mt))
       | TakerSwapCast => tooOldBlock now bTimeout (swapConfirmed (takerStatus mt))
       | _ => false
       end.

Section Sweeps.

Variable W : World.

Lemma failMatch_untouched mid (s : Swapper) l mt :
  heap s !! l = Some mt ->
  matchID (mtMatch mt) ≠ mid ->
  untouched mid s (final (failMatch W l s)).
Proof.
  intros Hl Hne. unfold untouched, failMatch, revoke, ascribe. mrun. rewrite Hl. mrun.
  repeat (mrun; rewrite ?Hl; try mcase);
    (split; [reflexivity|]); (split; [reflexivity|]); (split; [reflexivity|]);
    give_events; repeat constructor; simpl; congruence.
Qed.

(** One round of a sweep's first loop, for a match that is another one or is
    not due: the loop's deletions grow at most by another match. *)
Definition roundSpares (mid : MatchID) (s0 : Swapper)
    (body : loc -> list loc -> M (list loc)) (l : loc) (mt : matchTracker) : Prop :=
  forall s dels,
    untouched mid s0 s ->
    untouched mid s (final (body l dels s))
    /\ forall dels' s', body l dels s = Ret dels' s' ->
         dels' = dels \/ (dels' = dels ++ [l] /\ matchID (mtMatch mt) ≠ mid).

Lemma checkMatchEventBased_spares mid now (s0 : Swapper) l mt :
  heap s0 !! l = Some mt ->
  matchID (mtMatch mt) ≠ mid \/ eventDue now (bTimeout s0) mt = false ->
  roundSpares mid s0 (checkMatchEventBased W now) l mt.
Proof.
  intros Hl Hok s dels (Hh & Hm & Hb & _).
  assert (Hl' : heap s !! l = Some mt) by (by rewrite Hh).
  unfold checkMatchEventBased. mrun. rewrite Hl'. mrun. rewrite Hb.
  unfold eventDue in Hok.
  assert (Hdue : matchID (mtMatch mt) ≠ mid ->
            untouched mid s (final (match failMatch W l s with
                                    | Ret _ s' => Ret (dels ++ [l]) s'
                                    | Panic r s' => Panic r s'
                                    end))
            /\ forall dels' s', match failMatch W l s with
                                | Ret _ s' => Ret (dels ++ [l]) s'
                                | Panic r s' => Panic r s'
                                end = Ret dels' s' ->
                 dels' = dels \/ (dels' = dels ++ [l] /\ matchID (mtMatch mt) ≠ mid)).
  { intros Hne.
    pose proof (failMatch_untouched mid s l mt Hl' Hne) as Hu.
    destruct (failMatch W l s) as [[] s1|r s1]; simpl in *; split; try done.
    intros dels' s' Heq. injection Heq as <- <-. right. done. }
  unfold redeemSeenTime, swapConfTime in *.
  revert Hok. destruct (Status (mtMatch mt)); intros Hok; mrun;
    try (split; [apply untouched_refl | intros dels' s' Heq; injection Heq as <- <-; by left]).
  - destruct (tooOldEvent now (bTimeout s0) (time mt)) eqn:Hold; [destruct Hok as [Hne|Hf]; [by apply Hdue | done]|].
    split; [apply untouched_refl | intros dels' s' Heq; injection Heq as <- <-; by left].
  - destruct (tooOldEvent now (bTimeout s0) (redeemTime (makerStatus mt))) eqn:Hold;
      [destruct Hok as [Hne|Hf]; [by apply Hdue | done]|].
    split; [apply untouched_refl | intros dels' s' Heq; injection Heq as <- <-; by left].
Qed.

Lemma checkMatchBlockBased_spares mid now assetID (s0 : Swapper) l mt :
  heap s0 !! l = Some mt ->
  matchID (mtMatch mt) ≠ mid \/ blockDue now (bTimeout s0) assetID mt = false ->
  roundSpares mid s0 (checkMatchBlockBased W now assetID) l mt.
Proof.
  intros Hl Hok s dels (Hh & Hm & Hb & _).
  assert (Hl' : heap s !! l = Some mt) by (by rewrite Hh).
  unfold checkMatchBlockBased. mrun. rewrite Hl'. mrun.
  unfold blockDue in Hok.
  destruct (bool_decide (swapAsset (makerStatus mt) ≠ assetID)
            && bool_decide (swapAsset (takerStatus mt) ≠ assetID)); mrun.
  { split; [apply untouched_refl | intros dels' s' Heq; injection Heq as <- <-; by left]. }
  rewrite Hb.
  assert (Hdue : matchID (mtMatch mt) ≠ mid ->
            untouched mid s (final (match failMatch W l s with
                                    | Ret _ s' => Ret (dels ++ [l]) s'
                                    | Panic r s' => Panic r s'
                                    end))
            /\ forall dels' s', match failMatch W l s with
                                | Ret _ s' => Ret (dels ++ [l]) s'
                                | Panic r s' => Panic r s'
                                end = Ret dels' s' ->
                 dels' = dels \/ (dels' = dels ++ [l] /\ matchID (mtMatch mt) ≠ mid)).
  { intros Hne.
    pose proof (failMatch_untouched mid s l mt Hl' Hne) as Hu.
    destruct (failMatch W l s) as [[] s1|r s1]; simpl in *; split; try done.
    intros dels' s' Heq. injection Heq as <- <-. right. done. }
  unfold redeemSeenTime, swapConfTime in *.
  revert Hok. destruct (Status (mtMatch mt)); intros Hok; mrun;
    try (split; [apply untouched_refl | intros dels' s' Heq; injection Heq as <- <-; by left]).
  - destruct (tooOldBlock now (bTimeout s0) (swapConfirmed (makerStatus mt))) eqn:Hold;
      [destruct Hok as [Hne|Hf]; [by apply Hdue | done]|].
    split; [apply untouched_refl | intros dels' s' Heq; injection Heq as <- <-; by left].
  - destruct (tooOldBlock now (bTimeout s0) (swapConfirmed (takerStatus mt))) eqn:Hold;
      [destruct Hok as [Hne|Hf]; [by apply Hdue | done]|].
    split; [apply untouched_refl | intros dels' s' Heq; injection Heq as <- <-; by left].
Qed.

(** A tracker the deletion loop may delete: it is not the one of [mid]. *)
Definition otherTracker (mid : MatchID) (s0 : Swapper) (l : loc) : Prop :=
  exists mt, heap s0 !! l = Some mt /\ matchID (mtMatch mt) ≠ mid.

(** The first loop of a sweep. *)
Lemma sweep_rounds mid (s0 : Swapper) (body : loc -> list loc -> M (list loc)) :
  forall (ms : list (MatchID * loc)) s dels,
    Forall (fun e => exists mt, heap s0 !! snd e = Some mt
                                /\ roundSpares mid s0 body (snd e) mt) ms ->
    untouched mid s0 s ->
    Forall (otherTracker mid s0) dels ->
    let r := forRange ms (fun e => body (snd e)) dels s in
    untouched mid s0 (final r)
    /\ forall dels' s', r = Ret dels' s' -> Forall (otherTracker mid s0) dels'.
Proof.
  induction ms as [|[mid' l'] ms IH]; intros s dels Hms Hs Hdels; simpl.
  - split; [done|]. intros dels' s' Heq. by injection Heq as <- <-.
  - apply Forall_cons in Hms as [(mt & Hl & Hround) Hms]. simpl in *.
    destruct (Hround s dels Hs) as [Hu Hd]. unfold bind.
    destruct (body l' dels s) as [dels1 s1|r s1] eqn:Hb; simpl in *.
    + apply IH; [done | by eapply untouched_trans |].
      destruct (Hd dels1 s1 eq_refl) as [->|[-> Hne]]; [done|].
      apply Forall_app. split; [done|]. repeat constructor. by exists mt.
    + split; [by eapply untouched_trans | done].
Qed.

Lemma deleteMatch_effect (s : Swapper) l mt :
  heap s !! l = Some mt ->
  exists s1, deleteMatch l s = Ret tt s1
             /\ heap s1 = heap s /\ trace s1 = trace s
             /\ matches s1 = delete (matchID (mtMatch mt)) (matches s).
Proof.
  intros Hl. unfold deleteMatch. mrun. rewrite Hl. mrun. eexists. by split.
Qed.

(** The second loop of a sweep, which unregisters the revoked matches. *)
Lemma sweep_deletions mid (s0 : Swapper) :
  forall (dels : list loc) s,
    heap s = heap s0 ->
    Forall (otherTracker mid s0) dels ->
    let r := forRange dels (fun l _ => deleteMatch l) tt s in
    heap (final r) = heap s /\ trace (final r) = trace s
    /\ matches (final r) !! mid = matches s !! mid.
Proof.
  induction dels as [|l dels IH]; intros s Hh Hdels; simpl; [done|].
  apply Forall_cons in Hdels as [(mt & Hl & Hne) Hdels].
  rewrite <- Hh in Hl.
  destruct (deleteMatch_effect s l mt Hl) as (s1 & Hrun & Hh1 & Ht1 & Hm1).
  unfold bind. rewrite Hrun.
  destruct (IH s1) as (IH1 & IH2 & IH3); [congruence | done |].
  simpl in *. rewrite IH1, IH2, IH3, Hh1, Ht1, Hm1. repeat split.
  by rewrite lookup_delete_ne.
Qed.

(** Both loops together. *)
Lemma sweep_spares mid l (s0 s : Swapper) (body : loc -> list loc -> M (list loc))
    (ms : list (MatchID * loc)) :
  matches s0 !! mid = Some l ->
  Forall (fun e => exists mt, heap s0 !! snd e = Some mt
                              /\ roundSpares mid s0 body (snd e) mt) ms ->
  untouched mid s0 s ->
  notRevoked mid l s0
    (final ((deletions <- forRange ms (fun e => body (snd e)) [] ;;
             forRange deletions (fun l _ => deleteMatch l) tt) s)).
Proof.
  intros Hm Hms Hs.
  assert (Hnil : Forall (otherTracker mid s0) []) by constructor.
  destruct (sweep_rounds mid s0 body ms s [] Hms Hs Hnil) as [Hu Hd].
  unfold bind.
  destruct (forRange ms (fun e => body (snd e)) [] s) as [dels s1|r s1] eqn:Hr;
    simpl in Hu.
  - destruct Hu as (Hh & Hmm & Hb & evs & Ht & Hf).
    destruct (sweep_deletions mid s0 dels s1 Hh (Hd dels s1 eq_refl)) as (H1 & H2 & H3).
    cbv zeta in *. repeat split.
    + by rewrite H3, Hmm.
    + by rewrite H1, Hh.
    + rewrite (newEvents_app _ _ evs); [done | by rewrite H2].
  - destruct Hu as (Hh & Hmm & Hb & evs & Ht & Hf). simpl. repeat split.
    + by rewrite Hmm.
    + by rewrite Hh.
    + by rewrite (newEvents_app _ _ evs).
Qed.

(** C3. The block-based sweep never revokes a match whose relevant
    swap-confirmed time (the maker's in MakerSwapCast, the taker's in
    TakerSwapCast) is the zero time: there the claim holds.  The event-based
    sweep has no such guard: it spares a match as long as its event time
    (first seen in NewlyMatched, the maker's redeem seen in MakerRedeemed) is
    less than the broadcast timeout before the sweep's clock reading, and
    never asks whether that time is the zero time (see
    [eventSweep_revokes_zero_time]).  Both hold in whatever order the sweep
    visits the registry. *)
Theorem sweeps_spare (s : Swapper) (mid : MatchID) (l : loc) (mt : matchTracker) :
  fairRange W ->
  registryWf s ->
  matches s !! mid = Some l ->
  heap s !! l = Some mt ->
  (forall assetID,
     (Status (mtMatch mt) = MakerSwapCast -> swapConfirmed (makerStatus mt) = 0) ->
     (Status (mtMatch mt) = TakerSwapCast -> swapConfirmed (takerStatus mt) = 0) ->
     notRevoked mid l s (final (checkInactionBlockBased W assetID s)))
  /\
  (eventDue (wNow W (S (tick s))) (bTimeout s) mt = false ->
   notRevoked mid l s (final (checkInactionEventBased W s))).
Proof.
  intros Hfair Hwf Hm Hl.
  assert (Hidle : notRevoked mid l s (upd_tick S s)).
  { repeat split; [done|]. rewrite (newEvents_app _ _ []); [constructor|].
    by rewrite app_nil_r. }
  assert (Hstart : untouched mid s (upd_tick S (upd_tick S (upd_tick S s)))).
  { repeat split. exists []. split; [by rewrite app_nil_r | constructor]. }
  assert (Hentries : forall body n,
            (forall mt', matchID (mtMatch mt') ≠ mid \/ mt' = mt ->
                         forall l', heap s !! l' = Some mt' ->
                                    roundSpares mid s body l' mt') ->
            Forall (fun e => exists mt', heap s !! snd e = Some mt'
                                         /\ roundSpares mid s body (snd e) mt')
              (wRange W _ n (map_to_list (matches s)))).
  { intros body n Hbody. apply Forall_forall. intros [mid' l'] Hin.
    rewrite (Hfair _ n) in Hin. apply elem_of_map_to_list in Hin.
    destruct (Hwf mid' l' Hin) as (mt' & Hl' & Hid). exists mt'. split; [done|].
    apply Hbody; [|done].
    destruct (decide (mid' = mid)) as [->|Hne]; [right | left; congruence].
    simpl in *. congruence. }
  split.
  - intros assetID Hmaker Htaker. unfold checkInactionBlockBased, sweepBlockBased. mrun.
    destruct (wLastErr W (tick s)); mrun; [done|].
    apply (sweep_spares mid l s _ (checkMatchBlockBased W _ assetID)); [done| |done].
    apply Hentries. intros mt' Hmt' l' Hl'.
    apply checkMatchBlockBased_spares; [done|].
    destruct Hmt' as [Hne| ->]; [by left | right].
    unfold blockDue. destruct (_ && _); [done|].
    destruct (Status (mtMatch mt)); try done.
    + by rewrite Hmaker.
    + by rewrite Htaker.
  - intros Hdue. unfold checkInactionEventBased, sweepEventBased. mrun.
    destruct (wLastErr W (tick s)); mrun; [done|].
    apply (sweep_spares mid l s _ (checkMatchEventBased W _)); [done| |done].
    apply Hentries. intros mt' Hmt' l' Hl'.
    apply checkMatchEventBased_spares; [done|].
    destruct Hmt' as [Hne| ->]; [by left | by right].
Qed.

End Sweeps.

(** ** The step resolver *)

(** The claim's table of the steps that run on the base asset. *)
Definition stepOnBase (st : MatchStatus) (makerSell : bool) : bool :=
  bool_decide (st = NewlyMatched) && makerSell
  || bool_decide (st = MakerSwapCast) && negb makerSell
  || bool_decide (st = TakerSwapCast) && negb makerSell
  || bool_decide (st = MakerRedeemed) && makerSell.

(** The party whose action a status waits for. *)
Definition makerActs (st : MatchStatus) : bool :=
  match st with
  | NewlyMatched | TakerSwapCast => true
  | _ => false
  end.

Section StepResolver.

Variable W : World.

Lemma step_returns (s s' : Swapper) user mid l mt info :
  matches s !! mid = Some l ->
  heap s !! l = Some mt ->
  step W user mid s = Ret (inl info) s' ->
  let m := mtMatch mt in
  let maker := Maker m in
  let onBase := stepOnBase (Status m) (Sell (loData maker)) in
  s' = s /\ siMatch info = l /\ step_ info = Status m
  /\ Status m <> MatchComplete
  /\ isBaseAsset info = onBase
  /\ actorSwapAsset (actor info)
     = (if onBase then BaseAsset (loData maker) else QuoteAsset (loData maker))
  /\ actorSwapAsset (counterParty info)
     = (if onBase then QuoteAsset (loData maker) else BaseAsset (loData maker))
  /\ checkVal info
     = (if onBase then Quantity m else BaseToQuote W (Rate maker) (Quantity m))
  /\ isMaker (actor info) = makerActs (Status m)
  /\ isMaker (counterParty info) = negb (makerActs (Status m))
  /\ actorStatus (actor info) = (if makerActs (Status m) then MakerSide else TakerSide)
  /\ actorStatus (counterParty info)
     = (if makerActs (Status m) then TakerSide else MakerSide)
  /\ actorUser (actor info) = user
  /\ actorOrder (actor info)
     = (if makerActs (Status m) then OLimit maker else Taker m)
  /\ actorOrder (counterParty info)
     = (if makerActs (Status m) then Taker m else OLimit maker)
  /\ actorUser (counterParty info)
     = (if makerActs (Status m) then User (Taker m) else ordUser (loData maker))
  /\ nextStep info
     = match Status m with
       | NewlyMatched => MakerSwapCast
       | MakerSwapCast => TakerSwapCast
       | TakerSwapCast => MakerRedeemed
       | _ => MatchComplete
       end
  /\ coins s !! actorSwapAsset (actor info) = Some (siAsset info)
  /\ actorUser (actor info)
     = (if makerActs (Status m) then ordUser (loData maker) else User (Taker m)).
Proof.
  intros Hm Hl. unfold step, stepParties. mrun. rewrite Hm. mrun. rewrite Hl. mrun.
  destruct (Status (mtMatch mt)) eqn:Hst; simpl;
    destruct (Sell (loData (Maker (mtMatch mt)))) eqn:Hsell; simpl;
    repeat (mcase; simpl); intros Heq; try discriminate;
    injection Heq as <- <-; simpl; rewrite ?Hsell;
    repeat match goal with
           | H : bool_decide _ = true |- _ => apply bool_decide_eq_true in H
           | H : negb (bool_decide _) = false |- _ =>
               apply negb_false_iff, bool_decide_eq_true in H
           end;
    repeat split; try done.
Qed.

(** C7. At each of the four statuses, [step] puts the acting party on the
    base asset exactly when the status is NewlyMatched and the maker sells,
    MakerSwapCast and the maker buys, TakerSwapCast and the maker buys, or
    MakerRedeemed and the maker sells; [checkVal] is the quantity on a base
    step and [BaseToQuote] of the maker's rate and the quantity on a quote
    step.  Both hold of every step [step] returns, and [step] does return one
    for the expected actor of a registered match. *)
Theorem step_asset_and_value (s : Swapper) (mid : MatchID) (l : loc) (mt : matchTracker) :
  matches s !! mid = Some l ->
  heap s !! l = Some mt ->
  let m := mtMatch mt in
  let maker := Maker m in
  let onBase := stepOnBase (Status m) (Sell (loData maker)) in
  (forall user info s',
     step W user mid s = Ret (inl info) s' ->
     isBaseAsset info = onBase
     /\ actorSwapAsset (actor info)
        = (if onBase then BaseAsset (loData maker) else QuoteAsset (loData maker))
     /\ checkVal info
        = (if onBase then Quantity m else BaseToQuote W (Rate maker) (Quantity m)))
  /\
  (Status m <> MatchComplete ->
   is_Some (coins s !! (if onBase then BaseAsset (loData maker)
                        else QuoteAsset (loData maker))) ->
   exists info,
     step W (if makerActs (Status m) then ordUser (loData maker) else User (Taker m))
       mid s = Ret (inl info) s).
Proof.
  intros Hm Hl m maker onBase. split.
  - intros user info s' Hstep.
    pose proof (step_returns s s' user mid l mt info Hm Hl Hstep) as H.
    cbv zeta in H. fold m maker onBase in H. tauto.
  - intros Hst [backed Hc]. unfold step, stepParties. mrun. rewrite Hm. mrun. rewrite Hl. mrun.
    subst onBase maker m. unfold stepOnBase in Hc.
    destruct (Status (mtMatch mt)) eqn:Hs; try done; simpl in *;
      destruct (Sell (loData (Maker (mtMatch mt)))); simpl in *;
      rewrite bool_decide_eq_true_2 by done; simpl; rewrite Hc; eauto.
Qed.

End StepResolver.

(** ** Validation failures in [processInit] and [processRedeem] *)

Section Validation.

Variable W : World.

(** The four defects of a located swap contract. *)
Definition lowFeeRate (stepInfo : stepInformation) (mt : matchTracker) (c : Contract) : Prop :=
  (contractFeeRate c
   < (if isBaseAsset stepInfo then FeeRateBase (mtMatch mt) else FeeRateQuote (mtMatch mt)))%N.

Definition wrongRecipient (stepInfo : stepInformation) (c : Contract) : Prop :=
  contractSwapAddress c ≠ ordSwapAddress (orderData (actorOrder (counterParty stepInfo))).

Definition wrongValue (stepInfo : stepInformation) (c : Contract) : Prop :=
  contractValue c ≠ checkVal stepInfo.

Definition lockTimeTooShort (s : Swapper) (stepInfo : stepInformation) (mt : matchTracker)
    (c : Contract) : Prop :=
  contractLockTime c
  < DropMilliseconds W
      (timeAdd (matchTime mt)
         (if isMaker (actor stepInfo) then lockTimeMaker s else lockTimeTaker s)).

(** A run that only answered the client with an error: it returned [a]
    after [questions] questions to the world and one call, the response, and
    the registry, the trackers and the order tracker are as before. *)
Definition onlyRespondedError {A} (s : Swapper) (r : Res A) (a : A) (questions : nat)
    (id : N) (user : AccountID) (code : ErrCode) : Prop :=
  exists s' errMsg,
    r = Ret a s'
    /\ newEvents s s' = [EvRespondError id user code errMsg]
    /\ tick s' = (questions + tick s)%nat
    /\ heap s' = heap s /\ matches s' = matches s
    /\ userMatches s' = userMatches s /\ orders s' = orders s.

Lemma processInit_rejects (s : Swapper) msg params stepInfo mt c :
  heap s !! siMatch stepInfo = Some mt ->
  wContract W (tick s) (Backend (siAsset stepInfo)) (initCoinID params) (initContract params)
    = Found c ->
  lowFeeRate stepInfo mt c \/ wrongRecipient stepInfo c \/ wrongValue stepInfo c
  \/ lockTimeTooShort s stepInfo mt c ->
  onlyRespondedError s (processInit W msg params stepInfo s) DontTryAgain 1
    (msgID msg) (actorUser (actor stepInfo)) ContractError.
Proof.
  intros Hl Hc Hbad. unfold onlyRespondedError, processInit. mrun. rewrite Hl. mrun.
  rewrite Hc. mrun.
  unfold lowFeeRate, wrongRecipient, wrongValue, lockTimeTooShort in Hbad.
  destruct (N.ltb_spec (contractFeeRate c)
              (if isBaseAsset stepInfo then FeeRateBase (mtMatch mt)
               else FeeRateQuote (mtMatch mt))) as [Hfee|Hfee]; mrun.
  { eexists _, _. split; [reflexivity|]. read_trace. done. }
  destruct (decide (contractSwapAddress c
                    = ordSwapAddress (orderData (actorOrder (counterParty stepInfo)))))
    as [Haddr|Haddr].
  2:{ rewrite bool_decide_eq_false_2 by done. mrun.
      eexists _, _. split; [reflexivity|]. read_trace. done. }
  rewrite bool_decide_eq_true_2 by done. mrun.
  destruct (decide (contractValue c = checkVal stepInfo)) as [Hval|Hval].
  2:{ rewrite bool_decide_eq_false_2 by done. mrun.
      eexists _, _. split; [reflexivity|]. read_trace. done. }
  rewrite bool_decide_eq_true_2 by done. mrun.
  assert (Hlock : lockTimeTooShort s stepInfo mt c).
  { destruct Hbad as [H|[H|[H|H]]]; [lia | done | done | exact H]. }
  unfold lockTimeTooShort in Hlock.
  destruct (isMaker (actor stepInfo)); unfold Before;
    (destruct (Z.ltb_spec (contractLockTime c)
                 (DropMilliseconds W (timeAdd (matchTime mt) (lockTimeMaker s))));
     destruct (Z.ltb_spec (contractLockTime c)
                 (DropMilliseconds W (timeAdd (matchTime mt) (lockTimeTaker s))));
     try lia; mrun;
     eexists _, _; (split; [reflexivity|]); read_trace; done).
Qed.

Lemma processRedeem_invalid_secret (s : Swapper) msg params stepInfo mt cpSwap :
  heap s !! siMatch stepInfo = Some mt ->
  swap (statusOf (actorStatus (counterParty stepInfo)) mt) = Some cpSwap ->
  wValidateSecret W (tick s) (Backend (siAsset stepInfo)) (redeemSecret params)
    (contractRedeemScript cpSwap) = false ->
  onlyRespondedError s (processRedeem W msg params stepInfo s) DontTryAgain 1
    (msgID msg) (actorUser (actor stepInfo)) UnknownMarketError.
Proof.
  intros Hl Hswap Hsecret. unfold onlyRespondedError, processRedeem. mrun.
  rewrite Hl. mrun. rewrite Hswap. mrun. rewrite Hsecret. mrun.
  eexists _, _. split; [reflexivity|]. read_trace. done.
Qed.

Lemma processRedeem_rejected_coin (s : Swapper) msg params stepInfo mt cpSwap :
  heap s !! siMatch stepInfo = Some mt ->
  swap (statusOf (actorStatus (counterParty stepInfo)) mt) = Some cpSwap ->
  wValidateSecret W (tick s) (Backend (siAsset stepInfo)) (redeemSecret params)
    (contractRedeemScript cpSwap) = true ->
  wRedemption W (S (tick s)) (Backend (siAsset stepInfo)) (redeemCoinID params)
    (contractID cpSwap) = OtherLookupError ->
  onlyRespondedError s (processRedeem W msg params stepInfo s) DontTryAgain 2
    (msgID msg) (actorUser (actor stepInfo)) RedemptionError.
Proof.
  intros Hl Hswap Hsecret Hcoin. unfold onlyRespondedError, processRedeem. mrun.
  rewrite Hl. mrun. rewrite Hswap. mrun. rewrite Hsecret. mrun. rewrite Hcoin. mrun.
  eexists _, _. split; [reflexivity|]. read_trace. done.
Qed.

(** C5 (amended). A located contract that pays too low a fee, the wrong
    recipient or the wrong value, or locks too briefly, ends the waiter of
    [processInit] (DontTryAgain) with a ContractError response.  In
    [processRedeem] a secret the backend rejects ends the waiter with an
    UnknownMarketError response, before the redeem coin is asked for, and a
    redeem coin the backend rejects (other than as not found) ends it with a
    RedemptionError response.  In all three cases the match keeps its
    tracker, its status and its registry entries. *)
Theorem validation_failure_is_terminal (s : Swapper) (mt : matchTracker)
    (stepInfo : stepInformation) :
  heap s !! siMatch stepInfo = Some mt ->
  (forall msg params c,
     wContract W (tick s) (Backend (siAsset stepInfo)) (initCoinID params)
       (initContract params) = Found c ->
     lowFeeRate stepInfo mt c \/ wrongRecipient stepInfo c \/ wrongValue stepInfo c
     \/ lockTimeTooShort s stepInfo mt c ->
     onlyRespondedError s (processInit W msg params stepInfo s) DontTryAgain 1
       (msgID msg) (actorUser (actor stepInfo)) ContractError)
  /\
  (forall msg params cpSwap,
     swap (statusOf (actorStatus (counterParty stepInfo)) mt) = Some cpSwap ->
     wValidateSecret W (tick s) (Backend (siAsset stepInfo)) (redeemSecret params)
       (contractRedeemScript cpSwap) = false ->
     onlyRespondedError s (processRedeem W msg params stepInfo s) DontTryAgain 1
       (msgID msg) (actorUser (actor stepInfo)) UnknownMarketError)
  /\
  (forall msg params cpSwap,
     swap (statusOf (actorStatus (counterParty stepInfo)) mt) = Some cpSwap ->
     wValidateSecret W (tick s) (Backend (siAsset stepInfo)) (redeemSecret params)
       (contractRedeemScript cpSwap) = true ->
     wRedemption W (S (tick s)) (Backend (siAsset stepInfo)) (redeemCoinID params)
       (contractID cpSwap) = OtherLookupError ->
     onlyRespondedError s (processRedeem W msg params stepInfo s) DontTryAgain 2
       (msgID msg) (actorUser (actor stepInfo)) RedemptionError).
Proof.
  intros Hl. split; [|split].
  - intros msg params c. by apply processInit_rejects.
  - intros msg params cpSwap. by apply processRedeem_invalid_secret.
  - intros msg params cpSwap. by apply processRedeem_rejected_coin.
Qed.

End Validation.

(** ** The taker's redeem *)


Section FinalRedeem.

Variable W : World.


End FinalRedeem.

(** ** The expiry of an init waiter *)

Lemma waiterExpiration_spec now txWait lastEvent bTimeout :
  waiterExpiration now txWait lastEvent bTimeout
  = if IsZero lastEvent then now + txWait
    else Z.min (now + txWait) (lastEvent + bTimeout).
Proof.
  unfold waiterExpiration, After, timeAdd. destruct (IsZero lastEvent); [done|].
  destruct (Z.ltb_spec (lastEvent + bTimeout) (now + txWait)); lia.
Qed.

Section InitHandler.

Variable W : World.

(** The event an init waits on: the match's arrival for the maker's init, the
    confirmation of the maker's swap for the taker's. *)
Definition initLastEvent (mt : matchTracker) : Time :=
  match Status (mtMatch mt) with
  | MakerSwapCast => swapConfirmed (makerStatus mt)
  | _ => time mt
  end.

(** C8 (amended). An init that [handleInit] accepts is for a registered match
    in NewlyMatched or MakerSwapCast, and registers one coin waiter.  With
    [lastEvent] the match's arrival time in NewlyMatched and the maker's
    swap-confirmed time in MakerSwapCast, the waiter expires at
    [min(now + txWaitExpiration, lastEvent + broadcastTimeout)] when
    [lastEvent] is set, and at [now + txWaitExpiration] when it is the zero
    time. *)
Theorem handleInit_waiter_expiry (s s' : Swapper) (user : AccountID) (msg : Message) :
  handleInit W user msg s = Ret None s' ->
  exists params l mt stepInfo coinStr,
    unmarshalInit W (Payload msg) = Some params
    /\ matches s !! matchIDOfBytes (initMatchID params) = Some l
    /\ heap s !! l = Some mt
    /\ (Status (mtMatch mt) = NewlyMatched \/ Status (mtMatch mt) = MakerSwapCast)
    /\ let lastEvent := initLastEvent mt in
       let now := wNow W (tick s + 3) in
       let expiry :=
         if IsZero lastEvent then now + txWaitExpiration s
         else Z.min (now + txWaitExpiration s) (lastEvent + bTimeout s) in
       latencyQ s'
       = latencyQ s ++ [mkWaiter expiry (InitWaiter user msg params stepInfo coinStr)].
Proof.
  unfold handleInit. mrun.
  destruct (stop s); [done|].
  destruct (unmarshalInit W (Payload msg)) as [params|] eqn:Hparse; [|done]. mrun.
  destruct (wAuth W (tick s) user _ _); mrun; [|done].
  destruct (bool_decide (length (initMatchID params) = MatchIDSize)); mrun; [|done].
  destruct (step W user (matchIDOfBytes (initMatchID params)) (upd_tick S s))
    as [[stepInfo|e] s1|] eqn:Hstep; mrun; [|done|done].
  assert (exists l mt, matches s !! matchIDOfBytes (initMatchID params) = Some l
                       /\ heap s !! l = Some mt) as (l & mt & Hm & Hl).
  { revert Hstep. unfold step. mrun.
    destruct (matches s !! matchIDOfBytes (initMatchID params)) as [l|]; [|done].
    mrun. destruct (heap s !! l) as [mt|] eqn:Hl; [|done]. eauto. }
  pose proof (step_returns W (upd_tick S s) s1 user _ l mt stepInfo Hm Hl Hstep) as Hs.
  cbv zeta in Hs. destruct Hs as (-> & Hsi & Hstp & _).
  mrun. rewrite Hsi, Hl. mrun.
  destruct (Status (mtMatch mt)) eqn:Hst; mrun; try done;
    (destruct (wValidateCoinID W _ _ _) as [coinStr|]; mrun; [|done]);
    (destruct (wValidateContract W _ _ _); mrun; [|done]);
    rewrite Hl; mrun; rewrite Hstp; mrun;
    intros Heq; injection Heq as <-; simpl;
    exists params, l, mt, stepInfo, coinStr;
    (repeat split; auto);
    unfold initLastEvent; rewrite Hst; rewrite waiterExpiration_spec;
    replace (tick s + 3)%nat with (S (S (S (tick s)))) by lia; reflexivity.
Qed.

End InitHandler.

(** ** The constructor *)

(** A computation that leaves the package variable [txWaitExpiration] as it
    found it, however it ends. *)
Definition keepsTxWait {A} (m : M A) : Prop :=
  forall s, txWaitExpiration (final (m s)) = txWaitExpiration s.

Lemma keeps_ret {A} (a : A) : keepsTxWait (ret a).
Proof. by intros s. Qed.

Lemma keeps_bind {A B} (m : M A) (k : A -> M B) :
  keepsTxWait m -> (forall a, keepsTxWait (k a)) -> keepsTxWait (bind m k).
Proof.
  intros Hm Hk s. unfold bind. specialize (Hm s).
  destruct (m s) as [a s1|r s1]; simpl in *; [|done].
  by rewrite Hk.
Qed.

Lemma keeps_get : keepsTxWait get.
Proof. by intros s. Qed.

Lemma keeps_ask {A} (f : nat -> A) : keepsTxWait (ask f).
Proof. by intros s. Qed.

Lemma keeps_panic {A} r : keepsTxWait (@panic A r).
Proof. by intros s. Qed.

Lemma keeps_emit e : keepsTxWait (emit e).
Proof. by intros s. Qed.

Lemma keeps_modify (f : Swapper -> Swapper) :
  (forall s, txWaitExpiration (f s) = txWaitExpiration s) -> keepsTxWait (modify f).
Proof. intros Hf s. apply Hf. Qed.

Lemma keeps_forRange {A B} (xs : list A) (body : A -> B -> M B) :
  (forall x acc, keepsTxWait (body x acc)) -> forall acc, keepsTxWait (forRange xs body acc).
Proof.
  intros Hb. induction xs as [|x xs IH]; intros acc; simpl.
  - apply keeps_ret.
  - apply keeps_bind; [apply Hb | intros; apply IH].
Qed.

Ltac keeps_step :=
  lazymatch goal with
  | |- keepsTxWait (bind _ _) => apply keeps_bind; [|intros]
  | |- keepsTxWait (ret _) => apply keeps_ret
  | |- keepsTxWait get => apply keeps_get
  | |- keepsTxWait (ask _) => apply keeps_ask
  | |- keepsTxWait (panic _) => apply keeps_panic
  | |- keepsTxWait (emit _) => apply keeps_emit
  | |- keepsTxWait (modify _) => apply keeps_modify; intros; reflexivity
  | |- keepsTxWait (forRange _ _ _) => apply keeps_forRange; intros
  | |- keepsTxWait (match ?x with _ => _ end) => destruct x
  | |- keepsTxWait (let _ := _ in _) => cbv zeta
  end.

Section Constructor.

Variable W : World.

Lemma keeps_deref l : keepsTxWait (deref l).
Proof. unfold deref. repeat keeps_step. Qed.

Lemma keeps_step_ user mid : keepsTxWait (step W user mid).
Proof. unfold step. repeat (keeps_step || apply keeps_deref). Qed.

Lemma keeps_addMatch l : keepsTxWait (addMatch l).
Proof. unfold addMatch. repeat (keeps_step || apply keeps_deref). Qed.

Lemma keeps_handleInit user msg : keepsTxWait (handleInit W user msg).
Proof.
  unfold handleInit, authUser, setLiveWaiter, latencyQWait.
  repeat (keeps_step || apply keeps_deref || apply keeps_step_).
Qed.

Lemma keeps_handleRedeem user msg : keepsTxWait (handleRedeem W user msg).
Proof.
  unfold handleRedeem, authUser, setLiveWaiter, latencyQWait.
  repeat (keeps_step || apply keeps_deref || apply keeps_step_).
Qed.

Lemma keeps_rangeMap {K V} `{Countable K} (m : gmap K V) : keepsTxWait (rangeMap W m).
Proof. unfold rangeMap. apply keeps_ask. Qed.

Lemma keeps_backendOf a : keepsTxWait (backendOf a).
Proof. unfold backendOf. repeat keeps_step. Qed.

Lemma keeps_translateSwapStatus ss ssd cp : keepsTxWait (translateSwapStatus W ss ssd cp).
Proof.
  unfold translateSwapStatus. repeat (keeps_step || apply keeps_backendOf).
Qed.

Lemma keeps_restoreState state allowPartial :
  keepsTxWait (restoreState W state allowPartial).
Proof.
  unfold restoreState, restoreMatch, restoreWaiter, alloc.
  repeat (keeps_step || apply keeps_translateSwapStatus || apply keeps_addMatch
          || apply keeps_handleInit || apply keeps_handleRedeem || apply keeps_rangeMap).
Qed.

Lemma keeps_loadInitialState cfg : keepsTxWait (loadInitialState W cfg).
Proof. unfold loadInitialState. repeat keeps_step. Qed.

(** C9. After a successful [NewSwapper], [txWaitExpiration] is the smaller of
    its value before and the configured broadcast timeout: reduced to exactly
    the timeout when it was greater, unchanged otherwise, and so never above
    the timeout. *)
Theorem NewSwapper_clamps_txWaitExpiration (cfg : Config) (s s' : Swapper) :
  NewSwapper W cfg s = Ret None s' ->
  txWaitExpiration s' <= BroadcastTimeout cfg
  /\ (BroadcastTimeout cfg < txWaitExpiration s ->
      txWaitExpiration s' = BroadcastTimeout cfg)
  /\ (txWaitExpiration s <= BroadcastTimeout cfg ->
      txWaitExpiration s' = txWaitExpiration s).
Proof.
  unfold NewSwapper. mrun.
  destruct (wStat W (tick s) (DataDir cfg)) as [[]| |]; mrun; try done.
  destruct (zeroFeeAsset _); mrun; [done|].
  match goal with
  | |- context [(if ?c then _ else _) ?s0] =>
      assert (Hclamp : exists s1, (if c then modify (upd_txWaitExpiration
                                                      (fun _ => BroadcastTimeout cfg))
                                   else ret tt) s0 = Ret tt s1
                        /\ txWaitExpiration s1
                           = Z.min (txWaitExpiration s) (BroadcastTimeout cfg))
  end.
  { destruct (Z.ltb_spec (BroadcastTimeout cfg) (txWaitExpiration s));
      mrun; eexists; (split; [reflexivity|]); simpl; lia. }
  destruct Hclamp as (s1 & Hrun & Htx). unfold modify, ret in Hrun. rewrite Hrun. clear Hrun.
  pose proof (keeps_loadInitialState cfg s1) as Hload.
  destruct (loadInitialState W cfg s1) as [[err|state] s2|]; simpl in Hload; [done| |done].
  destruct state as [st|].
  - intros Heq. pose proof (keeps_restoreState st (AllowPartialRestore cfg) s2) as Hk.
    destruct (restoreState W st (AllowPartialRestore cfg) s2) as [[err|] s3|] eqn:Hr;
      simpl in *; try done.
    injection Heq as <-. simpl. lia.
  - mrun. intros Heq. injection Heq as <-. simpl. lia.
Qed.

(** C10 at its failing input, and everywhere else.  With a configured asset
    whose maximum fee rate is zero, [NewSwapper] never gets as far as
    building a swapper: whatever happens it only asks the world questions,
    making no call, registering no route and loading no state.  It returns an
    error when [os.Stat] returned file information or the not-exist error;
    when [os.Stat] failed otherwise it panics on the nil [FileInfo]. *)
Theorem NewSwapper_zero_max_fee_rate (cfg : Config) (s : Swapper) id asset :
  fairRange W ->
  cfgAssets cfg !! id = Some asset ->
  MaxFeeRate asset = 0%N ->
  (exists n, final (NewSwapper W cfg s) = upd_tick (Nat.add n) s)
  /\ (wStat W (tick s) (DataDir cfg) <> StatOtherError ->
      exists err s', NewSwapper W cfg s = Ret (Some err) s')
  /\ (wStat W (tick s) (DataDir cfg) = StatOtherError ->
      exists reason, NewSwapper W cfg s = Panic reason (upd_tick S s)).
Proof.
  intros Hfair Hasset Hzero.
  assert (Hfind : forall n,
            is_Some (zeroFeeAsset (wRange W _ n (map_to_list (cfgAssets cfg))))).
  { intros n. unfold zeroFeeAsset.
    destruct (List.find _ (wRange W _ n (map_to_list (cfgAssets cfg)))) as [e|] eqn:Hf;
      [by eexists|].
    assert (Hin : In (id, asset) (wRange W _ n (map_to_list (cfgAssets cfg)))).
    { apply list_elem_of_In. rewrite (Hfair _ n). by apply elem_of_map_to_list. }
    pose proof (find_none _ _ Hf (id, asset) Hin) as Hn. simpl in Hn.
    by rewrite bool_decide_eq_true_2 in Hn. }
  unfold NewSwapper. mrun.
  destruct (wStat W (tick s) (DataDir cfg)) as [[]| |]; mrun.
  - destruct (Hfind (S (tick s))) as [a Ha]. rewrite Ha. simpl.
    split; [by exists 2%nat|]. split; [eauto | done].
  - split; [by exists 1%nat|]. split; [eauto | done].
  - split; [by exists 1%nat|]. split; [eauto | done].
  - split; [by exists 1%nat|]. split; [done | eauto].
Qed.

End Constructor.

(** ** Worked runs on the concrete market *)

Lemma exWorldWith_fair found secretOk stat : fairRange (exWorldWith found secretOk stat).
Proof. intros A n l. reflexivity. Qed.

Lemma exSwapper_wf mt : matchID (mtMatch mt) = 7%N -> registryWf (exSwapper mt).
Proof.
  intros Hid mid l Hm. simpl in Hm.
  apply lookup_singleton_Some in Hm as [<- <-].
  exists mt. split; [reflexivity | exact Hid].
Qed.

(** C1 on a match whose maker never posted a contract, with two swaps under
    way for the maker's order and three for the taker's: the maker is charged,
    the taker's order has two swaps left and has not failed, and the maker's
    order, unbooked, has one swap left and has failed. *)
Lemma failMatch_ascription_witness :
  filter (fun e => isInaction e = true)
    (newEvents (exBusySwapper (exNewlyMatched (exNow - 13 * Minute)))
       (final (failMatch exWorld 1%N (exBusySwapper (exNewlyMatched (exNow - 13 * Minute))))))
  = [EvInaction 10%N NoSwapAsMaker 7%N 100000000%N exEpochEnd 1%N]
  /\ orders (final (failMatch exWorld 1%N
                      (exBusySwapper (exNewlyMatched (exNow - 13 * Minute))))) !! 2%N
     = Some (mkStat 2 false false)
  /\ orders (final (failMatch exWorld 1%N
                      (exBusySwapper (exNewlyMatched (exNow - 13 * Minute))))) !! 1%N
     = Some (mkStat 1 true true).
Proof.
  destruct (proj1 (failMatch_ascription exWorld
                     (exBusySwapper (exNewlyMatched (exNow - 13 * Minute))) 1%N
                     (exNewlyMatched (exNow - 13 * Minute)) eq_refl) eq_refl)
    as (Hev & _ & _ & Hentries & _).
  destruct (Hentries ltac:(discriminate)) as [Hother HatFault].
  split; [exact Hev|]. split; [exact Hother | exact HatFault].
Defined.

(** C3: the block-based sweep on a maker swap that is not confirmed yet. *)
Lemma sweeps_spare_witness :
  notRevoked 7%N 1%N (exSwapper (exMakerSwapCast 0))
    (final (checkInactionBlockBased exWorld 42%N (exSwapper (exMakerSwapCast 0)))).
Proof.
  apply (proj1 (sweeps_spare exWorld (exSwapper (exMakerSwapCast 0)) 7%N 1%N
                  (exMakerSwapCast 0) (exWorldWith_fair _ _ _)
                  (exSwapper_wf (exMakerSwapCast 0) eq_refl)
                  eq_refl eq_refl) 42%N).
  - intros _. reflexivity.
  - intros H. discriminate H.
Defined.

(** C3 at its failing input.  The swapper is started on a state file whose
    match at MakerRedeemed records no redeem coin of the maker.
    [restoreState] registers the match with the maker's redeem time left at
    the zero time, and the first event-based sweep revokes it and charges the
    taker, with the zero time as the reference time. *)
Lemma eventSweep_revokes_restored_match :
  NewSwapper (exWorldLoading exUnredeemedState) exPathConfig processStart
  = Ret None (final (NewSwapper (exWorldLoading exUnredeemedState) exPathConfig processStart))
  /\ (exists l mt,
        matches (final (NewSwapper (exWorldLoading exUnredeemedState) exPathConfig
                          processStart)) !! 7%N = Some l
        /\ heap (final (NewSwapper (exWorldLoading exUnredeemedState) exPathConfig
                          processStart)) !! l = Some mt
        /\ Status (mtMatch mt) = MakerRedeemed
        /\ redeemTime (makerStatus mt) = 0)
  /\ matches (final (checkInactionEventBased (exWorldLoading exUnredeemedState)
                       (final (NewSwapper (exWorldLoading exUnredeemedState) exPathConfig
                                 processStart)))) !! 7%N
     = None
  /\ filter (fun e => isInaction e = true)
       (newEvents
          (final (NewSwapper (exWorldLoading exUnredeemedState) exPathConfig processStart))
          (final (checkInactionEventBased (exWorldLoading exUnredeemedState)
                    (final (NewSwapper (exWorldLoading exUnredeemedState) exPathConfig
                              processStart)))))
     = [EvInaction 20%N NoRedeemAsTaker 7%N 100000000%N 0 2%N].
Proof.
  split; [vm_compute; reflexivity|]. split.
  - eexists _, _. repeat split; vm_compute; reflexivity.
  - split; vm_compute; reflexivity.
Qed.

(** A contract for less than the match's quantity. *)
Definition exShortContract : Contract :=
  mkContract [1%N] 10%N "taker-address" 99%N (exNow + 20 * 60 * Minute) [8%N].

(** C5 on the maker's init with a contract of the wrong value. *)
Lemma validation_failure_witness :
  onlyRespondedError (exSwapper (exNewlyMatched (exNow - Minute)))
    (processInit (exWorldWith exShortContract true (StatInfo true)) exInitMsg exInit
       exMakerInitStep (exSwapper (exNewlyMatched (exNow - Minute))))
    DontTryAgain 1 5%N 10%N ContractError.
Proof.
  apply (proj1 (validation_failure_is_terminal
                  (exWorldWith exShortContract true (StatInfo true))
                  (exSwapper (exNewlyMatched (exNow - Minute)))
                  (exNewlyMatched (exNow - Minute)) exMakerInitStep eq_refl)
           exInitMsg exInit exShortContract).
  - reflexivity.
  - right. right. left. vm_compute. discriminate.
Defined.

(** C5, as stated, fails for an invalid secret: the taker's redeem, whose coin
    the backend would find, is answered with UnknownMarketError. *)
Lemma invalid_secret_is_UnknownMarketError :
  wRedemption (exWorldWith exContract false (StatInfo true)) 1 42%N [4%N] [1%N]
    = Found (mkCoin [9%N])
  /\ processRedeem (exWorldWith exContract false (StatInfo true)) exRedeemMsg exRedeem
       exTakerRedeemStep (exSwapper exMakerRedeemed)
     = Ret DontTryAgain
         (upd_trace (fun t => t ++ [EvRespondError 6%N 20%N UnknownMarketError
                                      "secret validation failed"])
            (upd_tick S (exSwapper exMakerRedeemed)))
  /\ UnknownMarketError <> ContractError
  /\ UnknownMarketError <> RedemptionError.
Proof. repeat split; try discriminate; vm_compute; reflexivity. Qed.



(** C7 on the maker's init: the maker sells, so the step is on the base
    asset. *)
Lemma step_asset_and_value_witness :
  exists info,
    step exWorld 10%N 7%N (exSwapper (exNewlyMatched (exNow - Minute)))
    = Ret (inl info) (exSwapper (exNewlyMatched (exNow - Minute))).
Proof.
  apply (proj2 (step_asset_and_value exWorld (exSwapper (exNewlyMatched (exNow - Minute)))
                  7%N 1%N (exNewlyMatched (exNow - Minute)) eq_refl eq_refl)).
  - discriminate.
  - eexists. reflexivity.
Defined.

(** C8 on the maker's init, a minute after the match arrived. *)
Lemma handleInit_waiter_expiry_witness :
  exists params l mt stepInfo coinStr,
    unmarshalInit exWorld (Payload exInitMsg) = Some params
    /\ matches (exSwapper (exNewlyMatched (exNow - Minute)))
         !! matchIDOfBytes (initMatchID params) = Some l
    /\ heap (exSwapper (exNewlyMatched (exNow - Minute))) !! l = Some mt
    /\ (Status (mtMatch mt) = NewlyMatched \/ Status (mtMatch mt) = MakerSwapCast)
    /\ latencyQ (final (handleInit exWorld 10%N exInitMsg
                          (exSwapper (exNewlyMatched (exNow - Minute)))))
       = [mkWaiter (exNow + 2 * Minute) (InitWaiter 10%N exInitMsg params stepInfo coinStr)].
Proof.
  destruct (handleInit_waiter_expiry exWorld
              (exSwapper (exNewlyMatched (exNow - Minute)))
              (final (handleInit exWorld 10%N exInitMsg
                        (exSwapper (exNewlyMatched (exNow - Minute)))))
              10%N exInitMsg)
    as (params & l & mt & stepInfo & coinStr & Hp & Hm & Hl & Hst & Hq).
  - vm_compute. reflexivity.
  - exists params, l, mt, stepInfo, coinStr.
    repeat split; try assumption.
    rewrite Hq. clear Hq.
    injection Hp as <-. vm_compute in Hm. injection Hm as <-.
    vm_compute in Hl. injection Hl as <-. reflexivity.
Defined.

(** C8, as stated, fails for a premature init: while the maker's swap is
    unconfirmed the taker's init is accepted, and its waiter expires
    [txWaitExpiration] from now, far later than the zero time plus the
    broadcast timeout. *)
Lemma premature_init_expiry :
  swapConfirmed (makerStatus (exMakerSwapCast 0)) = 0
  /\ (exists s', handleInit exWorld 20%N exInitMsg (exSwapper (exMakerSwapCast 0))
                 = Ret None s')
  /\ Expiration <$> latencyQ (final (handleInit exWorld 20%N exInitMsg
                                       (exSwapper (exMakerSwapCast 0))))
     = [exNow + 2 * Minute]
  /\ Z.min (exNow + txWaitExpiration (exSwapper (exMakerSwapCast 0)))
       (swapConfirmed (makerStatus (exMakerSwapCast 0))
        + bTimeout (exSwapper (exMakerSwapCast 0)))
     = 12 * Minute.
Proof.
  split; [reflexivity|]. split; [eexists; vm_compute; reflexivity|].
  split; vm_compute; reflexivity.
Qed.

(** C9 with a one-minute broadcast timeout and the initial two minutes. *)
Lemma NewSwapper_clamps_witness :
  txWaitExpiration processStart = 2 * Minute
  /\ txWaitExpiration (final (NewSwapper exWorld exConfig processStart)) = Minute.
Proof.
  split; [reflexivity|].
  apply (proj1 (proj2 (NewSwapper_clamps_txWaitExpiration exWorld exConfig processStart
                         (final (NewSwapper exWorld exConfig processStart))
                         ltac:(vm_compute; reflexivity)))).
  vm_compute. reflexivity.
Defined.

(** C10 at its failing input: the data directory cannot be examined, and the
    constructor panics where the claim has it return an error. *)
Lemma NewSwapper_panics_on_stat_error :
  exists reason,
    NewSwapper (exWorldWith exContract true StatOtherError) exZeroFeeConfig processStart
    = Panic reason (upd_tick S processStart).
Proof.
  apply (proj2 (proj2 (NewSwapper_zero_max_fee_rate
                         (exWorldWith exContract true StatOtherError) exZeroFeeConfig
                         processStart 60%N (mkAsset "eth" 0%N 1%N 60%N)
                         (exWorldWith_fair _ _ _)
                         ltac:(vm_compute; reflexivity) eq_refl))).
  reflexivity.
Defined.
(** ** More on the order-swap tracker *)

Lemma wrap64_small (z : Z) : - 2 ^ 63 <= z < 2 ^ 63 -> wrap64 z = z.
Proof.
  intros Hz. unfold wrap64.
  rewrite Z.mod_small by lia. lia.
Qed.

Lemma last_cons_default {A} (l : list A) : forall x d d',
  List.last (x :: l) d = List.last (x :: l) d'.
Proof.
  induction l as [|y l IH]; intros x d d'; [done|].
  change (List.last (y :: l) d = List.last (y :: l) d'). apply IH.
Qed.

(** Counting up: [incActiveSwapCount] on an entry that has not failed. *)
Lemma incs_run ord (bs : list bool) : forall (s0 : orderMatches) (k : Z) (b0 : bool),
  1 <= k -> k + Z.of_nat (length bs) < 2 ^ 63 ->
  runOps (map (OpInc ord) bs) (<[ID ord := mkStat k b0 false]> s0)
  = (repeat None (length bs),
     <[ID ord := mkStat (k + Z.of_nat (length bs)) (List.last bs b0) false]> s0).
Proof.
  induction bs as [|b bs IH]; intros s0 k b0 Hk Hbound.
  - simpl. by rewrite Z.add_0_r.
  - cbn [map runOps runOp fst snd length repeat].
    unfold incActiveSwapCount at 1 2. rewrite lookup_insert_eq. cbn [SwapCount HasFailed].
    rewrite insert_insert_eq.
    cbn [length] in Hbound.
    rewrite wrap64_small by lia.
    rewrite IH by lia.
    cbn [fst snd]. f_equal. f_equal. f_equal.
    + lia.
    + destruct bs as [|b1 bs]; [reflexivity|].
      apply (last_cons_default bs b1 b b0).
Qed.

(** Counting down again, without a failure. *)
Lemma dec_step ord (b : bool) (k : Z) (s0 : orderMatches) :
  2 <= k < 2 ^ 63 ->
  decrementActiveSwapCount ord false (<[ID ord := mkStat k b false]> s0)
  = (false, <[ID ord := mkStat (k - 1) b false]> s0).
Proof.
  intros Hk. unfold decrementActiveSwapCount. rewrite lookup_insert_eq. simpl.
  rewrite wrap64_small by lia.
  destruct (Z.eqb_spec (k - 1) 0) as [Hz|Hz]; [lia|]. simpl.
  by rewrite insert_insert_eq.
Qed.

Lemma decs_run ord (b : bool) : forall (n : nat) (s0 : orderMatches),
  s0 !! ID ord = None -> Z.of_nat n + 1 < 2 ^ 63 ->
  runOps (repeat (OpDec ord false) (S n)) (<[ID ord := mkStat (Z.of_nat (S n)) b false]> s0)
  = (repeat (Some false) n ++ [Some b], s0).
Proof.
  induction n as [|n IH]; intros s0 Hs0 Hbound.
  - simpl. unfold decrementActiveSwapCount. rewrite lookup_insert_eq. simpl.
    rewrite delete_insert_id by done.
    by destruct b.
  - change (repeat (OpDec ord false) (S (S n)))
      with (OpDec ord false :: repeat (OpDec ord false) (S n)).
    cbn [runOps runOp]. rewrite dec_step by lia. cbn [fst snd].
    replace (Z.of_nat (S (S n)) - 1) with (Z.of_nat (S n)) by lia.
    rewrite IH by (done || lia). reflexivity.
Qed.

(** X1. Swaps counted in and out again.  An order the tracker does not know is
    matched [length bs + 1] times and each of the swaps succeeds: every
    decrement but the last returns false, the last returns the off-book flag
    of the last match, and the tracker is back where it was. *)
Theorem balanced_swaps_round_trip (ord : Order) (bs : list bool) (b : bool)
    (s : orderMatches) :
  s !! ID ord = None ->
  Z.of_nat (length bs) + 1 < 2 ^ 63 ->
  runOps (map (OpInc ord) (bs ++ [b]) ++ repeat (OpDec ord false) (S (length bs))) s
  = (repeat None (S (length bs)) ++ repeat (Some false) (length bs) ++ [Some b], s).
Proof.
  intros Hs Hbound.
  assert (Happ : forall ops1 ops2 (s1 : orderMatches),
            runOps (ops1 ++ ops2) s1
            = (fst (runOps ops1 s1) ++ fst (runOps ops2 (snd (runOps ops1 s1))),
               snd (runOps ops2 (snd (runOps ops1 s1))))).
  { induction ops1 as [|op ops1 IH]; intros ops2 s1; simpl.
    - by destruct (runOps ops2 s1).
    - rewrite IH. reflexivity. }
  rewrite Happ.
  assert (Hincs : runOps (map (OpInc ord) (bs ++ [b])) s
                  = (repeat None (S (length bs)),
                     <[ID ord := mkStat (Z.of_nat (S (length bs))) b false]> s)).
  { destruct bs as [|b1 bs].
    - simpl. unfold incActiveSwapCount. by rewrite Hs.
    - cbn [app map runOps runOp fst snd].
      unfold incActiveSwapCount at 1 2. rewrite Hs.
      rewrite incs_run; [|lia|rewrite length_app; simpl in *; lia].
      cbn [fst snd]. rewrite length_app. cbn [length].
      replace (length bs + 1)%nat with (S (length bs)) by lia.
      rewrite last_last. f_equal. f_equal. f_equal. lia. }
  rewrite Hincs. cbn [fst snd].
  rewrite decs_run by done. reflexivity.
Qed.

Lemma balanced_swaps_witness :
  runOps [OpInc (anOrder 1%N) false; OpInc (anOrder 1%N) true;
          OpDec (anOrder 1%N) false; OpDec (anOrder 1%N) false] ∅
  = ([None; None; Some false; Some true], ∅).
Proof.
  apply (balanced_swaps_round_trip (anOrder 1%N) [false] true ∅).
  - reflexivity.
  - simpl. lia.
Defined.

(** An entry flagged as failed, or none at all. *)
Definition failedOrGone (oid : OrderID) (s : orderMatches) : Prop :=
  match s !! oid with
  | Some stat => HasFailed stat = true
  | None => True
  end.

Lemma failed_entry_no_true oid ops : forall s : orderMatches,
  failedOrGone oid s ->
  (trackedTrueReturns oid ops s <= entriesCreated oid ops s)%nat.
Proof.
  induction ops as [|op rest IH]; intros s Hs; simpl; [lia|].
  destruct (decide (opOrder op = oid)) as [Heq|Hne].
  - destruct op as [ord b | ord b | ord]; simpl in Heq; subst oid;
      cbn [runOp snd] in *; unfold failedOrGone in *.
    + destruct (decide (ID ord = ID ord)); [|done].
      destruct (s !! ID ord) as [stat|] eqn:Hst.
      * assert (Hnext : failedOrGone (ID ord) (incActiveSwapCount ord b s)).
        { unfold failedOrGone, incActiveSwapCount. rewrite Hst, lookup_insert_eq. done. }
        specialize (IH _ Hnext). lia.
      * pose proof (trackedTrue_le_created (ID ord) rest (incActiveSwapCount ord b s)) as Hle.
        destruct (incActiveSwapCount_tracked ord b s) as [st Hin]. rewrite Hin in Hle. lia.
    + destruct (decide (ID ord = ID ord)); [|done].
      destruct (s !! ID ord) as [stat|] eqn:Hst.
      * assert (Hdec : fst (decrementActiveSwapCount ord b s) = false
                       /\ failedOrGone (ID ord) (snd (decrementActiveSwapCount ord b s))).
        { unfold failedOrGone, decrementActiveSwapCount. rewrite Hst, Hs. simpl.
          destruct (negb (wrap64 (SwapCount stat - 1) =? 0)); simpl.
          - by rewrite lookup_insert_eq.
          - rewrite andb_false_r. split; [done|].
            destruct (OffBook stat); [by rewrite lookup_delete_eq | by rewrite lookup_insert_eq]. }
        destruct Hdec as [-> Hnext]. specialize (IH _ Hnext). lia.
      * assert (Hsame : snd (decrementActiveSwapCount ord b s) = s).
        { unfold decrementActiveSwapCount. by rewrite Hst. }
        rewrite Hsame. assert (Hnext : failedOrGone (ID ord) s).
        { unfold failedOrGone. by rewrite Hst. }
        specialize (IH _ Hnext). destruct (fst _); lia.
    + assert (Hnext : failedOrGone (ID ord) (canceled ord s)).
      { unfold failedOrGone, canceled. destruct (s !! ID ord) eqn:Hst.
        - by rewrite lookup_insert_eq.
        - by rewrite Hst. }
      specialize (IH _ Hnext). lia.
  - assert (Hnext : failedOrGone oid (snd (runOp op s))).
    { unfold failedOrGone. by rewrite (runOp_other oid op s Hne). }
    specialize (IH _ Hnext).
    destruct op as [ord b | ord b | ord]; simpl in Hne;
      try destruct (decide (ID ord = oid)); try done; cbn [runOp snd] in *; lia.
Qed.

(** X2. Once an order's entry is flagged as failed, by [canceled] or by a failed
    swap, no decrement reports the order complete through that entry: in any
    sequence of operations that follows, the true returns the order gets while
    tracked number at most the entries created anew for it.  [canceled] flags
    a tracked order as failed and off-book, and makes no entry for an
    untracked one. *)
Theorem failed_order_never_completes :
  (forall oid ops (s : orderMatches) stat,
     s !! oid = Some stat -> HasFailed stat = true ->
     (trackedTrueReturns oid ops s <= entriesCreated oid ops s)%nat)
  /\ (forall ord (s : orderMatches) stat,
        s !! ID ord = Some stat ->
        canceled ord s !! ID ord = Some (mkStat (SwapCount stat) true true))
  /\ (forall ord (s : orderMatches), s !! ID ord = None -> canceled ord s = s).
Proof.
  split; [|split].
  - intros oid ops s stat Hs Hf. apply failed_entry_no_true.
    unfold failedOrGone. by rewrite Hs.
  - intros ord s stat Hs. unfold canceled. by rewrite Hs, lookup_insert_eq.
  - intros ord s Hs. unfold canceled. by rewrite Hs.
Qed.
(** ** The two indexes of the match registry *)

Definition makerUser (mt : matchTracker) : AccountID := ordUser (loData (Maker (mtMatch mt))).
Definition takerUser (mt : matchTracker) : AccountID := User (Taker (mtMatch mt)).

(** The tracker the user index holds for [user] under [mid]. *)
Definition userIndex (s : Swapper) (user : AccountID) (mid : MatchID) : option loc :=
  userMatches s !! user ≫= (.!! mid).

(** The registry is consistent: every registered tracker carries the id it is
    registered under; the user index holds a tracker for a user exactly when
    the tracker is registered and the user is its maker or its taker; and no
    user has an empty map. *)
Definition registryConsistent (s : Swapper) : Prop :=
  registryWf s
  /\ (forall user mid l,
        userIndex s user mid = Some l <->
        matches s !! mid = Some l
        /\ exists mt, heap s !! l = Some mt /\ (user = makerUser mt \/ user = takerUser mt))
  /\ (forall user um, userMatches s !! user = Some um -> um ≠ ∅).

Lemma addUserMatches_lookup mk tk mid l (um : gmap AccountID (gmap MatchID loc)) u :
  addUserMatches [mk; tk] (bool_decide (mk = tk)) mid l um !! u
  = if bool_decide (u = mk \/ u = tk)
    then Some (<[mid := l]> (default ∅ (um !! u)))
    else um !! u.
Proof.
  assert (Hone : forall (m : gmap AccountID (gmap MatchID loc)) (v : AccountID),
            match m !! v with
            | None => <[v := {[mid := l]}]> m
            | Some userMatches => <[v := <[mid := l]> userMatches]> m
            end = <[v := <[mid := l]> (default ∅ (m !! v))]> m).
  { intros m v. destruct (m !! v); simpl; [done|]. by rewrite insert_empty. }
  destruct (decide (mk = tk)) as [->|Hne].
  - rewrite bool_decide_eq_true_2 by done. cbn [addUserMatches]. rewrite Hone.
    destruct (decide (u = tk)) as [->|Hu].
    + rewrite lookup_insert_eq, bool_decide_eq_true_2 by tauto. done.
    + rewrite lookup_insert_ne by done. rewrite bool_decide_eq_false_2 by tauto. done.
  - rewrite bool_decide_eq_false_2 by done. cbn [addUserMatches]. rewrite !Hone.
    destruct (decide (u = tk)) as [->|Hut].
    + rewrite lookup_insert_eq, bool_decide_eq_true_2 by tauto.
      by rewrite lookup_insert_ne by done.
    + rewrite lookup_insert_ne by done.
      destruct (decide (u = mk)) as [->|Hum].
      * rewrite lookup_insert_eq, bool_decide_eq_true_2 by tauto. done.
      * rewrite lookup_insert_ne by done. rewrite bool_decide_eq_false_2 by tauto. done.
Qed.

(** What [deleteMatch] leaves of a user's map. *)
Definition withoutMatch (mid : MatchID) (m : gmap MatchID loc) : option (gmap MatchID loc) :=
  if bool_decide (delete mid m = ∅) then None else Some (delete mid m).

(** One round of the loop of [deleteMatch]. *)
Definition dropUser (mid : MatchID) (v : AccountID)
    (m : gmap AccountID (gmap MatchID loc)) : gmap AccountID (gmap MatchID loc) :=
  match m !! v with
  | None => m
  | Some uM =>
      if bool_decide (size (delete mid uM) = 0%nat)
      then delete v m
      else <[v := delete mid uM]> m
  end.

Lemma dropUser_lookup mid v (m : gmap AccountID (gmap MatchID loc)) (w : AccountID) :
  dropUser mid v m !! w
  = if bool_decide (w = v) then m !! w ≫= withoutMatch mid else m !! w.
Proof.
  assert (Hsize : forall m : gmap MatchID loc,
            bool_decide (size (delete mid m) = 0%nat) = bool_decide (delete mid m = ∅)).
  { intros m'. apply bool_decide_ext. apply map_size_empty_iff. }
  unfold dropUser, withoutMatch. destruct (decide (w = v)) as [->|Hw].
  - rewrite bool_decide_eq_true_2 by done.
    destruct (m !! v) as [uM|] eqn:Hv; simpl; [|by rewrite Hv].
    rewrite Hsize. destruct (bool_decide (delete mid uM = ∅)).
    + by rewrite lookup_delete_eq.
    + by rewrite lookup_insert_eq.
  - rewrite bool_decide_eq_false_2 by done.
    destruct (m !! v) as [uM|] eqn:Hv; simpl; [|done].
    destruct (bool_decide (size (delete mid uM) = 0%nat)).
    + by rewrite lookup_delete_ne.
    + by rewrite lookup_insert_ne.
Qed.

Lemma deleteUserMatches_rounds mk tk mid (um : gmap AccountID (gmap MatchID loc)) :
  deleteUserMatches [mk; tk] (bool_decide (mk = tk)) mid um
  = if bool_decide (mk = tk) then dropUser mid mk um
    else dropUser mid tk (dropUser mid mk um).
Proof.
  destruct (decide (mk = tk)) as [->|Hne].
  - rewrite bool_decide_eq_true_2 by done. unfold dropUser. cbn [deleteUserMatches].
    destruct (um !! tk) as [uM|] eqn:Htk; [done|]. cbn [deleteUserMatches]. by rewrite ?Htk.
  - rewrite bool_decide_eq_false_2 by done. unfold dropUser. cbn [deleteUserMatches].
    destruct (um !! mk) as [uM|] eqn:Hmk; cbn [deleteUserMatches]; reflexivity.
Qed.

Lemma deleteUserMatches_lookup mk tk mid (um : gmap AccountID (gmap MatchID loc)) u :
  deleteUserMatches [mk; tk] (bool_decide (mk = tk)) mid um !! u
  = if bool_decide (u = mk \/ u = tk)
    then um !! u ≫= withoutMatch mid
    else um !! u.
Proof.
  rewrite deleteUserMatches_rounds.
  destruct (decide (mk = tk)) as [->|Hne].
  - rewrite bool_decide_eq_true_2 by done. rewrite dropUser_lookup.
    destruct (decide (u = tk)) as [->|Hu].
    + by rewrite !bool_decide_eq_true_2 by tauto.
    + by rewrite !bool_decide_eq_false_2 by tauto.
  - rewrite bool_decide_eq_false_2 by done. rewrite !dropUser_lookup.
    destruct (decide (u = tk)) as [->|Hut].
    + rewrite bool_decide_eq_true_2 by done.
      rewrite (bool_decide_eq_false_2 (tk = mk)) by done.
      by rewrite bool_decide_eq_true_2 by tauto.
    + rewrite (bool_decide_eq_false_2 (u = tk)) by done.
      destruct (decide (u = mk)) as [->|Hum].
      * by rewrite !bool_decide_eq_true_2 by tauto.
      * by rewrite !bool_decide_eq_false_2 by tauto.
Qed.

Lemma upd_userMatches_get f (s : Swapper) : userMatches (upd_userMatches f s) = f (userMatches s).
Proof. reflexivity. Qed.
Lemma upd_userMatches_matches f (s : Swapper) : matches (upd_userMatches f s) = matches s.
Proof. reflexivity. Qed.
Lemma upd_userMatches_heap f (s : Swapper) : heap (upd_userMatches f s) = heap s.
Proof. reflexivity. Qed.
Lemma upd_matches_get f (s : Swapper) : matches (upd_matches f s) = f (matches s).
Proof. reflexivity. Qed.
Lemma upd_matches_userMatches f (s : Swapper) : userMatches (upd_matches f s) = userMatches s.
Proof. reflexivity. Qed.
Lemma upd_matches_heap f (s : Swapper) : heap (upd_matches f s) = heap s.
Proof. reflexivity. Qed.

Ltac reg_simpl :=
  rewrite ?upd_userMatches_get, ?upd_userMatches_matches, ?upd_userMatches_heap,
    ?upd_matches_get, ?upd_matches_userMatches, ?upd_matches_heap.

Lemma addMatch_runs (s : Swapper) l mt :
  heap s !! l = Some mt ->
  addMatch l s
  = Ret tt (upd_userMatches
              (addUserMatches [makerUser mt; takerUser mt]
                 (bool_decide (makerUser mt = takerUser mt)) (matchID (mtMatch mt)) l)
              (upd_matches (insert (matchID (mtMatch mt)) l) s)).
Proof. intros Hl. unfold addMatch. mrun. rewrite Hl. reflexivity. Qed.

Lemma deleteMatch_runs (s : Swapper) l mt :
  heap s !! l = Some mt ->
  deleteMatch l s
  = Ret tt (upd_userMatches
              (deleteUserMatches [makerUser mt; takerUser mt]
                 (bool_decide (makerUser mt = takerUser mt)) (matchID (mtMatch mt)))
              (upd_matches (delete (matchID (mtMatch mt))) s)).
Proof. intros Hl. unfold deleteMatch. mrun. rewrite Hl. reflexivity. Qed.

Lemma addMatch_consistent (s : Swapper) (l : loc) (mt : matchTracker) :
  registryConsistent s ->
  heap s !! l = Some mt ->
  matches s !! matchID (mtMatch mt) = None ->
  exists s', addMatch l s = Ret tt s'
             /\ registryConsistent s'
             /\ matches s' = <[matchID (mtMatch mt) := l]> (matches s)
             /\ userIndex s' (makerUser mt) (matchID (mtMatch mt)) = Some l
             /\ userIndex s' (takerUser mt) (matchID (mtMatch mt)) = Some l
             /\ heap s' = heap s.
Proof.
  intros (Hwf & Hidx & Hne) Hl Hfresh.
  eexists. split; [by apply addMatch_runs|].
  set (mid := matchID (mtMatch mt)) in *.
  assert (Hui : forall u mid',
            userIndex (upd_userMatches
                         (addUserMatches [makerUser mt; takerUser mt]
                            (bool_decide (makerUser mt = takerUser mt)) mid l)
                         (upd_matches (insert mid l) s)) u mid'
            = if bool_decide (u = makerUser mt \/ u = takerUser mt)
              then (if bool_decide (mid' = mid) then Some l else userIndex s u mid')
              else userIndex s u mid').
  { intros u mid'. unfold userIndex. reg_simpl. rewrite addUserMatches_lookup.
    destruct (bool_decide (u = makerUser mt \/ u = takerUser mt)); [|done]. simpl.
    destruct (decide (mid' = mid)) as [->|Hm].
    - by rewrite bool_decide_eq_true_2, lookup_insert_eq by done.
    - rewrite bool_decide_eq_false_2, lookup_insert_ne by done.
      destruct (userMatches s !! u); simpl; [done | apply lookup_empty]. }
  split; [|split; [reflexivity|split; [|split; [|reflexivity]]]].
  - split; [|split].
    + intros mid' l'. reg_simpl. destruct (decide (mid' = mid)) as [->|Hm].
      * rewrite lookup_insert_eq. intros [= <-]. by exists mt.
      * rewrite lookup_insert_ne by done. apply Hwf.
    + intros u mid' l'. rewrite Hui. reg_simpl.
      destruct (decide (mid' = mid)) as [->|Hm].
      * rewrite lookup_insert_eq, (bool_decide_eq_true_2 (mid = mid)) by done.
        destruct (decide (u = makerUser mt \/ u = takerUser mt)) as [Hu|Hu].
        -- rewrite bool_decide_eq_true_2 by done. split.
           ++ intros [= <-]. split; [done|]. by exists mt.
           ++ by intros [[= <-] _].
        -- rewrite bool_decide_eq_false_2 by done. rewrite Hidx, Hfresh. split.
           ++ by intros [? _].
           ++ intros [[= <-] (mt' & Hl' & Hu')]. rewrite Hl in Hl'. by simplify_eq.
      * rewrite lookup_insert_ne, (bool_decide_eq_false_2 (mid' = mid)) by done.
        destruct (bool_decide (u = makerUser mt \/ u = takerUser mt)); apply Hidx.
    + intros u um. reg_simpl. rewrite addUserMatches_lookup.
      destruct (bool_decide (u = makerUser mt \/ u = takerUser mt)).
      * intros [= <-]. apply insert_non_empty.
      * apply Hne.
  - rewrite Hui. by rewrite !bool_decide_eq_true_2 by tauto.
  - rewrite Hui. by rewrite !bool_decide_eq_true_2 by tauto.
Qed.

Lemma deleteMatch_consistent (s : Swapper) (mid : MatchID) (l : loc) :
  registryConsistent s ->
  matches s !! mid = Some l ->
  exists s', deleteMatch l s = Ret tt s'
             /\ registryConsistent s'
             /\ matches s' = delete mid (matches s)
             /\ (forall user, userIndex s' user mid = None)
             /\ heap s' = heap s.
Proof.
  intros (Hwf & Hidx & Hne) Hm.
  destruct (Hwf mid l Hm) as (mt & Hl & Hid).
  eexists. split; [by apply deleteMatch_runs|]. rewrite Hid.
  assert (Hui : forall u mid',
            userIndex (upd_userMatches
                         (deleteUserMatches [makerUser mt; takerUser mt]
                            (bool_decide (makerUser mt = takerUser mt)) mid)
                         (upd_matches (delete mid) s)) u mid'
            = if bool_decide (u = makerUser mt \/ u = takerUser mt)
              then (if bool_decide (mid' = mid) then None else userIndex s u mid')
              else userIndex s u mid').
  { intros u mid'. unfold userIndex. reg_simpl. rewrite deleteUserMatches_lookup.
    destruct (bool_decide (u = makerUser mt \/ u = takerUser mt)); [|done].
    destruct (userMatches s !! u) as [um|]; simpl; [|by destruct (bool_decide _)].
    unfold withoutMatch.
    destruct (decide (delete mid um = ∅)) as [He|He].
    - rewrite bool_decide_eq_true_2 by done. simpl.
      destruct (decide (mid' = mid)) as [->|Hmm].
      + by rewrite bool_decide_eq_true_2.
      + rewrite bool_decide_eq_false_2 by done.
        rewrite <- (lookup_delete_ne um mid mid') by done. by rewrite He, lookup_empty.
    - rewrite bool_decide_eq_false_2 by done. simpl.
      destruct (decide (mid' = mid)) as [->|Hmm].
      + by rewrite bool_decide_eq_true_2, lookup_delete_eq.
      + by rewrite bool_decide_eq_false_2, lookup_delete_ne by done. }
  split; [|split; [reflexivity|split; [|reflexivity]]].
  - split; [|split].
    + intros mid' l'. reg_simpl. destruct (decide (mid' = mid)) as [->|Hmm].
      * by rewrite lookup_delete_eq.
      * rewrite lookup_delete_ne by done. apply Hwf.
    + intros u mid' l'. rewrite Hui. reg_simpl.
      destruct (decide (mid' = mid)) as [->|Hmm].
      * rewrite lookup_delete_eq, (bool_decide_eq_true_2 (mid = mid)) by done.
        destruct (decide (u = makerUser mt \/ u = takerUser mt)) as [Hu|Hu].
        -- rewrite bool_decide_eq_true_2 by done. split; [done | by intros [? _]].
        -- rewrite bool_decide_eq_false_2 by done. rewrite Hidx, Hm. split.
           ++ intros [[= <-] (mt' & Hl' & Hu')]. rewrite Hl in Hl'. by simplify_eq.
           ++ by intros [? _].
      * rewrite lookup_delete_ne, (bool_decide_eq_false_2 (mid' = mid)) by done.
        destruct (bool_decide (u = makerUser mt \/ u = takerUser mt)); apply Hidx.
    + intros u um. reg_simpl. rewrite deleteUserMatches_lookup.
      destruct (bool_decide (u = makerUser mt \/ u = takerUser mt)); [|apply Hne].
      destruct (userMatches s !! u) as [um0|]; simpl; [|done]. unfold withoutMatch.
      destruct (decide (delete mid um0 = ∅)) as [He|He].
      * by rewrite bool_decide_eq_true_2.
      * rewrite bool_decide_eq_false_2 by done. by intros [= <-].
  - intros u. rewrite Hui. rewrite (bool_decide_eq_true_2 (mid = mid)) by done.
    destruct (decide (u = makerUser mt \/ u = takerUser mt)) as [Hu|Hu].
    + by rewrite bool_decide_eq_true_2.
    + rewrite bool_decide_eq_false_2 by done.
      destruct (userIndex s u mid) as [l'|] eqn:Hx; [|done].
      apply Hidx in Hx as [Hm' (mt' & Hl' & Hu')]. rewrite Hm in Hm'. by simplify_eq.
Qed.

(** X3. [addMatch] of a tracker whose id is not registered keeps the registry
    consistent, and registers the tracker under its id in the registry and in
    the maps of its maker and of its taker. *)
Theorem addMatch_keeps_consistent (s : Swapper) (l : loc) (mt : matchTracker) :
  registryConsistent s ->
  heap s !! l = Some mt ->
  matches s !! matchID (mtMatch mt) = None ->
  exists s', addMatch l s = Ret tt s'
             /\ registryConsistent s'
             /\ matches s' = <[matchID (mtMatch mt) := l]> (matches s)
             /\ userIndex s' (makerUser mt) (matchID (mtMatch mt)) = Some l
             /\ userIndex s' (takerUser mt) (matchID (mtMatch mt)) = Some l
             /\ heap s' = heap s.
Proof. apply addMatch_consistent. Qed.

(** X4. [deleteMatch] of a registered tracker keeps the registry consistent, and
    removes the match from the registry and from every user's map. *)
Theorem deleteMatch_keeps_consistent (s : Swapper) (mid : MatchID) (l : loc) :
  registryConsistent s ->
  matches s !! mid = Some l ->
  exists s', deleteMatch l s = Ret tt s'
             /\ registryConsistent s'
             /\ matches s' = delete mid (matches s)
             /\ (forall user, userIndex s' user mid = None)
             /\ heap s' = heap s.
Proof. apply deleteMatch_consistent. Qed.

(** X5. Registering a match and unregistering it again leaves the swapper as it
    was. *)
Theorem addMatch_deleteMatch_round_trip (s : Swapper) (l : loc) (mt : matchTracker) :
  registryConsistent s ->
  heap s !! l = Some mt ->
  matches s !! matchID (mtMatch mt) = None ->
  (addMatch l ;;; deleteMatch l) s = Ret tt s.
Proof.
  intros (Hwf & Hidx & Hne) Hl Hfresh. unfold bind.
  rewrite (addMatch_runs s l mt Hl).
  rewrite (deleteMatch_runs _ l mt) by done.
  f_equal. destruct s as [dd cs ms um os bt ltt ltm lq st lw hp tx tr tk].
  unfold upd_userMatches, upd_matches.
  cbn [dataDir coins matches userMatches orders bTimeout lockTimeTaker lockTimeMaker
       latencyQ stop liveWaiters heap txWaitExpiration trace tick] in *.
  f_equal.
  - by apply delete_insert_id.
  - apply map_eq. intros u.
    rewrite deleteUserMatches_lookup, addUserMatches_lookup.
    destruct (bool_decide (u = makerUser mt \/ u = takerUser mt)); [|done]. simpl.
    unfold withoutMatch.
    destruct (um !! u) as [m|] eqn:Hu; simpl.
    + assert (Hmid : m !! matchID (mtMatch mt) = None).
      { destruct (m !! matchID (mtMatch mt)) as [l'|] eqn:Hx; [|done].
        assert (Hi : userIndex (mkSwapper dd cs ms um os bt ltt ltm lq st lw hp tx tr tk)
                       u (matchID (mtMatch mt)) = Some l').
        { unfold userIndex. cbn [userMatches]. rewrite Hu. done. }
        apply Hidx in Hi as [Hm' _]. cbn [matches] in Hm'. congruence. }
      rewrite delete_insert_id by done.
      rewrite bool_decide_eq_false_2; [done|]. by eapply Hne.
    + rewrite delete_insert_id by apply lookup_empty.
      by rewrite bool_decide_eq_true_2.
Qed.
(** ** The amount a user has in active swaps *)

Definition onMarket (base quote : AssetID) (mt : matchTracker) : bool :=
  bool_decide (BaseAsset (loData (Maker (mtMatch mt))) = base)
  && bool_decide (QuoteAsset (loData (Maker (mtMatch mt))) = quote).

(** The quantities of the matches of a user's map that are on a market. *)
Definition marketQuantities (h : gmap loc matchTracker) (base quote : AssetID)
    (ms : list (MatchID * loc)) : list N :=
  omap (fun e => h !! snd e ≫= fun mt =>
                 if onMarket base quote mt then Some (Quantity (mtMatch mt)) else None) ms.

Definition sumN (l : list N) : N := foldr N.add 0%N l.

Lemma sumN_Permutation l1 l2 : l1 ≡ₚ l2 -> sumN l1 = sumN l2.
Proof.
  induction 1 as [|x l1 l2 _ IH|x y l|l1 l2 l3 _ IH1 _ IH2]; simpl; [done|..].
  - by rewrite IH.
  - lia.
  - congruence.
Qed.

Lemma wrapU64_add_l a b : wrapU64 (wrapU64 a + b) = wrapU64 (a + b).
Proof. unfold wrapU64. by rewrite N.Div0.add_mod_idemp_l. Qed.

(** Rewrites the scrutinee of a [match] with an equation that holds of it up
    to the unfolding of type abbreviations. *)
Ltac rew_scrutinee H :=
  match type of H with
  | ?a = _ =>
      match goal with
      | |- context [match ?x with _ => _ end] => unify x a; change x with a; rewrite H
      end
  end.

Section SwappingAmount.

Variable W : World.

(** The loop of [UserSwappingAmt] over the entries [ms]. *)
Lemma swapping_loop (s : Swapper) base quote : forall (ms : list (MatchID * loc)) a c,
  Forall (fun e => is_Some (heap s !! snd e)) ms ->
  forRange ms
    (fun e acc =>
       mt <- deref (snd e) ;;
       let maker := loData (Maker (mtMatch mt)) in
       if bool_decide (BaseAsset maker = base) && bool_decide (QuoteAsset maker = quote)
       then ret (wrapU64 (fst acc + Quantity (mtMatch mt)), wrapU64 (snd acc + 1))
       else ret acc)
    (wrapU64 a, wrapU64 c) s
  = Ret (wrapU64 (a + sumN (marketQuantities (heap s) base quote ms)),
         wrapU64 (c + N.of_nat (length (marketQuantities (heap s) base quote ms)))) s.
Proof.
  induction ms as [|[mid l] ms IH]; intros a c Hms.
  - simpl. by rewrite !N.add_0_r.
  - apply Forall_cons in Hms as [[mt Hl] Hms]. simpl in Hl.
    cbn [forRange]. unfold bind at 1. unfold bind at 1. unfold deref at 1.
    unfold bind at 1. unfold get at 1. cbn [snd]. rewrite Hl. unfold ret at 1.
    unfold marketQuantities. cbn [omap list_omap snd]. rewrite Hl. cbn [mbind option_bind].
    cbv zeta.
    change (bool_decide (BaseAsset (loData (Maker (mtMatch mt))) = base)
            && bool_decide (QuoteAsset (loData (Maker (mtMatch mt))) = quote))
      with (onMarket base quote mt).
    fold (marketQuantities (heap s) base quote ms).
    destruct (onMarket base quote mt).
    + unfold ret at 1. cbn [fst snd]. rewrite !wrapU64_add_l.
      rewrite IH by done. cbn [sumN foldr length].
      fold (sumN (marketQuantities (heap s) base quote ms)).
      rewrite Nat2N.inj_succ. f_equal. f_equal; f_equal; lia.
    + unfold ret at 1. by rewrite IH.
Qed.

Lemma UserSwappingAmt_sum (s : Swapper) (user : AccountID) (base quote : AssetID) :
  fairRange W ->
  (forall um mid l, userMatches s !! user = Some um -> um !! mid = Some l ->
                    is_Some (heap s !! l)) ->
  match userMatches s !! user with
  | None => UserSwappingAmt W user base quote s = Ret (0%N, 0%N) s
  | Some um =>
      let qs := marketQuantities (heap s) base quote (map_to_list um) in
      UserSwappingAmt W user base quote s
      = Ret (wrapU64 (sumN qs), wrapU64 (N.of_nat (length qs))) (upd_tick S s)
  end.
Proof.
  intros Hfair Hheap.
  destruct (userMatches s !! user) as [um|] eqn:Hum;
    [|unfold UserSwappingAmt; unfold bind at 1; unfold get at 1; cbn beta iota;
      by rew_scrutinee Hum].
  cbv zeta. unfold UserSwappingAmt. unfold bind at 1. unfold get at 1.
  cbn beta iota. rew_scrutinee Hum. unfold bind at 1. unfold rangeMap, ask.
  change (0%N, 0%N) with (wrapU64 0, wrapU64 0).
  rewrite (swapping_loop (upd_tick S s)).
  - cbn [heap upd_tick]. rewrite !N.add_0_l.
    match goal with
    | |- context [sumN (marketQuantities _ _ _ ?ms)] =>
        assert (Hperm : marketQuantities (heap s) base quote ms
                        ≡ₚ marketQuantities (heap s) base quote (map_to_list um))
          by (unfold marketQuantities; by rewrite (Hfair _ (tick s)))
    end.
    by rewrite (sumN_Permutation _ _ Hperm), (Permutation_length Hperm).
  - apply Forall_forall. intros [mid l] Hin. rewrite (Hfair _ (tick s)) in Hin.
    apply elem_of_map_to_list in Hin. cbn [heap upd_tick snd]. by eapply Hheap.
Qed.

(** X6. [UserSwappingAmt] adds up, modulo [2^64], the quantities of the user's
    matches whose maker order is on the market, and counts them; the result
    does not depend on the order in which the user's map is visited.  A user
    without a map gets zero and zero, and no map is visited. *)
Theorem UserSwappingAmt_totals (s : Swapper) (user : AccountID) (base quote : AssetID) :
  fairRange W ->
  (forall um mid l, userMatches s !! user = Some um -> um !! mid = Some l ->
                    is_Some (heap s !! l)) ->
  match userMatches s !! user with
  | None => UserSwappingAmt W user base quote s = Ret (0%N, 0%N) s
  | Some um =>
      let qs := marketQuantities (heap s) base quote (map_to_list um) in
      UserSwappingAmt W user base quote s
      = Ret (wrapU64 (sumN qs), wrapU64 (N.of_nat (length qs))) (upd_tick S s)
  end.
Proof. apply UserSwappingAmt_sum. Qed.

(** The share of a tracker in the totals of a market. *)
Definition marketShare (base quote : AssetID) (mt : matchTracker) : N * N :=
  if onMarket base quote mt then (Quantity (mtMatch mt), 1%N) else (0%N, 0%N).

(** X7. A match just registered counts towards the swapping amount of its maker
    and of its taker: on every market, [UserSwappingAmt] after [addMatch] is
    what it was before plus the match's share, modulo [2^64]. *)
Theorem addMatch_counts_towards_amount (s : Swapper) (l : loc) (mt : matchTracker)
    (user : AccountID) (base quote : AssetID) :
  fairRange W ->
  registryConsistent s ->
  heap s !! l = Some mt ->
  matches s !! matchID (mtMatch mt) = None ->
  user = makerUser mt \/ user = takerUser mt ->
  exists amt count s1 s' s2,
    UserSwappingAmt W user base quote s = Ret (amt, count) s1
    /\ addMatch l s = Ret tt s'
    /\ UserSwappingAmt W user base quote s'
       = Ret (wrapU64 (amt + fst (marketShare base quote mt)),
              wrapU64 (count + snd (marketShare base quote mt))) s2.
Proof.
  intros Hfair Hcons Hl Hfresh Huser.
  destruct (addMatch_consistent s l mt Hcons Hl Hfresh)
    as (s' & Hadd & Hcons' & Hm' & _ & _ & Hh').
  destruct Hcons as (Hwf & Hidx & Hne). destruct Hcons' as (Hwf' & Hidx' & Hne').
  assert (Hheap : forall s0, (forall u mid l0, userIndex s0 u mid = Some l0 <->
                      matches s0 !! mid = Some l0
                      /\ exists mt0, heap s0 !! l0 = Some mt0
                                     /\ (u = makerUser mt0 \/ u = takerUser mt0)) ->
            forall um mid l0, userMatches s0 !! user = Some um -> um !! mid = Some l0 ->
                              is_Some (heap s0 !! l0)).
  { intros s0 Hi um mid l0 Hum Hmid.
    assert (Hx : userIndex s0 user mid = Some l0) by (unfold userIndex; by rewrite Hum).
    apply Hi in Hx as [_ (mt0 & Hl0 & _)]. eauto. }
  pose proof (UserSwappingAmt_sum s user base quote Hfair (Hheap s Hidx)) as Hbefore.
  pose proof (UserSwappingAmt_sum s' user base quote Hfair (Hheap s' Hidx')) as Hafter.
  assert (Hum' : userMatches s' !! user
                 = Some (<[matchID (mtMatch mt) := l]> (default ∅ (userMatches s !! user)))).
  { assert (Hs' : s' = upd_userMatches
                         (addUserMatches [makerUser mt; takerUser mt]
                            (bool_decide (makerUser mt = takerUser mt))
                            (matchID (mtMatch mt)) l)
                         (upd_matches (insert (matchID (mtMatch mt)) l) s))
      by (pose proof (addMatch_runs s l mt Hl); congruence).
    rewrite Hs'.
    rewrite upd_userMatches_get, upd_matches_userMatches, addUserMatches_lookup.
    by rewrite bool_decide_eq_true_2. }
  rewrite Hum' in Hafter. cbv zeta in Hafter.
  assert (Hold : default ∅ (userMatches s !! user) !! matchID (mtMatch mt) = None).
  { destruct (userMatches s !! user) as [um|] eqn:Hum; simpl; [|apply lookup_empty].
    destruct (um !! matchID (mtMatch mt)) as [l0|] eqn:Hx; [|done].
    assert (Hi : userIndex s user (matchID (mtMatch mt)) = Some l0)
      by (unfold userIndex; by rewrite Hum).
    apply Hidx in Hi as [Hi _]. congruence. }
  assert (Hqs : marketQuantities (heap s') base quote
                  (map_to_list (<[matchID (mtMatch mt) := l]>
                                  (default ∅ (userMatches s !! user))))
                ≡ₚ (if onMarket base quote mt then [Quantity (mtMatch mt)] else [])
                   ++ marketQuantities (heap s) base quote
                        (map_to_list (default ∅ (userMatches s !! user)))).
  { unfold marketQuantities. rewrite (map_to_list_insert _ _ _ Hold). cbn [omap list_omap snd].
    rewrite Hh', Hl. cbn [mbind option_bind]. by destruct (onMarket base quote mt). }
  rewrite (sumN_Permutation _ _ Hqs), (Permutation_length Hqs) in Hafter.
  assert (Hwrap : forall a b, wrapU64 (wrapU64 a + b) = wrapU64 (b + a)).
  { intros a b. rewrite wrapU64_add_l. f_equal. lia. }
  unfold marketShare.
  destruct (userMatches s !! user) as [um|] eqn:Hum; cbn [default from_option] in *;
    unfold id in *.
  - cbv zeta in Hbefore. eexists _, _, _, s', _.
    split; [exact Hbefore|]. split; [exact Hadd|]. rewrite Hafter.
    destruct (onMarket base quote mt); cbn [app sumN foldr length fst snd].
    + rewrite !Hwrap, Nat2N.inj_succ. unfold sumN. f_equal. f_equal; f_equal; lia.
    + rewrite !N.add_0_r. unfold wrapU64.
      by rewrite !N.Div0.mod_mod.
  - eexists _, _, _, s', _.
    split; [exact Hbefore|]. split; [exact Hadd|]. rewrite Hafter.
    rewrite map_to_list_empty. unfold marketQuantities at 1 2. cbn [omap list_omap].
    rewrite !app_nil_r.
    destruct (onMarket base quote mt); cbn [sumN foldr length fst snd];
      rewrite ?N.add_0_l, ?N.add_0_r; reflexivity.
Qed.

End SwappingAmount.
(** ** Questions to the asset backends *)

(** Every fee rate found is for a configured asset, and not above the
    asset's maximum fee rate. *)
Definition feeRatesCapped (s : Swapper) (feeRates : gmap AssetID N) : Prop :=
  forall id rate, feeRates !! id = Some rate ->
    exists a, coins s !! id = Some a /\ (rate <= MaxFeeRate a)%N.

Section Backends.

Variable C : Chains.

(** X8. [ChainsSynced] answers true exactly when both assets have a backend and
    both backends report their chain synced, and then without an error.  The
    base backend is asked first; the quote backend is not asked when the base
    chain is not synced.  The swapper is left as it is. *)
Theorem ChainsSynced_answers (s : Swapper) (base quote : AssetID) :
  exists synced err n,
    ChainsSynced C base quote s = Ret (synced, err) (upd_tick (Nat.add n) s)
    /\ (n <= 2)%nat
    /\ (synced = true <->
        exists b q, coins s !! base = Some b /\ coins s !! quote = Some q
                    /\ wSynced C (tick s) (Backend b) = Some true
                    /\ wSynced C (S (tick s)) (Backend q) = Some true)
    /\ (synced = true -> err = None)
    /\ (forall b, coins s !! base = Some b ->
                  wSynced C (tick s) (Backend b) = Some false ->
                  synced = false /\ err = None /\ n = 1%nat).
Proof.
  assert (Hid : s = upd_tick (Nat.add 0) s) by (by destruct s).
  unfold ChainsSynced. mrun.
  destruct (coins s !! base) as [b|] eqn:Hb; mrun.
  2:{ exists false, (Some ("No backend found for %d", base)), 0%nat.
      split; [by rewrite <- Hid|]. split; [lia|]. split; [|split; [done|done]].
      split; [done|]. by intros (b & q & ? & _). }
  destruct (wSynced C (tick s) (Backend b)) as [[|]|] eqn:Hbs; mrun.
  - destruct (coins s !! quote) as [q|] eqn:Hq; mrun.
    + destruct (wSynced C (S (tick s)) (Backend q)) as [qs|] eqn:Hqs; mrun.
      * exists qs, None, 2%nat. split; [reflexivity|]. split; [lia|].
        split; [|split; [done|]].
        -- split.
           ++ intros ->. exists b, q. done.
           ++ intros (b' & q' & Hb' & Hq' & _ & Hqs'). simplify_eq; try congruence.
        -- intros b' Hb' Hf; simplify_eq; try congruence.
      * exists false, (Some ("Error checking sync status for %d", base)), 2%nat.
        split; [reflexivity|]. split; [lia|]. split; [|split; [done|]].
        -- split; [done|]. intros (b' & q' & Hb' & Hq' & _ & Hqs'). simplify_eq; try congruence.
        -- intros b' Hb' Hf; simplify_eq; try congruence.
    + exists false, (Some ("No backend found for %d", base)), 1%nat.
      split; [reflexivity|]. split; [lia|]. split; [|split; [done|]].
      * split; [done|]. by intros (b' & q' & Hb' & Hq' & _).
      * intros b' Hb' Hf; simplify_eq; try congruence.
  - exists false, None, 1%nat. split; [reflexivity|]. split; [lia|].
    split; [|split; [done|done]].
    split; [done|]. intros (b' & q' & Hb' & Hq' & Hbs' & _). simplify_eq; try congruence.
  - exists false, (Some ("Error checking sync status for %d", base)), 1%nat.
    split; [reflexivity|]. split; [lia|]. split; [|split; [done|]].
    + split; [done|]. intros (b' & q' & Hb' & Hq' & Hbs' & _). simplify_eq; try congruence.
    + intros b' Hb' Hf. simplify_eq; try congruence.
Qed.

(** X9. [getFeeRate] of [Negotiate] reports an asset unsupported exactly when it
    has no backend.  For a supported asset it records a fee rate that is the
    backend's optimal rate capped at the asset's maximum (the maximum itself
    when the backend fails), once: a rate already recorded is kept and the
    backend is not asked again. *)
Theorem getFeeRate_capped (s s' : Swapper) (assetID : AssetID)
    (feeRates feeRates' : gmap AssetID N) (unsupported : bool) :
  feeRatesCapped s feeRates ->
  getFeeRate C assetID feeRates s = Ret (unsupported, feeRates') s' ->
  feeRatesCapped s' feeRates'
  /\ (unsupported = true <-> coins s !! assetID = None)
  /\ (unsupported = true -> feeRates' = feeRates /\ s' = s)
  /\ (unsupported = false -> is_Some (feeRates' !! assetID))
  /\ (forall id rate, feeRates !! id = Some rate ->
        feeRates' !! id = Some rate /\ (id = assetID -> feeRates' = feeRates /\ s' = s))
  /\ (feeRates !! assetID = None -> forall a, coins s !! assetID = Some a ->
        feeRates' !! assetID
        = Some (match wFeeRate C (tick s) (Backend a) with
                | Some rate => N.min rate (MaxFeeRate a)
                | None => MaxFeeRate a
                end)).
Proof.
  intros Hcap. unfold getFeeRate. mrun.
  destruct (feeRates !! assetID) as [rate0|] eqn:Hf; mrun.
  - intros [= <- <- <-].
    destruct (Hcap _ _ Hf) as (a & Ha & Hle).
    split; [done|]. split; [by rewrite Ha|]. split; [done|]. split; [eauto|].
    split; [|done]. intros id rate Hid. done.
  - destruct (coins s !! assetID) as [a|] eqn:Ha; mrun.
    + intros [= <- <- <-].
      split; [|split; [done|split; [done|split; [|split]]]].
      * intros id rate. destruct (decide (id = assetID)) as [->|Hne].
        -- rewrite lookup_insert_eq. intros [= <-]. exists a. split; [done|].
           destruct (wFeeRate C (tick s) (Backend a)) as [fr|]; [|lia].
           destruct (N.ltb_spec (MaxFeeRate a) fr); lia.
        -- rewrite lookup_insert_ne by done. apply Hcap.
      * intros _. rewrite lookup_insert_eq. eauto.
      * intros id rate Hid. assert (id ≠ assetID) by congruence.
        rewrite lookup_insert_ne by done. done.
      * intros _ a' [= <-]. rewrite lookup_insert_eq. f_equal.
        destruct (wFeeRate C (tick s) (Backend a)) as [fr|]; [|done].
        destruct (N.ltb_spec (MaxFeeRate a) fr); lia.
    + intros [= <- <- <-].
      split; [done|]. split; [done|]. split; [done|]. split; [done|].
      split; [|done]. intros id rate Hid. split; [done|]. intros ->. congruence.
Qed.

End Backends.
(** ** Block notifications *)

Definition isUnlock (e : Event) : bool :=
  match e with EvUnlockOrderCoins _ _ => true | _ => false end.

(** What a block notification at [t] may do to a swap status: nothing, or
    set the confirmation time of a swap that was seen and not confirmed. *)
Definition confirmedOrSame (t : Time) (ss ss' : swapStatus) : Prop :=
  ss' = ss
  \/ (IsZero (swapTime ss) = false /\ IsZero (swapConfirmed ss) = true
      /\ ss' = setSwapConfirmed t ss).

Definition confirmsOnly (t : Time) (mt mt' : matchTracker) : Prop :=
  mtMatch mt' = mtMatch mt /\ time mt' = time mt /\ matchTime mt' = matchTime mt
  /\ confirmedOrSame t (makerStatus mt) (makerStatus mt')
  /\ confirmedOrSame t (takerStatus mt) (takerStatus mt').

(** What [processBlock] may do to the swapper. *)
Definition blockStep (t : Time) (s s' : Swapper) : Prop :=
  coins s' = coins s /\ matches s' = matches s /\ userMatches s' = userMatches s
  /\ orders s' = orders s /\ liveWaiters s' = liveWaiters s /\ latencyQ s' = latencyQ s
  /\ (forall l mt, heap s !! l = Some mt ->
        exists mt', heap s' !! l = Some mt' /\ confirmsOnly t mt mt')
  /\ (forall l, heap s !! l = None -> heap s' !! l = None)
  /\ exists evs, trace s' = trace s ++ evs /\ Forall (fun e => isUnlock e = true) evs.

Lemma confirmedOrSame_refl t ss : confirmedOrSame t ss ss.
Proof. by left. Qed.

Lemma confirmedOrSame_trans t ss1 ss2 ss3 :
  confirmedOrSame t ss1 ss2 -> confirmedOrSame t ss2 ss3 -> confirmedOrSame t ss1 ss3.
Proof.
  intros [->|(H1 & H2 & ->)] [->|(H3 & H4 & ->)]; try (by left); by right.
Qed.

Lemma confirmsOnly_refl t mt : confirmsOnly t mt mt.
Proof. repeat split; apply confirmedOrSame_refl. Qed.

Lemma confirmsOnly_trans t mt1 mt2 mt3 :
  confirmsOnly t mt1 mt2 -> confirmsOnly t mt2 mt3 -> confirmsOnly t mt1 mt3.
Proof.
  intros (H1 & H2 & H3 & H4 & H5) (H1' & H2' & H3' & H4' & H5').
  repeat split; try congruence; by eapply confirmedOrSame_trans.
Qed.

Lemma blockStep_refl t s : blockStep t s s.
Proof.
  repeat split; try done.
  - intros l mt Hl. exists mt. split; [done | apply confirmsOnly_refl].
  - exists []. split; [by rewrite app_nil_r | constructor].
Qed.

Lemma blockStep_trans t s1 s2 s3 :
  blockStep t s1 s2 -> blockStep t s2 s3 -> blockStep t s1 s3.
Proof.
  intros (H1 & H2 & H3 & H4 & H5 & H6 & H7 & H8 & evs & H9 & H10)
         (H1' & H2' & H3' & H4' & H5' & H6' & H7' & H8' & evs' & H9' & H10').
  repeat split; try congruence.
  - intros l mt Hl. destruct (H7 l mt Hl) as (mt2 & Hl2 & Hc).
    destruct (H7' l mt2 Hl2) as (mt3 & Hl3 & Hc'). exists mt3. split; [done|].
    by eapply confirmsOnly_trans.
  - intros l Hl. auto.
  - exists (evs ++ evs'). split; [by rewrite H9', H9, app_assoc | by apply Forall_app].
Qed.

Lemma blockStep_tick t s : blockStep t s (upd_tick S s).
Proof.
  repeat split; try done.
  - intros l mt Hl. exists mt. split; [done | apply confirmsOnly_refl].
  - exists []. split; [by rewrite app_nil_r | constructor].
Qed.

(** Setting the confirmation time of one side of the tracker at [l]. *)
Lemma blockStep_confirm t (s : Swapper) l mt side :
  heap s !! l = Some mt ->
  IsZero (swapTime (statusOf side mt)) = false ->
  IsZero (swapConfirmed (statusOf side mt)) = true ->
  blockStep t s
    (upd_heap (alter (updStatusOf side (setSwapConfirmed t)) l) s).
Proof.
  intros Hl Hst Hsc. repeat split; try done.
  - intros l0 mt0 Hl0. cbn [heap upd_heap]. destruct (decide (l0 = l)) as [->|Hne].
    + rewrite lookup_alter_eq, Hl. simpl. eexists. split; [reflexivity|].
      assert (mt0 = mt) by congruence. subst mt0.
      destruct side; simpl in *; repeat split; try apply confirmedOrSame_refl;
        by right.
    + rewrite lookup_alter_ne by done. exists mt0. split; [done | apply confirmsOnly_refl].
  - intros l0 Hl0. cbn [heap upd_heap]. destruct (decide (l0 = l)) as [->|Hne].
    + by rewrite lookup_alter_eq, Hl0.
    + by rewrite lookup_alter_ne.
  - exists []. split; [by rewrite app_nil_r | constructor].
Qed.

Lemma blockStep_emit t s e : isUnlock e = true -> blockStep t s (upd_trace (fun tr => tr ++ [e]) s).
Proof.
  intros He. repeat split; try done.
  - intros l mt Hl. exists mt. split; [done | apply confirmsOnly_refl].
  - exists [e]. split; [done | by repeat constructor].
Qed.

#[global] Hint Unfold tryConfirmSwap checkMatchBlock : swapper.

Section BlockNotifications.

Variable W : World.
Variable C : Chains.

Lemma tryConfirmSwap_step (s : Swapper) l side t :
  blockStep t s (final (tryConfirmSwap C l side t s)).
Proof.
  unfold tryConfirmSwap. mrun.
  destruct (heap s !! l) as [mt|] eqn:Hl; mrun; [|apply blockStep_refl].
  destruct (IsZero (swapTime (statusOf side mt))) eqn:Hst; mrun; [apply blockStep_refl|].
  destruct (IsZero (swapConfirmed (statusOf side mt))) eqn:Hsc; mrun; [|apply blockStep_refl].
  destruct (swap (statusOf side mt)) as [c|]; mrun; [|apply blockStep_refl].
  destruct (wConfirmations C (tick s) c) as [confs|]; mrun; [|apply blockStep_tick].
  destruct (coins s !! swapAsset (statusOf side mt)) as [a|]; mrun; [|apply blockStep_tick].
  destruct (Z.of_N (SwapConf a) <=? confs); mrun; [|apply blockStep_tick].
  eapply blockStep_trans; [apply blockStep_tick|].
  by apply (blockStep_confirm t (upd_tick S s) l mt side).
Qed.

Lemma unlockOrderCoins_step (s : Swapper) ord t :
  blockStep t s (final (unlockOrderCoins ord s)).
Proof.
  mrun. destruct (coins s !! _); mrun; [|apply blockStep_refl].
  by apply blockStep_emit.
Qed.

Lemma checkMatchBlock_step (s : Swapper) block l :
  blockStep (blockTime block) s (final (checkMatchBlock C block l s)).
Proof.
  unfold checkMatchBlock. unfold bind at 1. unfold deref. unfold bind at 1. unfold get at 1.
  destruct (heap s !! l) as [mt|] eqn:Hl; [|apply blockStep_refl].
  unfold ret at 1. cbv zeta.
  destruct (_ && _); [apply blockStep_refl|].
  assert (Hside : forall side ord,
            blockStep (blockTime block) s
              (final ((confirmed <- tryConfirmSwap C l side (blockTime block) ;;
                       if confirmed then unlockOrderCoins ord else ret tt) s))).
  { intros side ord. unfold bind at 1.
    pose proof (tryConfirmSwap_step s l side (blockTime block)) as H1.
    destruct (tryConfirmSwap C l side (blockTime block) s) as [[|] s1|r s1]; simpl in H1.
    - eapply blockStep_trans; [exact H1 | apply unlockOrderCoins_step].
    - exact H1.
    - exact H1. }
  destruct (Status (mtMatch mt)); try apply blockStep_refl;
    destruct (bool_decide _); try apply blockStep_refl; apply Hside.
Qed.

Lemma processBlock_loop block : forall (ms : list (MatchID * loc)) (s : Swapper),
  blockStep (blockTime block) s
    (final (forRange ms (fun e _ => checkMatchBlock C block (snd e)) tt s)).
Proof.
  induction ms as [|[mid l] ms IH]; intros s; [apply blockStep_refl|].
  cbn [forRange snd]. unfold bind at 1.
  pose proof (checkMatchBlock_step s block l) as H1.
  destruct (checkMatchBlock C block l s) as [[] s1|r s1]; simpl in H1; [|exact H1].
  eapply blockStep_trans; [exact H1 | apply IH].
Qed.

(** X10. A block notification confirms swaps and does nothing else.  However
    [processBlock] ends, the registry, the order tracker, the waiters and the
    assets are as before; every tracker keeps its match, its status of
    negotiation and its times, except that the confirmation time of a swap
    that was seen and not yet confirmed may now be the block's time; a
    confirmation time once set is not overwritten; and the only calls made
    are to unlock order coins. *)
Theorem processBlock_confirms_only (s : Swapper) (block : blockNotification) :
  blockStep (blockTime block) s (final (processBlock W C block s)).
Proof.
  unfold processBlock. unfold bind at 1. unfold get at 1. unfold bind at 1.
  unfold rangeMap, ask.
  eapply blockStep_trans; [apply blockStep_tick | apply processBlock_loop].
Qed.

End BlockNotifications.

(** A tracker [processBlock] can work on: a swap that was seen has its
    contract, and the assets of both swaps and the funding assets of both
    orders are configured. *)
Definition trackerReady (s : Swapper) (mt : matchTracker) : Prop :=
  (forall side, IsZero (swapTime (statusOf side mt)) = false ->
                is_Some (swap (statusOf side mt)))
  /\ is_Some (coins s !! swapAsset (makerStatus mt))
  /\ is_Some (coins s !! swapAsset (takerStatus mt))
  /\ is_Some (coins s !! fundingAsset (OLimit (Maker (mtMatch mt))))
  /\ is_Some (coins s !! fundingAsset (Taker (mtMatch mt))).

(** The order of the party on a side of a match. *)
Definition orderOf (side : Side) (mt : matchTracker) : Order :=
  match side with
  | MakerSide => OLimit (Maker (mtMatch mt))
  | TakerSide => Taker (mtMatch mt)
  end.

(** The status at which the swap of a side awaits its confirmations. *)
Definition swapCastBy (side : Side) : MatchStatus :=
  match side with MakerSide => MakerSwapCast | TakerSide => TakerSwapCast end.

Lemma trackerReady_stable t (s0 s : Swapper) mt0 mt :
  coins s = coins s0 -> confirmsOnly t mt0 mt -> trackerReady s0 mt0 -> trackerReady s mt.
Proof.
  intros Hc (Hm & _ & _ & Hmk & Htk) (Hswap & H1 & H2 & H3 & H4).
  assert (Hkeep : forall ss ss', confirmedOrSame t ss ss' ->
            swapTime ss' = swapTime ss /\ swap ss' = swap ss /\ swapAsset ss' = swapAsset ss).
  { intros ss ss' [->|(_ & _ & ->)]; done. }
  destruct (Hkeep _ _ Hmk) as (Ha & Hb & Hcc). destruct (Hkeep _ _ Htk) as (Ha' & Hb' & Hcc').
  unfold trackerReady. rewrite Hc, Hm, Hcc, Hcc'. split; [|done].
  intros [|]; simpl; [rewrite Ha, Hb | rewrite Ha', Hb'].
  - apply (Hswap MakerSide).
  - apply (Hswap TakerSide).
Qed.

Section BlockConfirmation.

Variable W : World.
Variable C : Chains.

(** A round of [processBlock] on a ready tracker returns, and touches no
    other tracker. *)
Lemma checkMatchBlock_ready (s : Swapper) block l mt :
  heap s !! l = Some mt ->
  trackerReady s mt ->
  exists s1, checkMatchBlock C block l s = Ret tt s1
             /\ forall l0, l0 ≠ l -> heap s1 !! l0 = heap s !! l0.
Proof.
  intros Hl (Hswap & [a1 H1] & [a2 H2] & [a3 H3] & [a4 H4]).
  unfold fundingAsset in *. simpl in H3.
  pose proof (Hswap MakerSide) as HswapM. pose proof (Hswap TakerSide) as HswapT.
  simpl in HswapM, HswapT.
  unfold checkMatchBlock. mrun. rewrite Hl. mrun.
  destruct (_ && _); mrun; [by eexists|].
  destruct (Status (mtMatch mt)); mrun; try (by eexists);
    (destruct (bool_decide _); mrun; [by eexists|]); rewrite Hl; mrun.
  - destruct (IsZero (swapTime (makerStatus mt))) eqn:Hst; mrun; [by eexists|].
    destruct (IsZero (swapConfirmed (makerStatus mt))); mrun; [|by eexists].
    destruct (HswapM eq_refl) as [c Hc]. rewrite Hc. mrun.
    destruct (wConfirmations C (tick s) c); mrun; [|by eexists].
    rewrite H1. mrun. destruct (_ <=? _); mrun; [|by eexists].
    rewrite H3. mrun. eexists. split; [reflexivity|].
    intros l0 Hne. simpl. by rewrite lookup_alter_ne.
  - destruct (IsZero (swapTime (takerStatus mt))) eqn:Hst; mrun; [by eexists|].
    destruct (IsZero (swapConfirmed (takerStatus mt))); mrun; [|by eexists].
    destruct (HswapT eq_refl) as [c Hc]. rewrite Hc. mrun.
    destruct (wConfirmations C (tick s) c); mrun; [|by eexists].
    rewrite H2. mrun. destruct (_ <=? _); mrun; [|by eexists].
    rewrite H4. mrun. eexists. split; [reflexivity|].
    intros l0 Hne. simpl. by rewrite lookup_alter_ne.
Qed.

(** A round on a swap that has its confirmations. *)
Lemma checkMatchBlock_confirms (s : Swapper) block l mt side c a confs b :
  heap s !! l = Some mt ->
  Status (mtMatch mt) = swapCastBy side ->
  swapAsset (statusOf side mt) = blockAssetID block ->
  IsZero (swapTime (statusOf side mt)) = false ->
  IsZero (swapConfirmed (statusOf side mt)) = true ->
  swap (statusOf side mt) = Some c ->
  coins s !! swapAsset (statusOf side mt) = Some a ->
  coins s !! fundingAsset (orderOf side mt) = Some b ->
  wConfirmations C (tick s) c = Some confs ->
  Z.of_N (SwapConf a) <= confs ->
  exists s1, checkMatchBlock C block l s = Ret tt s1
             /\ heap s1 !! l = Some (updStatusOf side (setSwapConfirmed (blockTime block)) mt)
             /\ trace s1
                = trace s ++ [EvUnlockOrderCoins (fundingAsset (orderOf side mt))
                                (ID (orderOf side mt))].
Proof.
  intros Hl Hst Hasset Hseen Hnot Hc Ha Hb Hconfs Hle.
  unfold fundingAsset in *.
  apply Z.leb_le in Hle.
  unfold checkMatchBlock. mrun. rewrite Hl. mrun.
  assert (Hno : bool_decide (swapAsset (statusOf side mt) ≠ blockAssetID block) = false)
    by (apply bool_decide_eq_false_2; tauto).
  destruct side; simpl in *; rewrite Hst; rewrite !Hno;
    rewrite ?andb_false_r; simpl; mrun;
    rewrite Hl; mrun; rewrite Hseen, Hnot; mrun; rewrite Hc; mrun; rewrite Hconfs; mrun;
    rewrite Ha; mrun; rewrite Hle; mrun; rewrite Hb; mrun;
    (eexists; split; [reflexivity|]); simpl; rewrite lookup_alter_eq, Hl; done.
Qed.

(** X11. A swap with enough confirmations is confirmed by the next block of its
    asset.  The match is at the status where the swap of [side] awaits
    confirmation, the swap was seen and is not confirmed, and its contract has
    the confirmations the asset requires: then [processBlock] returns, the
    swap's confirmation time is the block's time, and the coins of the order
    that funded the swap are unlocked.  This holds in whatever order the
    registry is visited, when every registered tracker is ready. *)
Theorem processBlock_confirms (s : Swapper) (block : blockNotification) (mid : MatchID)
    (l : loc) (mt : matchTracker) (side : Side) (c : Contract) (a : BackedAsset) :
  fairRange W ->
  (forall mid' l', matches s !! mid' = Some l' ->
                   exists mt', heap s !! l' = Some mt' /\ trackerReady s mt') ->
  matches s !! mid = Some l ->
  heap s !! l = Some mt ->
  Status (mtMatch mt) = swapCastBy side ->
  swapAsset (statusOf side mt) = blockAssetID block ->
  IsZero (swapTime (statusOf side mt)) = false ->
  IsZero (swapConfirmed (statusOf side mt)) = true ->
  swap (statusOf side mt) = Some c ->
  coins s !! swapAsset (statusOf side mt) = Some a ->
  (forall n, exists confs, wConfirmations C n c = Some confs /\ Z.of_N (SwapConf a) <= confs) ->
  exists s' mt',
    processBlock W C block s = Ret tt s'
    /\ heap s' !! l = Some mt'
    /\ statusOf side mt' = setSwapConfirmed (blockTime block) (statusOf side mt)
    /\ Status (mtMatch mt') = Status (mtMatch mt)
    /\ In (EvUnlockOrderCoins (fundingAsset (orderOf side mt)) (ID (orderOf side mt)))
         (newEvents s s').
Proof.
  intros Hfair Hready Hm Hl Hst Hasset Hseen Hnot Hc Ha Hconfs.
  set (t := blockTime block).
  set (ev := EvUnlockOrderCoins (fundingAsset (orderOf side mt)) (ID (orderOf side mt))).
  set (s0 := upd_tick S s).
  (* the swap of [side] at [l] is confirmed, and the unlock call was made *)
  set (Done := fun s1 : Swapper =>
         exists mt1 evs, heap s1 !! l = Some mt1
                         /\ statusOf side mt1 = setSwapConfirmed t (statusOf side mt)
                         /\ mtMatch mt1 = mtMatch mt
                         /\ trace s1 = trace s ++ evs /\ In ev evs).
  assert (Hstable : forall s1 s2, blockStep t s1 s2 -> Done s1 -> Done s2).
  { intros s1 s2 (_ & _ & _ & _ & _ & _ & Hheap & _ & evs' & Htr & _)
           (mt1 & evs & Hl1 & Hs1 & Hm1 & Ht1 & Hin).
    destruct (Hheap l mt1 Hl1) as (mt2 & Hl2 & Hmm & _ & _ & Hmk & Htk).
    exists mt2, (evs ++ evs'). split; [done|]. split; [|split; [congruence|split]].
    - assert (Hside : confirmedOrSame t (statusOf side mt1) (statusOf side mt2))
        by (by destruct side).
      destruct Hside as [->|(_ & _ & ->)]; rewrite Hs1; done.
    - by rewrite Htr, Ht1, app_assoc.
    - apply in_or_app. by left. }
  assert (Hfund : exists b, coins s !! fundingAsset (orderOf side mt) = Some b).
  { destruct (Hready mid l Hm) as (mt' & Hl' & _ & _ & _ & [b3 H3] & [b4 H4]).
    assert (mt' = mt) by congruence. subst mt'. destruct side; simpl; eauto. }
  destruct Hfund as [b Hb].
  assert (Hloop : forall (ms : list (MatchID * loc)) (s1 : Swapper),
            Forall (fun e => matches s !! fst e = Some (snd e)) ms ->
            blockStep t s0 s1 ->
            heap s1 !! l = Some mt \/ Done s1 ->
            exists s2, forRange ms (fun e _ => checkMatchBlock C block (snd e)) tt s1
                       = Ret tt s2
                       /\ blockStep t s0 s2
                       /\ (Done s2 \/ (heap s2 !! l = Some mt /\ l ∉ map snd ms))).
  { induction ms as [|[mid' l'] ms IH]; intros s1 Hms Hstep Hcur.
    - exists s1. split; [reflexivity|]. split; [done|].
      destruct Hcur as [Hcur|Hcur]; [right | by left]. split; [done|]. apply not_elem_of_nil.
    - apply Forall_cons in Hms as [Hm' Hms]. simpl in Hm'.
      destruct (Hready mid' l' Hm') as (mt0 & Hl0 & Hr0).
      pose proof Hstep as (Hcoins & _ & _ & _ & _ & _ & Hheap & _).
      destruct (Hheap l' mt0 Hl0) as (mt1 & Hl1 & Hrel).
      assert (Hr1 : trackerReady s1 mt1).
      { eapply (trackerReady_stable t s s1); [|exact Hrel|exact Hr0]. by rewrite Hcoins. }
      cbn [forRange snd]. unfold bind at 1.
      destruct (decide (l' = l)) as [->|Hne].
      + (* the tracker of the swap *)
        destruct Hcur as [Hcur|Hcur].
        * assert (mt1 = mt) by congruence. subst mt1.
          destruct (Hconfs (tick s1)) as (confs & Hcf & Hle).
          destruct (checkMatchBlock_confirms s1 block l mt side c a confs b)
            as (s2 & Hrun & Hl2 & Htr2); try done; try (by rewrite Hcoins).
          rewrite Hrun.
          pose proof (checkMatchBlock_step C s1 block l) as Hs2. rewrite Hrun in Hs2.
          simpl in Hs2.
          assert (Hd2 : Done s2).
          { destruct Hstep as (_ & _ & _ & _ & _ & _ & _ & _ & evs1 & Ht1 & _).
            exists (updStatusOf side (setSwapConfirmed t) mt), (evs1 ++ [ev]).
            split; [done|]. split; [by destruct side|]. split; [by destruct side|].
            split; [by rewrite Htr2, Ht1, app_assoc | apply in_or_app; right; by left]. }
          destruct (IH s2 Hms) as (s3 & Hrun3 & Hs3 & Hfin);
            [by eapply blockStep_trans | by right |].
          exists s3. split; [done|]. split; [done|]. left.
          destruct Hfin as [Hfin|[Hfin _]]; [done|].
          pose proof (Hstable s2 s3) as Hx.
          assert (Hs23 : blockStep t s2 s3).
          { pose proof (processBlock_loop C block ms s2) as Hpl. by rewrite Hrun3 in Hpl. }
          by apply Hx.
        * destruct (checkMatchBlock_ready s1 block l mt1 Hl1 Hr1) as (s2 & Hrun & _).
          rewrite Hrun.
          pose proof (checkMatchBlock_step C s1 block l) as Hs2. rewrite Hrun in Hs2.
          simpl in Hs2.
          destruct (IH s2 Hms) as (s3 & Hrun3 & Hs3 & Hfin);
            [by eapply blockStep_trans | right; by eapply Hstable |].
          exists s3. split; [done|]. split; [done|]. left.
          destruct Hfin as [Hfin|[Hfin _]]; [done|].
          assert (Hs23 : blockStep t s2 s3).
          { pose proof (processBlock_loop C block ms s2) as Hpl. by rewrite Hrun3 in Hpl. }
          apply (Hstable s2 s3 Hs23). by eapply Hstable.
      + (* another tracker *)
        destruct (checkMatchBlock_ready s1 block l' mt1 Hl1 Hr1) as (s2 & Hrun & Hother).
        rewrite Hrun.
        pose proof (checkMatchBlock_step C s1 block l') as Hs2. rewrite Hrun in Hs2.
        simpl in Hs2.
        destruct (IH s2 Hms) as (s3 & Hrun3 & Hs3 & Hfin);
          [by eapply blockStep_trans | |].
        { destruct Hcur as [Hcur|Hcur]; [left | right; by eapply Hstable].
          by rewrite Hother. }
        exists s3. split; [done|]. split; [done|].
        destruct Hfin as [Hfin|[Hfin Hnin]]; [by left | right]. split; [done|].
        cbn [map snd]. apply not_elem_of_cons. done. }
  unfold processBlock. unfold bind at 1. unfold get at 1. unfold bind at 1.
  unfold rangeMap, ask. fold s0.
  destruct (Hloop (wRange W _ (tick s) (map_to_list (matches s))) s0)
    as (s2 & Hrun & Hstep & Hfin).
  - apply Forall_forall. intros [mid' l'] Hin. rewrite (Hfair _ (tick s)) in Hin.
    by apply elem_of_map_to_list in Hin.
  - apply blockStep_refl.
  - by left.
  - destruct Hfin as [(mt1 & evs & Hl1 & Hs1 & Hm1 & Ht1 & Hin)|[_ Hnin]].
    + exists s2, mt1. split; [exact Hrun|]. split; [done|]. split; [done|].
      split; [by rewrite Hm1|]. by rewrite (newEvents_app s s2 evs Ht1).
    + exfalso. apply Hnin. apply list_elem_of_fmap. exists (mid, l). split; [done|].
      rewrite (Hfair _ (tick s)). by apply elem_of_map_to_list.
Qed.

End BlockConfirmation.
(** ** What the inaction sweeps revoke *)

(** What a revocation leaves alone. *)
Definition sweepFrame (s s' : Swapper) : Prop :=
  coins s' = coins s /\ heap s' = heap s /\ matches s' = matches s
  /\ bTimeout s' = bTimeout s /\ exists evs, trace s' = trace s ++ evs.

Lemma sweepFrame_refl s : sweepFrame s s.
Proof. repeat split. exists []. by rewrite app_nil_r. Qed.

Lemma sweepFrame_trans s1 s2 s3 : sweepFrame s1 s2 -> sweepFrame s2 s3 -> sweepFrame s1 s3.
Proof.
  intros (H1 & H2 & H3 & H4 & evs & H5) (H1' & H2' & H3' & H4' & evs' & H5').
  repeat split; try congruence. exists (evs ++ evs'). by rewrite H5', H5, app_assoc.
Qed.

Lemma newEvents_frame_in (s0 s1 s2 : Swapper) e :
  sweepFrame s0 s1 -> sweepFrame s1 s2 ->
  In e (newEvents s0 s1) \/ In e (newEvents s1 s2) -> In e (newEvents s0 s2).
Proof.
  intros (_ & _ & _ & _ & evs & H1) (_ & _ & _ & _ & evs' & H2) Hin.
  rewrite (newEvents_app s0 s1 evs H1), (newEvents_app s1 s2 evs' H2) in Hin.
  rewrite (newEvents_app s0 s2 (evs ++ evs')) by (by rewrite H2, H1, app_assoc).
  apply in_or_app. tauto.
Qed.

(** The inaction penalty of a match, by its status. *)
Definition inactionOf (mt : matchTracker) : option Event :=
  match ascribe mt with
  | Some (label, refTime, makerFault) =>
      let m := mtMatch mt in
      let atFault := if makerFault then OLimit (Maker m) else Taker m in
      Some (EvInaction (User atFault) label (matchID m) (Quantity m) refTime (ID atFault))
  | None => None
  end.

(** The coin lockers of the funding assets of both orders exist. *)
Definition fundingConfigured (s : Swapper) (mt : matchTracker) : Prop :=
  is_Some (coins s !! fundingAsset (Taker (mtMatch mt)))
  /\ is_Some (coins s !! fundingAsset (OLimit (Maker (mtMatch mt)))).

Section Revocations.

Variable W : World.

Lemma failMatch_frame (s : Swapper) l mt :
  heap s !! l = Some mt -> sweepFrame s (final (failMatch W l s)).
Proof.
  intros Hl. unfold sweepFrame, failMatch, revoke, ascribe. mrun. rewrite Hl. mrun.
  repeat (mrun; rewrite ?Hl; try mcase);
    (split; [reflexivity|]); (split; [reflexivity|]); (split; [reflexivity|]);
    (split; [reflexivity|]);
    eexists; first [ rewrite <- ?app_assoc; reflexivity | symmetry; apply app_nil_r ].
Qed.

Lemma failMatch_inaction (s : Swapper) l mt e :
  heap s !! l = Some mt -> inactionOf mt = Some e ->
  In e (newEvents s (final (failMatch W l s))).
Proof.
  intros Hl. unfold inactionOf.
  destruct (ascribe mt) as [[[label refTime] makerFault]|] eqn:Hasc; [|done].
  intros [= <-].
  destruct (failMatch_revokedWith W s l mt Hl label refTime makerFault Hasc) as (Hf & _).
  apply list_elem_of_In.
  eapply (proj1 (list_elem_of_filter (fun e => isInaction e = true) _ _)).
  rewrite Hf. apply list_elem_of_here.
Qed.

(** One round of the first loop of a sweep that revokes the matches [due]
    holds of. *)
Definition roundRevokes (s0 : Swapper) (due : matchTracker -> bool)
    (body : loc -> list loc -> M (list loc)) : Prop :=
  forall s l mt dels,
    sweepFrame s0 s -> heap s0 !! l = Some mt -> fundingConfigured s0 mt ->
    exists s2,
      body l dels s = Ret (if due mt then dels ++ [l] else dels) s2
      /\ sweepFrame s s2
      /\ (due mt = true -> exists e, inactionOf mt = Some e /\ In e (newEvents s s2)).

Lemma revoking_round (s0 s : Swapper) l mt dels :
  sweepFrame s0 s -> heap s0 !! l = Some mt -> fundingConfigured s0 mt ->
  is_Some (inactionOf mt) ->
  exists s2, (failMatch W l ;;; ret (dels ++ [l])) s = Ret (dels ++ [l]) s2
             /\ sweepFrame s s2
             /\ exists e, inactionOf mt = Some e /\ In e (newEvents s s2).
Proof.
  intros (Hc & Hh & _) Hl [Ht Hm] [e He].
  assert (Hl' : heap s !! l = Some mt) by (by rewrite Hh).
  pose proof (failMatch_returns W s l mt Hl') as Hret.
  rewrite Hc in Hret. specialize (Hret Ht Hm).
  pose proof (failMatch_frame s l mt Hl') as Hfr.
  pose proof (failMatch_inaction s l mt e Hl' He) as Hin.
  unfold bind. destruct (failMatch W l s) as [[] s2|r s2]; [|done].
  exists s2. split; [reflexivity|]. split; [exact Hfr|]. exists e. done.
Qed.

Lemma checkMatchEventBased_revokes now (s0 : Swapper) :
  roundRevokes s0 (eventDue now (bTimeout s0)) (checkMatchEventBased W now).
Proof.
  intros s l mt dels Hfr Hl Hfund.
  pose proof Hfr as (Hc & Hh & _ & Hb & _).
  assert (Hl' : heap s !! l = Some mt) by (by rewrite Hh).
  pose proof (revoking_round s0 s l mt dels Hfr Hl Hfund) as Hrev.
  unfold checkMatchEventBased. unfold bind at 1. unfold deref. unfold bind at 1.
  unfold get at 1. rewrite Hl'. unfold ret at 1. unfold bind at 1. unfold get at 1.
  rewrite Hb. unfold eventDue, redeemSeenTime in *. unfold inactionOf, ascribe in Hrev.
  destruct (Status (mtMatch mt)) eqn:Hst;
    try (exists s; split; [reflexivity|]; split; [apply sweepFrame_refl | done]).
  - destruct (tooOldEvent now (bTimeout s0) (time mt)).
    + destruct Hrev as (s2 & Hrun & Hf2 & He); [eauto|]. exists s2. unfold inactionOf, ascribe.
      rewrite Hst. done.
    + exists s. split; [reflexivity|]. split; [apply sweepFrame_refl | done].
  - destruct (tooOldEvent now (bTimeout s0) (redeemTime (makerStatus mt))).
    + destruct Hrev as (s2 & Hrun & Hf2 & He); [eauto|]. exists s2. unfold inactionOf, ascribe.
      rewrite Hst. done.
    + exists s. split; [reflexivity|]. split; [apply sweepFrame_refl | done].
Qed.

Lemma checkMatchBlockBased_revokes now assetID (s0 : Swapper) :
  roundRevokes s0 (blockDue now (bTimeout s0) assetID) (checkMatchBlockBased W now assetID).
Proof.
  intros s l mt dels Hfr Hl Hfund.
  pose proof Hfr as (Hc & Hh & _ & Hb & _).
  assert (Hl' : heap s !! l = Some mt) by (by rewrite Hh).
  pose proof (revoking_round s0 s l mt dels Hfr Hl Hfund) as Hrev.
  unfold checkMatchBlockBased. unfold bind at 1. unfold deref. unfold bind at 1.
  unfold get at 1. rewrite Hl'. unfold ret at 1.
  unfold blockDue, swapConfTime in *. unfold inactionOf, ascribe in Hrev.
  destruct (_ && _).
  { exists s. split; [reflexivity|]. split; [apply sweepFrame_refl | done]. }
  unfold bind at 1. unfold get at 1. rewrite Hb.
  destruct (Status (mtMatch mt)) eqn:Hst;
    try (exists s; split; [reflexivity|]; split; [apply sweepFrame_refl | done]).
  - destruct (tooOldBlock now (bTimeout s0) (swapConfirmed (makerStatus mt))).
    + destruct Hrev as (s2 & Hrun & Hf2 & He); [eauto|]. exists s2. unfold inactionOf, ascribe.
      rewrite Hst. done.
    + exists s. split; [reflexivity|]. split; [apply sweepFrame_refl | done].
  - destruct (tooOldBlock now (bTimeout s0) (swapConfirmed (takerStatus mt))).
    + destruct Hrev as (s2 & Hrun & Hf2 & He); [eauto|]. exists s2. unfold inactionOf, ascribe.
      rewrite Hst. done.
    + exists s. split; [reflexivity|]. split; [apply sweepFrame_refl | done].
Qed.

(** The registered trackers can be revoked. *)
Definition registryReady (s : Swapper) : Prop :=
  forall mid l, matches s !! mid = Some l ->
    exists mt, heap s !! l = Some mt /\ matchID (mtMatch mt) = mid /\ fundingConfigured s mt.

(** The first loop of a sweep: the trackers of the due matches are collected,
    each after its revocation. *)
Lemma revoking_rounds (s0 : Swapper) due body l mt e :
  registryReady s0 -> roundRevokes s0 due body ->
  heap s0 !! l = Some mt -> due mt = true -> inactionOf mt = Some e ->
  forall (ms : list (MatchID * loc)) s dels,
    Forall (fun x => matches s0 !! fst x = Some (snd x)) ms ->
    sweepFrame s0 s ->
    Forall (fun l' => is_Some (heap s0 !! l')) dels ->
    exists s2 dels',
      forRange ms (fun x => body (snd x)) dels s = Ret dels' s2
      /\ sweepFrame s s2
      /\ Forall (fun l' => is_Some (heap s0 !! l')) dels'
      /\ (l ∈ dels -> l ∈ dels')
      /\ (l ∈ map snd ms -> l ∈ dels' /\ In e (newEvents s s2)).
Proof.
  intros Hready Hround Hl Hdue He.
  induction ms as [|[mid' l'] ms IH]; intros s dels Hms Hfr Hdels.
  - exists s, dels. split; [reflexivity|]. split; [apply sweepFrame_refl|].
    split; [done|]. split; [done|]. cbn [map]. intros Hin. by apply elem_of_nil in Hin.
  - apply Forall_cons in Hms as [Hm' Hms]. simpl in Hm'.
    destruct (Hready mid' l' Hm') as (mt' & Hl' & _ & Hfund).
    destruct (Hround s l' mt' dels Hfr Hl' Hfund) as (s1 & Hrun & Hf1 & Hev).
    cbn [forRange snd]. unfold bind at 1. rewrite Hrun.
    assert (Hdels1 : Forall (fun l0 => is_Some (heap s0 !! l0))
                       (if due mt' then dels ++ [l'] else dels)).
    { destruct (due mt'); [|done]. apply Forall_app. split; [done|].
      repeat constructor. eauto. }
    destruct (IH s1 _ Hms (sweepFrame_trans _ _ _ Hfr Hf1) Hdels1)
      as (s2 & dels2 & Hrun2 & Hf2 & Hd2 & Hkeep & Hfound).
    exists s2, dels2. split; [exact Hrun2|]. split; [by eapply sweepFrame_trans|].
    split; [done|]. split.
    + intros Hin. apply Hkeep. destruct (due mt'); [|done].
      apply elem_of_app. by left.
    + cbn [map snd]. intros Hin. apply elem_of_cons in Hin as [->|Hin].
      * assert (mt' = mt) by congruence. subst mt'. rewrite Hdue in *.
        split.
        -- apply Hkeep. apply elem_of_app. right. apply list_elem_of_here.
        -- destruct (Hev eq_refl) as (e' & He' & Hin').
           assert (e' = e) by congruence. subst e'.
           apply (newEvents_frame_in s s1 s2 e Hf1 Hf2). by left.
      * destruct (Hfound Hin) as [Hin2 Hev2]. split; [done|].
        apply (newEvents_frame_in s s1 s2 e Hf1 Hf2). by right.
Qed.

(** The second loop of a sweep. *)
Lemma revoking_deletions (s0 : Swapper) mid l mt :
  heap s0 !! l = Some mt -> matchID (mtMatch mt) = mid ->
  forall (dels : list loc) s,
    heap s = heap s0 ->
    Forall (fun l' => is_Some (heap s0 !! l')) dels ->
    exists s2, forRange dels (fun l' _ => deleteMatch l') tt s = Ret tt s2
               /\ heap s2 = heap s /\ trace s2 = trace s
               /\ (matches s !! mid = None \/ l ∈ dels -> matches s2 !! mid = None).
Proof.
  intros Hl Hid. induction dels as [|l' dels IH]; intros s Hh Hdels.
  - exists s. split; [reflexivity|]. split; [done|]. split; [done|].
    intros [?|Hin]; [done|]. by apply elem_of_nil in Hin.
  - apply Forall_cons in Hdels as [[mt' Hl'] Hdels].
    rewrite <- Hh in Hl'.
    destruct (deleteMatch_effect s l' mt' Hl') as (s1 & Hrun & Hh1 & Ht1 & Hm1).
    cbn [forRange]. unfold bind at 1. rewrite Hrun.
    destruct (IH s1) as (s2 & Hrun2 & Hh2 & Ht2 & Hgone); [congruence | done |].
    exists s2. split; [exact Hrun2|]. split; [congruence|]. split; [congruence|].
    intros Hcase. apply Hgone.
    destruct (decide (matchID (mtMatch mt') = mid)) as [Heq|Hne].
    + left. by rewrite Hm1, Heq, lookup_delete_eq.
    + destruct Hcase as [Hnone|Hin].
      * left. by rewrite Hm1, lookup_delete_ne.
      * apply elem_of_cons in Hin as [->|Hin]; [|by right].
        rewrite Hh in Hl'. assert (mt' = mt) by congruence. subst mt'. done.
Qed.

(** Both loops. *)
Lemma sweep_revokes (s0 s : Swapper) due body mid l mt e (ms : list (MatchID * loc)) :
  registryReady s0 -> roundRevokes s0 due body ->
  matches s0 !! mid = Some l -> heap s0 !! l = Some mt ->
  due mt = true -> inactionOf mt = Some e ->
  sweepFrame s0 s ->
  ms ≡ₚ map_to_list (matches s0) ->
  exists s',
    (deletions <- forRange ms (fun x => body (snd x)) [] ;;
     forRange deletions (fun l' _ => deleteMatch l') tt) s = Ret tt s'
    /\ matches s' !! mid = None /\ heap s' = heap s0 /\ In e (newEvents s s').
Proof.
  intros Hready Hround Hm Hl Hdue He Hfr Hperm.
  destruct (Hready mid l Hm) as (mt' & Hl' & Hid & _).
  assert (mt' = mt) by congruence. subst mt'.
  assert (Hms : Forall (fun x => matches s0 !! fst x = Some (snd x)) ms).
  { apply Forall_forall. intros [mid' l'] Hin. rewrite Hperm in Hin.
    by apply elem_of_map_to_list in Hin. }
  assert (Hnil : Forall (fun l' => is_Some (heap s0 !! l')) []) by constructor.
  destruct (revoking_rounds s0 due body l mt e Hready Hround Hl Hdue He ms s [] Hms Hfr Hnil)
    as (s1 & dels & Hrun & Hf1 & Hdels & _ & Hfound).
  destruct Hfound as [Hin Hev].
  { apply list_elem_of_fmap. exists (mid, l). split; [done|]. rewrite Hperm.
    by apply elem_of_map_to_list. }
  pose proof (sweepFrame_trans _ _ _ Hfr Hf1) as (_ & Hh1 & _).
  destruct (revoking_deletions s0 mid l mt Hl Hid dels s1 Hh1 Hdels)
    as (s2 & Hrun2 & Hh2 & Ht2 & Hgone).
  exists s2. unfold bind at 1. rewrite Hrun. split; [exact Hrun2|].
  split; [apply Hgone; by right|]. split; [congruence|].
  destruct Hf1 as (_ & _ & _ & _ & evs & Htr).
  rewrite (newEvents_app s s1 evs Htr) in Hev.
  rewrite (newEvents_app s s2 evs); [done | congruence].
Qed.

(** X12. A due match is revoked.  With the database in working order and the coin
    lockers of every registered match in place, a sweep returns, and a match
    it finds due (at [NewlyMatched] or [MakerRedeemed] for the event-based
    sweep, at [MakerSwapCast] or [TakerSwapCast] with a swap on the asset
    for the block-based one) is then no longer registered and its inaction
    penalty has been charged, in whatever order the registry is visited. *)
Theorem sweeps_revoke_due (s : Swapper) (mid : MatchID) (l : loc) (mt : matchTracker) :
  fairRange W ->
  registryReady s ->
  matches s !! mid = Some l ->
  heap s !! l = Some mt ->
  wLastErr W (tick s) = false ->
  let now := wNow W (S (tick s)) in
  (eventDue now (bTimeout s) mt = true ->
   exists s' e,
     checkInactionEventBased W s = Ret tt s'
     /\ matches s' !! mid = None /\ heap s' = heap s
     /\ inactionOf mt = Some e /\ In e (newEvents s s'))
  /\
  (forall assetID,
     blockDue now (bTimeout s) assetID mt = true ->
     exists s' e,
       checkInactionBlockBased W assetID s = Ret tt s'
       /\ matches s' !! mid = None /\ heap s' = heap s
       /\ inactionOf mt = Some e /\ In e (newEvents s s')).
Proof.
  intros Hfair Hready Hm Hl Hdb now.
  assert (Hstart : sweepFrame s (upd_tick S (upd_tick S (upd_tick S s)))).
  { repeat split. exists []. by rewrite app_nil_r. }
  split.
  - intros Hdue.
    assert (He : is_Some (inactionOf mt)).
    { unfold inactionOf, ascribe. unfold eventDue in Hdue.
      destruct (Status (mtMatch mt)); try done; eauto. }
    destruct He as [e He].
    destruct (sweep_revokes s (upd_tick S (upd_tick S (upd_tick S s)))
                (eventDue now (bTimeout s)) (checkMatchEventBased W now) mid l mt e
                (wRange W _ (S (S (tick s))) (map_to_list (matches s))))
      as (s' & Hrun & Hgone & Hh & Hin); try done.
    { apply checkMatchEventBased_revokes. }
    exists s', e. unfold checkInactionEventBased, sweepEventBased. mrun. rewrite Hdb. mrun.
    split; [exact Hrun|]. split; [done|]. split; [done|]. split; [done|].
    unfold newEvents in *. exact Hin.
  - intros assetID Hdue.
    assert (He : is_Some (inactionOf mt)).
    { unfold inactionOf, ascribe. unfold blockDue in Hdue. destruct (_ && _); [done|].
      destruct (Status (mtMatch mt)); try done; eauto. }
    destruct He as [e He].
    destruct (sweep_revokes s (upd_tick S (upd_tick S (upd_tick S s)))
                (blockDue now (bTimeout s) assetID) (checkMatchBlockBased W now assetID)
                mid l mt e (wRange W _ (S (S (tick s))) (map_to_list (matches s))))
      as (s' & Hrun & Hgone & Hh & Hin); try done.
    { apply checkMatchBlockBased_revokes. }
    exists s', e. unfold checkInactionBlockBased, sweepBlockBased. mrun. rewrite Hdb. mrun.
    split; [exact Hrun|]. split; [done|]. split; [done|]. split; [done|].
    unfold newEvents in *. exact Hin.
Qed.

End Revocations.

Section SweepsSpare.

Variable W : World.

(** X13. The block-based sweep revokes only what is due: a match is left
    registered, with its tracker as it was and no revocation call made for it,
    unless it is at [MakerSwapCast] or [TakerSwapCast], one of its swaps is on
    the sweep's asset, and the swap awaited at that status was confirmed at
    least the broadcast timeout before the sweep's clock reading.  And while
    the database reports an error neither sweep does anything but ask for
    it. *)
Theorem blockSweep_revokes_only_due (s : Swapper) (mid : MatchID) (l : loc)
    (mt : matchTracker) :
  fairRange W ->
  registryWf s ->
  matches s !! mid = Some l ->
  heap s !! l = Some mt ->
  (forall assetID,
     blockDue (wNow W (S (tick s))) (bTimeout s) assetID mt = false ->
     notRevoked mid l s (final (checkInactionBlockBased W assetID s)))
  /\ (wLastErr W (tick s) = true ->
      checkInactionEventBased W s = Ret tt (upd_tick S s)
      /\ forall assetID, checkInactionBlockBased W assetID s = Ret tt (upd_tick S s)).
Proof.
  intros Hfair Hwf Hm Hl. split.
  - intros assetID Hdue.
    assert (Hidle : notRevoked mid l s (upd_tick S s)).
    { repeat split; [done|]. rewrite (newEvents_app _ _ []); [constructor|].
      by rewrite app_nil_r. }
    assert (Hstart : untouched mid s (upd_tick S (upd_tick S (upd_tick S s)))).
    { repeat split. exists []. split; [by rewrite app_nil_r | constructor]. }
    unfold checkInactionBlockBased, sweepBlockBased. mrun.
    destruct (wLastErr W (tick s)); mrun; [done|].
    apply (sweep_spares mid l s _ (checkMatchBlockBased W _ assetID)); [done| |done].
    apply Forall_forall. intros [mid' l'] Hin.
    rewrite (Hfair _ (S (S (tick s)))) in Hin. apply elem_of_map_to_list in Hin.
    destruct (Hwf mid' l' Hin) as (mt' & Hl' & Hid). exists mt'. split; [done|].
    apply checkMatchBlockBased_spares; [done|].
    destruct (decide (mid' = mid)) as [->|Hne]; [right | left; congruence].
    simpl in *. assert (mt' = mt) by congruence. by subst mt'.
  - intros Hdb. unfold checkInactionEventBased, checkInactionBlockBased. mrun.
    rewrite Hdb. done.
Qed.

End SweepsSpare.

(** ** The event-based sweep and the zero time *)

Section ZeroEventTime.

Variable W : World.

(** The event-based sweep has no guard for the zero time.  With the database
    in working order, a registered match at [NewlyMatched] that was first
    seen at the zero time, or at [MakerRedeemed] with the maker's redeem seen
    at the zero time, is revoked by the next sweep whose clock reading is at
    least the broadcast timeout after the zero time: the match is no longer
    registered and its inaction penalty is charged. *)
Lemma eventSweep_revokes_zero_time (s : Swapper) (mid : MatchID) (l : loc)
    (mt : matchTracker) :
  fairRange W ->
  registryReady s ->
  matches s !! mid = Some l ->
  heap s !! l = Some mt ->
  wLastErr W (tick s) = false ->
  (Status (mtMatch mt) = NewlyMatched /\ time mt = 0)
  \/ (Status (mtMatch mt) = MakerRedeemed /\ redeemTime (makerStatus mt) = 0) ->
  bTimeout s <= timeSub (wNow W (S (tick s))) 0 ->
  exists s' e,
    checkInactionEventBased W s = Ret tt s'
    /\ matches s' !! mid = None
    /\ inactionOf mt = Some e /\ In e (newEvents s s').
Proof.
  intros Hfair Hready Hm Hl Hdb Hzero Hlate.
  assert (Hdue : eventDue (wNow W (S (tick s))) (bTimeout s) mt = true).
  { unfold eventDue, tooOldEvent.
    destruct Hzero as [[-> ->]|[-> ->]]; by apply Z.leb_le. }
  assert (He : is_Some (inactionOf mt)).
  { unfold inactionOf, ascribe. destruct Hzero as [[-> _]|[-> _]]; eauto. }
  destruct He as [e He].
  assert (Hstart : sweepFrame s (upd_tick S (upd_tick S (upd_tick S s)))).
  { repeat split. exists []. by rewrite app_nil_r. }
  destruct (sweep_revokes s (upd_tick S (upd_tick S (upd_tick S s)))
              (eventDue (wNow W (S (tick s))) (bTimeout s))
              (checkMatchEventBased W (wNow W (S (tick s)))) mid l mt e
              (wRange W _ (S (S (tick s))) (map_to_list (matches s))))
    as (s' & Hrun & Hgone & Hh & Hin); try done.
  { apply checkMatchEventBased_revokes. }
  exists s', e. unfold checkInactionEventBased, sweepEventBased. mrun. rewrite Hdb. mrun.
  split; [exact Hrun|]. split; [done|]. split; [done|].
  unfold newEvents in *. exact Hin.
Qed.

End ZeroEventTime.
(** ** What a computation leaves alone *)

(** A computation that leaves a component [f] of the state as it found it,
    however it ends. *)
Definition preserves {F A} (f : Swapper -> F) (m : M A) : Prop :=
  forall s, f (final (m s)) = f s.

Lemma preserves_ret {F A} (f : Swapper -> F) (a : A) : preserves f (ret a).
Proof. by intros s. Qed.

Lemma preserves_bind {F A B} (f : Swapper -> F) (m : M A) (k : A -> M B) :
  preserves f m -> (forall a, preserves f (k a)) -> preserves f (bind m k).
Proof.
  intros Hm Hk s. unfold bind. specialize (Hm s).
  destruct (m s) as [a s1|r s1]; simpl in *; [|done].
  by rewrite Hk.
Qed.

Lemma preserves_get {F} (f : Swapper -> F) : preserves f get.
Proof. by intros s. Qed.

Lemma preserves_panic {F A} (f : Swapper -> F) r : preserves f (@panic A r).
Proof. by intros s. Qed.

Lemma preserves_modify {F} (f : Swapper -> F) (g : Swapper -> Swapper) :
  (forall s, f (g s) = f s) -> preserves f (modify g).
Proof. intros Hg s. apply Hg. Qed.

Lemma preserves_ask {F A} (f : Swapper -> F) (q : nat -> A) :
  (forall s, f (upd_tick S s) = f s) -> preserves f (ask q).
Proof. intros Hf s. apply Hf. Qed.

Lemma preserves_emit {F} (f : Swapper -> F) e :
  (forall s g, f (upd_trace g s) = f s) -> preserves f (emit e).
Proof. intros Hf s. apply Hf. Qed.

Lemma preserves_forRange {F A B} (f : Swapper -> F) (xs : list A) (body : A -> B -> M B) :
  (forall x acc, preserves f (body x acc)) ->
  forall acc, preserves f (forRange xs body acc).
Proof.
  intros Hb. induction xs as [|x xs IH]; intros acc; simpl.
  - apply preserves_ret.
  - apply preserves_bind; [apply Hb | intros; apply IH].
Qed.

(** One step of a proof that a computation preserves a component. *)
Ltac preserves_step :=
  lazymatch goal with
  | |- preserves _ (bind _ _) => apply preserves_bind; [|intros]
  | |- preserves _ (ret _) => apply preserves_ret
  | |- preserves _ get => apply preserves_get
  | |- preserves _ (panic _) => apply preserves_panic
  | |- preserves _ (ask _) => apply preserves_ask; intros; reflexivity
  | |- preserves _ (emit _) => apply preserves_emit; intros; reflexivity
  | |- preserves _ (modify _) => apply preserves_modify; intros; reflexivity
  | |- preserves _ (forRange _ _ _) => apply preserves_forRange; intros
  | |- preserves _ (match ?x with _ => _ end) => destruct x
  | |- preserves _ (let _ := _ in _) => cbv zeta
  end.

Ltac preserves_unfold :=
  unfold deref, respondError, respondSuccess, ordersSwapSuccess, ordersSwapFailure,
    ordersCanceled, unlockOrderCoins, unlockOrderIDCoins, setLiveWaiter, rmLiveWaiter,
    latencyQWait, authUser, unixMsNow, rangeMap, alloc, backendOf.

Ltac preserves_auto := repeat (preserves_unfold; preserves_step).

Section Frames.

Variable W : World.

(** [step] only reads: it ends in the state it started in. *)
Lemma step_final (s : Swapper) user mid : final (step W user mid s) = s.
Proof.
  unfold step. mrun. destruct (matches s !! mid) as [l|]; mrun; [|done].
  destruct (heap s !! l) as [mt|]; mrun; [|done].
  destruct (stepParties mt) as [[[[a c] n] b]|]; mrun; [|done].
  destruct (negb _); mrun; [done|].
  by destruct (coins s !! _).
Qed.

(** The step [step] returns points to a tracker. *)
Lemma step_tracker (s s' : Swapper) user mid info :
  step W user mid s = Ret (inl info) s' -> exists mt, heap s !! siMatch info = Some mt.
Proof.
  unfold step. mrun. destruct (matches s !! mid) as [l|] eqn:Hm; mrun; [|done].
  destruct (heap s !! l) as [mt|] eqn:Hl; mrun; [|done].
  intros Hstep.
  assert (Hrun : step W user mid s = Ret (inl info) s').
  { unfold step. mrun. rewrite Hm. mrun. rewrite Hl. exact Hstep. }
  pose proof (step_returns W s s' user mid l mt info Hm Hl Hrun) as Hs.
  cbv zeta in Hs. destruct Hs as (_ & -> & _). eauto.
Qed.

(** The state after [n] questions to the world. *)
Definition asked (n : nat) (s : Swapper) : Swapper := upd_tick (Nat.add n) s.

(** The state after a handler registered a coin waiter [w] for the message
    [msg] of [user], having asked [n] questions. *)
Definition waiting (n : nat) (user : AccountID) (msg : Message) (w : Waiter)
    (s : Swapper) : Swapper :=
  upd_latencyQ (fun q => q ++ [w])
    (upd_liveWaiters (insert (msgID msg, user) (mkHandlerArgs user msg)) (asked n s)).

(** What a handler has done when it ends: on an error, and on a panic,
    nothing but ask questions; on success it has also registered one coin
    waiter and recorded the message as a live waiter. *)
Definition handled (user : AccountID) (msg : Message) (s : Swapper)
    (r : Res (option MsgError)) : Prop :=
  match r with
  | Ret None s' => exists n w, s' = waiting n user msg w s
  | Ret (Some _) s' => exists n, s' = asked n s
  | Panic _ s' => exists n, s' = asked n s
  end.

Lemma asked_0 s : s = asked 0 s.
Proof. by destruct s. Qed.

Lemma handleInit_handled (s : Swapper) user msg : handled user msg s (handleInit W user msg s).
Proof.
  unfold handled, handleInit. mrun.
  destruct (stop s); mrun; [exists 0%nat; apply asked_0|].
  destruct (unmarshalInit W (Payload msg)) as [params|]; mrun;
    [|exists 0%nat; apply asked_0].
  destruct (wAuth W (tick s) user _ _); mrun; [|by exists 1%nat].
  destruct (bool_decide (length (initMatchID params) = MatchIDSize)); mrun;
    [|by exists 1%nat].
  pose proof (step_final (upd_tick S s) user (matchIDOfBytes (initMatchID params))) as Hst.
  destruct (step W user (matchIDOfBytes (initMatchID params)) (upd_tick S s))
    as [[stepInfo|e] s1|r s1]; simpl in Hst; subst s1; mrun;
    [|by exists 1%nat|by exists 1%nat].
  destruct (heap s !! siMatch stepInfo) as [mt|] eqn:Hl; mrun; [|by exists 1%nat].
  destruct (Status (mtMatch mt)); mrun; try (by exists 1%nat);
    (destruct (wValidateCoinID W _ _ _) as [coinStr|]; mrun; [|by exists 2%nat]);
    (destruct (wValidateContract W _ _ _); mrun; [|by exists 3%nat]);
    rewrite Hl; mrun; by (eexists 5%nat, _).
Qed.

Lemma handleRedeem_handled (s : Swapper) user msg :
  handled user msg s (handleRedeem W user msg s).
Proof.
  unfold handled, handleRedeem. mrun.
  destruct (stop s); mrun; [exists 0%nat; apply asked_0|].
  destruct (unmarshalRedeem W (Payload msg)) as [params|]; mrun;
    [|exists 0%nat; apply asked_0].
  destruct (wAuth W (tick s) user _ _); mrun; [|by exists 1%nat].
  destruct (bool_decide (length (redeemMatchID params) = MatchIDSize)); mrun;
    [|by exists 1%nat].
  pose proof (step_final (upd_tick S s) user (matchIDOfBytes (redeemMatchID params))) as Hst.
  destruct (step W user (matchIDOfBytes (redeemMatchID params)) (upd_tick S s))
    as [[stepInfo|e] s1|r s1] eqn:Hstep; simpl in Hst; subst s1; mrun;
    [|by exists 1%nat|by exists 1%nat].
  destruct (step_tracker _ _ _ _ _ Hstep) as (mt & Hl). simpl in Hl.
  destruct (wValidateCoinID W _ _ _) as [coinStr|]; mrun; [|by exists 2%nat].
  rewrite Hl. mrun.
  by (eexists 4%nat, _).
Qed.

(** X14. A handler registers a coin waiter exactly when it accepts the message.
    [handleInit] and [handleRedeem] touch nothing but the queue of coin
    waiters and the record of live waiters: when they return an error, or
    panic, they have only asked questions; when they return nil they have
    appended one waiter to the queue and recorded the message under its id
    and user.  A stopping swapper refuses with TryAgainLaterError before it
    asks anything. *)
Theorem handlers_register_iff_accepted (s : Swapper) (user : AccountID) (msg : Message) :
  handled user msg s (handleInit W user msg s)
  /\ handled user msg s (handleRedeem W user msg s)
  /\ (stop s = true ->
      handleInit W user msg s = Ret (Some errStopping) s
      /\ handleRedeem W user msg s = Ret (Some errStopping) s).
Proof.
  split; [apply handleInit_handled|]. split; [apply handleRedeem_handled|].
  intros Hstop. unfold handleInit, handleRedeem. mrun. by rewrite Hstop.
Qed.

(** The event a redeem waits on: the maker's redeem for the taker's redeem,
    the confirmation of the taker's swap otherwise. *)
Definition redeemLastEvent (mt : matchTracker) : Time :=
  match Status (mtMatch mt) with
  | MakerRedeemed => redeemTime (makerStatus mt)
  | _ => swapConfirmed (takerStatus mt)
  end.

(** X15. A redeem that [handleRedeem] accepts is from the acting party of a
    registered match that is not complete, and registers one coin waiter.
    With [lastEvent] the time the maker's redeem was seen at MakerRedeemed,
    and the confirmation time of the taker's swap at any other status, the
    waiter expires at [min(now + txWaitExpiration, lastEvent +
    broadcastTimeout)] when [lastEvent] is set, and at
    [now + txWaitExpiration] when it is the zero time. *)
Theorem handleRedeem_waiter_expiry (s s' : Swapper) (user : AccountID) (msg : Message) :
  handleRedeem W user msg s = Ret None s' ->
  exists params l mt stepInfo coinStr,
    unmarshalRedeem W (Payload msg) = Some params
    /\ matches s !! matchIDOfBytes (redeemMatchID params) = Some l
    /\ heap s !! l = Some mt
    /\ Status (mtMatch mt) <> MatchComplete
    /\ user = (if makerActs (Status (mtMatch mt)) then makerUser mt else takerUser mt)
    /\ let lastEvent := redeemLastEvent mt in
       let now := wNow W (tick s + 2) in
       let expiry :=
         if IsZero lastEvent then now + txWaitExpiration s
         else Z.min (now + txWaitExpiration s) (lastEvent + bTimeout s) in
       latencyQ s'
       = latencyQ s ++ [mkWaiter expiry (RedeemWaiter user msg params stepInfo coinStr)].
Proof.
  unfold handleRedeem. mrun.
  destruct (stop s); [done|].
  destruct (unmarshalRedeem W (Payload msg)) as [params|] eqn:Hparse; [|done]. mrun.
  destruct (wAuth W (tick s) user _ _); mrun; [|done].
  destruct (bool_decide (length (redeemMatchID params) = MatchIDSize)); mrun; [|done].
  destruct (step W user (matchIDOfBytes (redeemMatchID params)) (upd_tick S s))
    as [[stepInfo|e] s1|] eqn:Hstep; mrun; [|done|done].
  assert (exists l mt, matches s !! matchIDOfBytes (redeemMatchID params) = Some l
                       /\ heap s !! l = Some mt) as (l & mt & Hm & Hl).
  { revert Hstep. unfold step. mrun.
    destruct (matches s !! matchIDOfBytes (redeemMatchID params)) as [l|]; [|done].
    mrun. destruct (heap s !! l) as [mt|] eqn:Hl; [|done]. eauto. }
  pose proof (step_returns W (upd_tick S s) s1 user _ l mt stepInfo Hm Hl Hstep) as Hs.
  cbv zeta in Hs.
  destruct Hs as (-> & Hsi & Hstp & Hne & _ & _ & _ & _ & _ & _ & _ & _ & Hau & _ & _ & _ & _
                  & _ & Hat).
  mrun. destruct (wValidateCoinID W _ _ _) as [coinStr|]; mrun; [|done].
  rewrite Hsi, Hl. mrun. rewrite Hstp.
  intros Heq; injection Heq as <-; simpl.
  exists params, l, mt, stepInfo, coinStr.
  split; [done|]. split; [done|]. split; [done|]. split; [done|].
  split; [by rewrite <- Hau, Hat|].
  unfold redeemLastEvent, redeemSeenTime, swapConfTime. rewrite waiterExpiration_spec.
  replace (tick s + 2)%nat with (S (S (tick s))) by lia.
  destruct (Status (mtMatch mt)); try done; reflexivity.
Qed.

(** X16. [step] does not change the state, whatever it returns.  It answers
    RPCUnknownMatch for a match that is not registered, and
    SettlementSequenceError for a match that is complete and for a user who
    is not the party the match's status waits for (the maker at NewlyMatched
    and TakerSwapCast, the taker at MakerSwapCast and MakerRedeemed). *)
Theorem step_rejects (s : Swapper) (user : AccountID) (mid : MatchID) :
  final (step W user mid s) = s
  /\ (matches s !! mid = None -> step W user mid s = Ret (inr errUnknownMatch) s)
  /\ (forall l mt,
        matches s !! mid = Some l -> heap s !! l = Some mt ->
        (Status (mtMatch mt) = MatchComplete ->
         step W user mid s = Ret (inr errUnknownSequence) s)
        /\ (Status (mtMatch mt) <> MatchComplete ->
            user <> (if makerActs (Status (mtMatch mt)) then makerUser mt else takerUser mt) ->
            step W user mid s = Ret (inr errOtherParty) s)).
Proof.
  split; [apply step_final|]. split.
  - intros Hm. unfold step. mrun. by rewrite Hm.
  - intros l mt Hm Hl. unfold step, stepParties, makerUser, takerUser. mrun.
    rewrite Hm. mrun. rewrite Hl. mrun. split.
    + intros ->. reflexivity.
    + intros Hst Hu. destruct (Status (mtMatch mt)); try done; simpl in *;
        rewrite (bool_decide_eq_false_2 (_ = user)) by congruence; reflexivity.
Qed.

End Frames.
(** ** The coin waiters at work *)

(** The key under which a waiter's message is recorded as live. *)
Definition waiterKey (w : Waiter) : N * AccountID :=
  match waiterFuncs w with
  | InitWaiter user msg _ _ _ | RedeemWaiter user msg _ _ _ => (msgID msg, user)
  end.

Definition isSwapSuccess (e : Event) : bool :=
  match e with EvSwapSuccess _ _ _ _ => true | _ => false end.

Definition isRedemptionRequest (e : Event) : bool :=
  match e with EvRequestRedemption _ _ _ _ _ _ _ => true | _ => false end.

Section CoinWaiters.

Variable W : World.

Lemma processInit_keeps_waiters msg params stepInfo :
  preserves (fun s => (liveWaiters s, latencyQ s)) (processInit W msg params stepInfo).
Proof. unfold processInit. preserves_auto. Qed.

Lemma processRedeem_keeps_waiters msg params stepInfo :
  preserves (fun s => (liveWaiters s, latencyQ s)) (processRedeem W msg params stepInfo).
Proof.
  unfold processRedeem, deleteMatch. preserves_auto.
Qed.

(** X17. The record of a live waiter lasts as long as its waiter.  [tryFunc]
    removes the record of its message exactly when it reports the waiter done
    (DontTryAgain) and leaves the records alone when the waiter is to be
    tried again; [expireFunc] removes it and answers the client with
    TransactionUndiscovered, touching nothing else.  Neither changes the
    queue of waiters. *)
Theorem tryFunc_drops_live_waiter_when_done (w : Waiter) (s : Swapper) :
  (forall d s', tryFunc W w s = Ret d s' ->
     liveWaiters s'
     = match d with
       | DontTryAgain => delete (waiterKey w) (liveWaiters s)
       | TryAgain => liveWaiters s
       end
     /\ latencyQ s' = latencyQ s)
  /\ exists errMsg,
       expireFunc w s
       = Ret tt (upd_trace (fun t => t ++ [EvRespondError (fst (waiterKey w)) (snd (waiterKey w))
                                            TransactionUndiscovered errMsg])
                   (upd_liveWaiters (delete (waiterKey w)) s)).
Proof.
  split.
  - intros d s'. unfold tryFunc, waiterKey.
    destruct (waiterFuncs w) as [user msg params stepInfo coinStr
                                |user msg params stepInfo coinStr].
    + pose proof (processInit_keeps_waiters msg params stepInfo s) as Hk.
      unfold bind at 1.
      destruct (processInit W msg params stepInfo s) as [[|] s1|r s1]; [| |done];
        simpl in Hk; mrun; intros [= <- <-]; simpl; by injection Hk as -> ->.
    + pose proof (processRedeem_keeps_waiters msg params stepInfo s) as Hk.
      unfold bind at 1.
      destruct (processRedeem W msg params stepInfo s) as [[|] s1|r s1]; [| |done];
        simpl in Hk; mrun; intros [= <- <-]; simpl; by injection Hk as -> ->.
  - unfold expireFunc, waiterKey. destruct (waiterFuncs w); eexists; reflexivity.
Qed.

(** X18. When a coin waiter is tried again.  [processInit] returns TryAgain only
    when the backend does not find the contract's coin, and then has done
    nothing but ask for it, or when the contract was found acceptable and
    storing it failed, and then has answered UnknownMarketError and changed
    no tracker.  [processRedeem] returns TryAgain only when the backend does
    not find the redeem coin, and then has done nothing but ask two
    questions. *)
Theorem coin_waiters_retry (s s' : Swapper) (msg : Message) (stepInfo : stepInformation) :
  (forall params,
     processInit W msg params stepInfo s = Ret TryAgain s' ->
     let chain := Backend (siAsset stepInfo) in
     (wContract W (tick s) chain (initCoinID params) (initContract params) = CoinNotFoundError
      /\ s' = upd_tick S s)
     \/ (exists c mid ms,
           wContract W (tick s) chain (initCoinID params) (initContract params) = Found c
           /\ dbFailed (wSaveContract W (S (S (tick s))) (isMaker (actor stepInfo)) mid
                          (initContract params) (initCoinID params) ms) = true
           /\ heap s' = heap s /\ matches s' = matches s /\ orders s' = orders s
           /\ newEvents s s'
              = [EvSaveContract (isMaker (actor stepInfo)) mid (initContract params)
                   (initCoinID params) ms;
                 EvRespondError (msgID msg) (actorUser (actor stepInfo)) UnknownMarketError
                   "internal server error"]))
  /\
  (forall params,
     processRedeem W msg params stepInfo s = Ret TryAgain s' ->
     s' = upd_tick S (upd_tick S s)
     /\ exists mt cpSwap,
          heap s !! siMatch stepInfo = Some mt
          /\ swap (statusOf (actorStatus (counterParty stepInfo)) mt) = Some cpSwap
          /\ wRedemption W (S (tick s)) (Backend (siAsset stepInfo)) (redeemCoinID params)
               (contractID cpSwap) = CoinNotFoundError).
Proof.
  split.
  - intros params. unfold processInit. mrun.
    destruct (heap s !! siMatch stepInfo) as [mt|] eqn:Hl; mrun; [|done].
    destruct (wContract W (tick s) _ _ _) as [c| |] eqn:Hc; mrun; [| |done].
    + destruct (_ <? _)%N; mrun; [done|].
      destruct (negb (bool_decide (contractSwapAddress c = _))); mrun; [done|].
      destruct (negb (bool_decide (contractValue c = _))); mrun; [done|].
      destruct (Before _ _); mrun; [done|].
      destruct (dbFailed _) eqn:Hdb; mrun.
      * intros [= <-]. right. eexists c, _, _. split; [done|]. split; [exact Hdb|].
        split; [done|]. split; [done|]. split; [done|]. read_trace. reflexivity.
      * destruct (matches s !! _); mrun; done.
    + intros [= <-]. by left.
  - intros params. unfold processRedeem. mrun.
    destruct (heap s !! siMatch stepInfo) as [mt|] eqn:Hl; mrun; [|done].
    destruct (swap (statusOf (actorStatus (counterParty stepInfo)) mt)) as [cpSwap|] eqn:Hsw;
      mrun; [|done].
    destruct (wValidateSecret W (tick s) _ _ _); mrun; [|done].
    destruct (wRedemption W (S (tick s)) _ _ _) as [red| |] eqn:Hred; mrun; [| |done].
    + destruct (matches s !! _); mrun; [|done].
      unfold deleteMatch. mrun.
      repeat (mrun; rewrite ?lookup_alter_eq, ?Hl; try mcase); done.
    + intros [= <-]. split; [done|]. eauto.
Qed.

End CoinWaiters.

Section Negotiation.

Variable W : World.

(** X19. An acceptable contract moves the match on.  The contract of an init is
    found, pays the required fee rate, the counterparty and the expected
    value, and is locked long enough; it is stored, and the match is still
    registered.  Then [processInit] ends the waiter, having recorded the
    contract and its time with the acting party's swap status, advanced the
    match to the next status, answered the actor with an acknowledgement, and
    asked the counterparty to audit the contract within the broadcast
    timeout.  The registry and the order tracker are as before. *)
Theorem processInit_accepts (s : Swapper) (msg : Message) (params : Init)
    (stepInfo : stepInformation) (mt : matchTracker) (c : Contract) :
  heap s !! siMatch stepInfo = Some mt ->
  wContract W (tick s) (Backend (siAsset stepInfo)) (initCoinID params) (initContract params)
    = Found c ->
  ~ lowFeeRate stepInfo mt c ->
  ~ wrongRecipient stepInfo c ->
  ~ wrongValue stepInfo c ->
  ~ lockTimeTooShort W s stepInfo mt c ->
  let actor := actor stepInfo in
  let counterParty := counterParty stepInfo in
  let mid := matchID (mtMatch mt) in
  let swapTime := Truncate (wNow W (S (tick s))) Millisecond in
  let ms := UnixMilli W swapTime in
  dbFailed (wSaveContract W (S (S (tick s))) (isMaker actor) mid (initContract params)
              (initCoinID params) ms) = false ->
  is_Some (matches s !! mid) ->
  exists s',
    processInit W msg params stepInfo s = Ret DontTryAgain s'
    /\ heap s' !! siMatch stepInfo
       = Some (setStatus (nextStep stepInfo)
                 (updStatusOf (actorStatus actor) (setSwap c swapTime) mt))
    /\ (forall l, l ≠ siMatch stepInfo -> heap s' !! l = heap s !! l)
    /\ matches s' = matches s /\ userMatches s' = userMatches s /\ orders s' = orders s
    /\ newEvents s s'
       = [EvSaveContract (isMaker actor) mid (initContract params) (initCoinID params) ms;
          EvRespondSuccess (msgID msg) (actorUser actor) mid;
          EvRequestAudit (actorUser counterParty) (ID (actorOrder counterParty)) mid ms
            (initCoinID params) (initContract params) (bTimeout s)].
Proof.
  intros Hl Hc Hfee Haddr Hval Hlock actor0 cp mid swapTime0 ms Hdb [l' Hm].
  subst actor0 cp mid swapTime0 ms.
  unfold lowFeeRate, wrongRecipient, wrongValue, lockTimeTooShort in *.
  unfold processInit. mrun. rewrite Hl. mrun. rewrite Hc. mrun.
  destruct (N.ltb_spec (contractFeeRate c)
              (if isBaseAsset stepInfo then FeeRateBase (mtMatch mt)
               else FeeRateQuote (mtMatch mt))) as [Hlt|_]; [done|]. mrun.
  rewrite (bool_decide_eq_true_2 (contractSwapAddress c = _))
    by (by destruct (decide (contractSwapAddress c
                             = ordSwapAddress (orderData (actorOrder (counterParty stepInfo)))))).
  mrun.
  rewrite (bool_decide_eq_true_2 (contractValue c = _))
    by (by destruct (decide (contractValue c = checkVal stepInfo))).
  mrun.
  assert (Hb : Before (contractLockTime c)
                 (if isMaker (actor stepInfo)
                  then DropMilliseconds W (timeAdd (matchTime mt) (lockTimeMaker s))
                  else DropMilliseconds W (timeAdd (matchTime mt) (lockTimeTaker s)))
               = false).
  { unfold Before. apply Z.ltb_ge. destruct (isMaker (actor stepInfo)); lia. }
  rewrite Hb. mrun. rewrite Hdb. mrun. rewrite Hm. mrun.
  eexists. split; [reflexivity|]. simpl.
  split; [by rewrite !lookup_alter_eq, Hl|].
  split; [intros l Hne; by rewrite !lookup_alter_ne|].
  split; [done|]. split; [done|]. split; [done|].
  read_trace. reflexivity.
Qed.

(** X20. A coin located after the match was revoked changes no tracker.  When the
    match is no longer registered, [processInit] ends the waiter with a
    ContractError response, having stored the contract, and [processRedeem]
    ends it with a RedemptionError response, having stored nothing; the
    trackers, the registry and the order tracker are as before. *)
Theorem late_coin_changes_no_tracker (s : Swapper) (msg : Message)
    (stepInfo : stepInformation) (mt : matchTracker) :
  heap s !! siMatch stepInfo = Some mt ->
  matches s !! matchID (mtMatch mt) = None ->
  let actor := actor stepInfo in
  let mid := matchID (mtMatch mt) in
  (forall params c,
     wContract W (tick s) (Backend (siAsset stepInfo)) (initCoinID params)
       (initContract params) = Found c ->
     ~ lowFeeRate stepInfo mt c -> ~ wrongRecipient stepInfo c -> ~ wrongValue stepInfo c ->
     ~ lockTimeTooShort W s stepInfo mt c ->
     let ms := UnixMilli W (Truncate (wNow W (S (tick s))) Millisecond) in
     dbFailed (wSaveContract W (S (S (tick s))) (isMaker actor) mid (initContract params)
                 (initCoinID params) ms) = false ->
     exists s',
       processInit W msg params stepInfo s = Ret DontTryAgain s'
       /\ heap s' = heap s /\ matches s' = matches s /\ orders s' = orders s
       /\ newEvents s s'
          = [EvSaveContract (isMaker actor) mid (initContract params) (initCoinID params) ms;
             EvRespondError (msgID msg) (actorUser actor) ContractError
               "match already revoked due to inaction"])
  /\
  (forall params cpSwap redemption,
     swap (statusOf (actorStatus (counterParty stepInfo)) mt) = Some cpSwap ->
     wValidateSecret W (tick s) (Backend (siAsset stepInfo)) (redeemSecret params)
       (contractRedeemScript cpSwap) = true ->
     wRedemption W (S (tick s)) (Backend (siAsset stepInfo)) (redeemCoinID params)
       (contractID cpSwap) = Found redemption ->
     exists s',
       processRedeem W msg params stepInfo s = Ret DontTryAgain s'
       /\ heap s' = heap s /\ matches s' = matches s /\ orders s' = orders s
       /\ newEvents s s'
          = [EvRespondError (msgID msg) (actorUser actor) RedemptionError
               "match already revoked due to inaction"]).
Proof.
  intros Hl Hm actor0 mid. subst actor0 mid. split.
  - intros params c Hc Hfee Haddr Hval Hlock ms Hdb. subst ms.
    unfold lowFeeRate, wrongRecipient, wrongValue, lockTimeTooShort in *.
    unfold processInit. mrun. rewrite Hl. mrun. rewrite Hc. mrun.
    destruct (N.ltb_spec (contractFeeRate c)
                (if isBaseAsset stepInfo then FeeRateBase (mtMatch mt)
                 else FeeRateQuote (mtMatch mt))) as [Hlt|_]; [done|]. mrun.
    rewrite (bool_decide_eq_true_2 (contractSwapAddress c = _))
      by (by destruct (decide (contractSwapAddress c
                               = ordSwapAddress
                                   (orderData (actorOrder (counterParty stepInfo)))))).
    mrun.
    rewrite (bool_decide_eq_true_2 (contractValue c = _))
      by (by destruct (decide (contractValue c = checkVal stepInfo))).
    mrun.
    assert (Hb : Before (contractLockTime c)
                   (if isMaker (actor stepInfo)
                    then DropMilliseconds W (timeAdd (matchTime mt) (lockTimeMaker s))
                    else DropMilliseconds W (timeAdd (matchTime mt) (lockTimeTaker s)))
                 = false).
    { unfold Before. apply Z.ltb_ge. destruct (isMaker (actor stepInfo)); lia. }
    rewrite Hb. mrun. rewrite Hdb. mrun. rewrite Hm. mrun.
    eexists. split; [reflexivity|]. simpl.
    split; [done|]. split; [done|]. split; [done|]. read_trace. reflexivity.
  - intros params cpSwap redemption Hsw Hsec Hred.
    unfold processRedeem. mrun. rewrite Hl. mrun. rewrite Hsw. mrun. rewrite Hsec. mrun.
    rewrite Hred. mrun. rewrite Hm. mrun.
    eexists. split; [reflexivity|]. simpl.
    split; [done|]. split; [done|]. split; [done|]. read_trace. reflexivity.
Qed.

(** X21. The maker's redeem.  At TakerSwapCast the maker's redeem with a valid
    secret and a redeem coin the backend finds advances the match to
    MakerRedeemed and leaves it registered.  The maker's order has its active
    swaps decremented with [failed = false], and the order tracker changes in
    no other way.  The maker is credited with a successful swap unless maker
    and taker are the same user (who is credited on the taker's redeem).  The
    taker is then sent the redemption request, with the secret, unless the
    maker's order completed and storing its completion time failed with a
    general failure. *)
Theorem processRedeem_maker_redeem (s : Swapper) user mid (l : loc) (mt : matchTracker)
    msg params stepInfo cpSwap redemption :
  matches s !! mid = Some l ->
  heap s !! l = Some mt ->
  matchID (mtMatch mt) = mid ->
  step W user mid s = Ret (inl stepInfo) s ->
  Status (mtMatch mt) = TakerSwapCast ->
  swap (takerStatus mt) = Some cpSwap ->
  wValidateSecret W (tick s) (Backend (siAsset stepInfo)) (redeemSecret params)
    (contractRedeemScript cpSwap) = true ->
  wRedemption W (S (tick s)) (Backend (siAsset stepInfo)) (redeemCoinID params)
    (contractID cpSwap) = Found redemption ->
  let m := mtMatch mt in
  let maker := makerUser mt in
  let taker := takerUser mt in
  let dec := decrementActiveSwapCount (OLimit (Maker m)) false (orders s) in
  let redeemTime := Truncate (wNow W (S (S (tick s)))) Millisecond in
  let ms := UnixMilli W redeemTime in
  let fatal := fst dec && IsErrGeneralFailure
                            (wSetOrderCompleteTime W (S (S (S (S (tick s)))))
                               (ID (OLimit (Maker m))) ms) in
  exists s',
    processRedeem W msg params stepInfo s = Ret DontTryAgain s'
    /\ matches s' = matches s /\ userMatches s' = userMatches s
    /\ heap s' !! l
       = Some (setStatus MakerRedeemed
                 (updStatusOf MakerSide (setRedemption redemption redeemTime) mt))
    /\ orders s' = snd dec
    /\ filter (fun e => isSwapSuccess e = true) (newEvents s s')
       = (if bool_decide (maker = taker) then []
          else [EvSwapSuccess maker mid (Quantity m) redeemTime])
    /\ exists timeout,
         filter (fun e => isRedemptionRequest e = true) (newEvents s s')
         = (if fatal then []
            else [EvRequestRedemption taker (ID (Taker m)) mid ms (redeemCoinID params)
                    (redeemSecret params) timeout]).
Proof.
  intros Hm Hl Hid Hstep Hst Hswap Hsecret Hred m maker taker dec redeemTime0 ms fatal.
  pose proof (step_returns W s s user mid l mt stepInfo Hm Hl Hstep) as Hs.
  cbv zeta in Hs.
  destruct Hs as (_ & Hsi & _ & Hne & _ & _ & _ & _ & HisM & _ & HaS & HcS & Hau & _ & Hco
                  & Hcu & Hnx & _ & Hat).
  rewrite Hst in *. simpl in *.
  unfold processRedeem. mrun. rewrite Hsi, Hl. mrun. rewrite HcS. simpl. rewrite Hswap. mrun.
  rewrite Hsecret. mrun. rewrite Hred. mrun. rewrite Hid, Hm. mrun.
  rewrite Hnx. mrun.
  rewrite HaS. mrun. rewrite HisM. mrun. rewrite Hat, Hcu, Hco.
  subst fatal dec redeemTime0 ms taker maker m. unfold makerUser, takerUser.
  rewrite orb_false_r.
  destruct (decrementActiveSwapCount (OLimit (Maker (mtMatch mt))) false (orders s))
    as [complete o] eqn:Hdec.
  destruct (bool_decide (ordUser (loData (Maker (mtMatch mt))) = User (Taker (mtMatch mt))));
    destruct complete; mrun; rewrite ?Hdec; mrun;
    try match goal with
        | |- context [IsErrGeneralFailure ?x] => destruct (IsErrGeneralFailure x)
        end; mrun;
    (eexists; split; [reflexivity|]); mrun; rewrite ?lookup_alter_eq, ?Hl; mrun;
    (split; [done|]); (split; [done|]); (split; [done|]); (split; [done|]);
    read_trace; simpl; (split; [done|]);
    first [ exists 0; simpl; reflexivity | eexists; simpl; reflexivity ].
Qed.

End Negotiation.
(** ** Restoring the state, and the constructor *)

Lemma findMissingAssets_strict (ids : list AssetID) (coins : gmap AssetID BackedAsset) :
  forall missing,
    findMissingAssets ids coins false missing = None
    <-> exists id, id ∈ ids /\ coins !! id = None.
Proof.
  induction ids as [|id ids IH]; intros missing; simpl.
  - split; [done|]. intros (id & Hin & _). by apply elem_of_nil in Hin.
  - destruct (coins !! id) as [a|] eqn:Hid; simpl.
    + rewrite IH. split.
      * intros (id' & Hin & Hnone). exists id'. split; [by apply list_elem_of_further | done].
      * intros (id' & Hin & Hnone). apply elem_of_cons in Hin as [->|Hin]; [congruence|].
        eauto.
    + split; [|done]. intros _. exists id. split; [apply list_elem_of_here | done].
Qed.

Lemma findMissingAssets_partial (ids : list AssetID) (coins : gmap AssetID BackedAsset) :
  forall missing,
    exists found,
      findMissingAssets ids coins true missing = Some found
      /\ forall id, id ∈ found <-> id ∈ missing \/ (id ∈ ids /\ coins !! id = None).
Proof.
  induction ids as [|id ids IH]; intros missing; simpl.
  - exists missing. split; [done|]. intros id. split; [by left|].
    intros [?|[Hin _]]; [done|]. by apply elem_of_nil in Hin.
  - destruct (coins !! id) as [a|] eqn:Hid; simpl.
    + destruct (IH missing) as (found & Hf & Hiff). exists found. split; [done|].
      intros id'. rewrite Hiff. split.
      * intros [?|[Hin Hnone]]; [by left | right]. split; [by apply list_elem_of_further|done].
      * intros [?|[Hin Hnone]]; [by left|].
        apply elem_of_cons in Hin as [->|Hin]; [congruence|]. right. done.
    + destruct (IH ({[id]} ∪ missing)) as (found & Hf & Hiff). exists found. split; [done|].
      intros id'. rewrite Hiff. rewrite elem_of_union, elem_of_singleton. split.
      * intros [[->|?]|[Hin Hnone]].
        -- right. split; [apply list_elem_of_here | done].
        -- by left.
        -- right. split; [by apply list_elem_of_further | done].
      * intros [?|[Hin Hnone]]; [left; by right|].
        apply elem_of_cons in Hin as [->|Hin]; [left; by left|]. right. done.
Qed.

Lemma findMissingAssets_strict_some (ids : list AssetID) (coins : gmap AssetID BackedAsset) :
  forall missing found,
    findMissingAssets ids coins false missing = Some found ->
    found = missing /\ forall id, id ∈ ids -> is_Some (coins !! id).
Proof.
  induction ids as [|id ids IH]; intros missing found; simpl.
  - intros [= <-]. split; [done|]. intros id Hin. by apply elem_of_nil in Hin.
  - destruct (coins !! id) as [a|] eqn:Hid; simpl; [|done].
    intros Hf. destruct (IH _ _ Hf) as [-> Hall]. split; [done|].
    intros id' Hin. apply elem_of_cons in Hin as [->|Hin]; [by rewrite Hid | by apply Hall].
Qed.

(** What [restoreState] makes of a saved tracker: the match, the epoch end
    as match time, the maker's assets as saved and the taker's the other way
    round, neither asset being one the state needs and the swapper lacks. *)
Definition restoredFrom (s : Swapper) (state : State) (mtd : matchTrackerData)
    (mt : matchTracker) : Prop :=
  let makerSwap := SwapAsset (MakerStatus mtd) in
  let makerRedeem := RedeemAsset (MakerStatus mtd) in
  mtMatch mt = mtdMatch mtd
  /\ matchTime mt = EpochEnd (mtdMatch mtd)
  /\ swapAsset (makerStatus mt) = makerSwap /\ redeemAsset (makerStatus mt) = makerRedeem
  /\ swapAsset (takerStatus mt) = makerRedeem /\ redeemAsset (takerStatus mt) = makerSwap
  /\ (makerSwap ∈ Assets state -> is_Some (coins s !! makerSwap))
  /\ (makerRedeem ∈ Assets state -> is_Some (coins s !! makerRedeem)).

Lemma registryConsistent_ext (s s' : Swapper) :
  matches s' = matches s -> userMatches s' = userMatches s ->
  (forall l mt, heap s !! l = Some mt -> heap s' !! l = Some mt) ->
  registryConsistent s -> registryConsistent s'.
Proof.
  intros Hm Hu Hh (Hwf & Hidx & Hne). split; [|split].
  - intros mid l. rewrite Hm. intros Hl. destruct (Hwf mid l Hl) as (mt & Hmt & Hid).
    exists mt. split; [by apply Hh | done].
  - intros u mid l. unfold userIndex. rewrite Hu, Hm.
    specialize (Hidx u mid l). unfold userIndex in Hidx. rewrite Hidx. split.
    + intros [Hl (mt & Hmt & Hp)]. split; [done|]. exists mt. split; [by apply Hh | done].
    + intros [Hl (mt & Hmt & Hp)]. split; [done|].
      destruct (Hwf mid l Hl) as (mt0 & Hmt0 & _). exists mt0. split; [done|].
      apply Hh in Hmt0. congruence.
  - intros u um. rewrite Hu. apply Hne.
Qed.

Section Startup.

Variable W : World.

(** X22. Without leave to restore in part, a state that needs an asset the
    swapper does not have is refused, and the swapper is not touched: the
    registry it had is still there. *)
Theorem restoreState_needs_every_asset (s : Swapper) (state : State) :
  (exists id, id ∈ Assets state /\ coins s !! id = None) ->
  exists err, restoreState W state false s = Ret (Some err) s.
Proof.
  intros Hmissing. unfold restoreState. mrun.
  apply (findMissingAssets_strict (Assets state) (coins s) ∅) in Hmissing.
  rewrite Hmissing. eauto.
Qed.

Lemma translateSwapStatus_spec (s s' : Swapper) ss ssd cp r :
  translateSwapStatus W ss ssd cp s = Ret r s' ->
  (exists n, s' = asked n s)
  /\ forall ss', r = Some ss' ->
       swapAsset ss' = swapAsset ss /\ redeemAsset ss' = redeemAsset ss.
Proof.
  unfold translateSwapStatus, backendOf. mrun.
  destruct (0 <? length (ContractCoinOut ssd))%nat; mrun.
  - destruct (coins s !! SwapAsset ssd) as [a|]; mrun; [|done].
    destruct (wContract W (tick s) _ _ _) as [c| |]; mrun;
      try (intros [= <- <-]; split; [by exists 1%nat | done]).
    destruct (0 <? length (RedeemCoinIn ssd))%nat; mrun.
    + destruct (coins s !! RedeemAsset ssd) as [a2|]; mrun; [|done].
      destruct (wRedemption W (S (tick s)) _ _ _) as [c2| |]; mrun;
        intros [= <- <-]; (split; [by exists 2%nat|]); intros ss' [= <-];
        by destruct (negb (SwapConfirmTime ssd =? 0)).
    + intros [= <- <-]. split; [by exists 1%nat|]. intros ss' [= <-].
      by destruct (negb (SwapConfirmTime ssd =? 0)).
  - destruct (0 <? length (RedeemCoinIn ssd))%nat; mrun.
    + destruct (coins s !! RedeemAsset ssd) as [a2|]; mrun; [|done].
      destruct (wRedemption W (tick s) _ _ _) as [c2| |]; mrun;
        intros [= <- <-]; (split; [by exists 1%nat|]); intros ss' [= <-];
        by destruct (negb (SwapConfirmTime ssd =? 0)).
    + intros [= <- <-]. split; [exists 0%nat; apply asked_0|]. intros ss' [= <-].
      by destruct (negb (SwapConfirmTime ssd =? 0)).
Qed.

(** The invariant of the loop of [restoreState] over the saved trackers,
    after the entries [processed]. *)
Definition restoring (s0 : Swapper) (state : State)
    (processed : list (MatchID * matchTrackerData)) (s : Swapper) : Prop :=
  registryConsistent s
  /\ (forall mid l, matches s !! mid = Some l ->
        exists mtd mt, (mid, mtd) ∈ processed /\ heap s !! l = Some mt
                       /\ restoredFrom s0 state mtd mt)
  /\ (forall l mt, heap s0 !! l = Some mt -> heap s !! l = Some mt)
  /\ coins s = coins s0 /\ orders s = orders s0.

Lemma restoring_asked s0 state processed n s :
  restoring s0 state processed s -> restoring s0 state processed (asked n s).
Proof.
  intros (Hc & Hp & Hh & Hco & Ho). split; [|done].
  eapply (registryConsistent_ext s); done.
Qed.

Lemma restoreMatch_round (s0 s s' : Swapper) state missing processed k mtd :
  (forall id, id ∈ missing <-> id ∈ Assets state /\ coins s0 !! id = None) ->
  restoring s0 state processed s ->
  matchID (mtdMatch mtd) = k ->
  (forall mtd', (k, mtd') ∉ processed) ->
  restoreMatch W missing (k, mtd) tt s = Ret tt s' ->
  restoring s0 state (processed ++ [(k, mtd)]) s'.
Proof.
  intros Hmissing Hinv Hid Hfresh.
  assert (Hmono : forall s1, restoring s0 state processed s1 ->
                             restoring s0 state (processed ++ [(k, mtd)]) s1).
  { intros s1 (Hc & Hp & Hrest). split; [done|]. split; [|done].
    intros mid l Hl. destruct (Hp mid l Hl) as (mtd' & mt & Hin & Hx).
    exists mtd', mt. split; [|done]. apply elem_of_app. by left. }
  unfold restoreMatch. cbn [snd].
  destruct (bool_decide (SwapAsset (MakerStatus mtd) ∈ missing)) eqn:Hms;
    [intros [= <-]; by apply Hmono|].
  destruct (bool_decide (RedeemAsset (MakerStatus mtd) ∈ missing)) eqn:Hmr;
    [intros [= <-]; by apply Hmono|].
  apply bool_decide_eq_false in Hms, Hmr.
  unfold bind at 1.
  destruct (translateSwapStatus W _ (MakerStatus mtd) _ s) as [[mk|] s1|] eqn:Ht1; [| |done].
  2:{ destruct (translateSwapStatus_spec _ _ _ _ _ _ Ht1) as [[n ->] _].
      intros [= <-]. apply Hmono. by apply restoring_asked. }
  destruct (translateSwapStatus_spec _ _ _ _ _ _ Ht1) as [[n ->] Hmk].
  destruct (Hmk mk eq_refl) as [Hmk1 Hmk2]. simpl in Hmk1, Hmk2.
  unfold bind at 1.
  destruct (translateSwapStatus W _ (TakerStatus mtd) _ (asked n s)) as [[tk|] s2|] eqn:Ht2;
    [| |done].
  2:{ destruct (translateSwapStatus_spec _ _ _ _ _ _ Ht2) as [[n2 ->] _].
      intros [= <-]. apply Hmono. by do 2 apply restoring_asked. }
  destruct (translateSwapStatus_spec _ _ _ _ _ _ Ht2) as [[n2 ->] Htk].
  destruct (Htk tk eq_refl) as [Htk1 Htk2]. simpl in Htk1, Htk2.
  set (mt := mkMatchTracker (mtdMatch mtd) (UnixTimeMilli W (mtdTime mtd))
               (EpochEnd (mtdMatch mtd)) mk tk).
  assert (Hinv2 : restoring s0 state processed (asked n2 (asked n s)))
    by (by do 2 apply restoring_asked).
  set (s2 := asked n2 (asked n s)) in *.
  unfold bind at 1. unfold alloc. unfold bind at 1. unfold get at 1. cbv zeta.
  unfold bind at 1. unfold modify at 1. unfold ret at 1.
  set (l := fresh (dom (heap s2))).
  assert (Hl : heap s2 !! l = None).
  { apply not_elem_of_dom. apply is_fresh. }
  set (s3 := upd_heap (insert l mt) s2).
  assert (Hinv3 : restoring s0 state processed s3).
  { destruct Hinv2 as (Hc & Hp & Hh & Hco & Ho). split; [|split; [|split; [|done]]].
    - eapply (registryConsistent_ext s2); try done.
      intros l' mt' Hl'. subst s3. cbn [heap upd_heap].
      rewrite lookup_insert_ne; [done|]. intros <-. congruence.
    - intros mid l' Hm'. destruct (Hp mid l' Hm') as (mtd' & mt' & Hin & Hl' & Hx).
      exists mtd', mt'. split; [done|]. split; [|done]. subst s3. cbn [heap upd_heap].
      rewrite lookup_insert_ne; [done|]. intros <-. congruence.
    - intros l' mt' Hl'. subst s3. cbn [heap upd_heap].
      rewrite lookup_insert_ne; [by apply Hh|]. intros <-. apply Hh in Hl'. congruence. }
  assert (Hl3 : heap s3 !! l = Some mt) by (subst s3; cbn [heap upd_heap]; apply lookup_insert_eq).
  assert (Hfresh3 : matches s3 !! matchID (mtMatch mt) = None).
  { destruct (matches s3 !! matchID (mtMatch mt)) as [l'|] eqn:Hm'; [|done].
    destruct Hinv3 as (_ & Hp & _). destruct (Hp _ _ Hm') as (mtd' & mt' & Hin & _).
    exfalso. apply (Hfresh mtd'). subst mt. cbn [mtMatch] in Hin. by rewrite Hid in Hin. }
  destruct (addMatch_consistent s3 l mt (proj1 Hinv3) Hl3 Hfresh3)
    as (s4 & Hadd & Hc4 & Hm4 & _ & _ & Hh4).
  rewrite Hadd. intros [= <-].
  destruct Hinv3 as (Hc & Hp & Hh & Hco & Ho).
  assert (Hrest4 : coins s4 = coins s3 /\ orders s4 = orders s3).
  { rewrite (addMatch_runs s3 l mt Hl3) in Hadd. by injection Hadd as <-. }
  split; [done|]. split; [|split; [|split]].
  - intros mid l'. rewrite Hm4, Hh4.
    destruct (decide (mid = matchID (mtMatch mt))) as [->|Hne].
    + rewrite lookup_insert_eq. intros [= <-]. exists mtd, mt.
      split; [apply elem_of_app; right; subst mt; cbn [mtMatch]; rewrite Hid;
              apply list_elem_of_here|].
      split; [done|]. subst mt. unfold restoredFrom. cbn [mtMatch matchTime makerStatus takerStatus].
      repeat split; try done.
      * intros Hin. destruct (coins s0 !! SwapAsset (MakerStatus mtd)) eqn:Hx; [eauto|].
        exfalso. apply Hms. apply Hmissing. done.
      * intros Hin. destruct (coins s0 !! RedeemAsset (MakerStatus mtd)) eqn:Hx; [eauto|].
        exfalso. apply Hmr. apply Hmissing. done.
    + rewrite lookup_insert_ne by done. intros Hm'.
      destruct (Hp mid l' Hm') as (mtd' & mt' & Hin & Hx).
      exists mtd', mt'. split; [apply elem_of_app; by left | done].
  - intros l' mt' Hl'. rewrite Hh4. by apply Hh.
  - destruct Hrest4 as [-> _]. done.
  - destruct Hrest4 as [_ ->]. done.
Qed.

Lemma restoreMatch_rounds (s0 : Swapper) state missing :
  (forall id, id ∈ missing <-> id ∈ Assets state /\ coins s0 !! id = None) ->
  forall (todo processed : list (MatchID * matchTrackerData)) s s',
    NoDup (map fst (processed ++ todo)) ->
    Forall (fun e => matchID (mtdMatch (snd e)) = fst e) todo ->
    restoring s0 state processed s ->
    forRange todo (restoreMatch W missing) tt s = Ret tt s' ->
    restoring s0 state (processed ++ todo) s'.
Proof.
  intros Hmissing. induction todo as [|[k mtd] todo IH]; intros processed s s' Hnd Hids Hinv.
  - intros [= <-]. by rewrite app_nil_r.
  - cbn [forRange]. unfold bind at 1.
    destruct (restoreMatch W missing (k, mtd) tt s) as [[] s1|] eqn:Hround; [|done].
    apply Forall_cons in Hids as [Hid Hids]. simpl in Hid.
    intros Hrun.
    replace (processed ++ (k, mtd) :: todo) with ((processed ++ [(k, mtd)]) ++ todo) in *
      by (by rewrite <- app_assoc).
    apply (IH _ s1 s'); try done.
    eapply restoreMatch_round; try done.
    intros mtd' Hin.
    rewrite <- app_assoc, fmap_app in Hnd. apply NoDup_app in Hnd as (_ & Hdisj & _).
    apply (Hdisj k).
    + apply list_elem_of_fmap. by exists (k, mtd').
    + cbn [app fmap list_fmap fst]. apply list_elem_of_here.
Qed.

Lemma restoreWaiter_keeps e acc :
  preserves (fun s => (matches s, userMatches s, heap s, orders s, coins s))
    (restoreWaiter W e acc).
Proof.
  unfold restoreWaiter, handleInit, handleRedeem, step. preserves_auto.
Qed.

(** X23. Restoring a saved state.  Let the saved trackers be keyed by the ids of
    their matches, as [saveState] writes them.  When [restoreState] returns
    nil, the registry is consistent; every registered match is a saved one,
    with its saved match, the taker's swap and redeem assets the maker's the
    other way round, and no asset that the state needs and the swapper lacks;
    the order tracker is the saved one; the trackers there were are still in
    place; and unless partial restores are allowed, the swapper has every
    asset the state needs. *)
Theorem restoreState_restores (s s' : Swapper) (state : State) (allowPartial : bool) :
  fairRange W ->
  (forall k mtd, MatchTrackers state !! k = Some mtd -> matchID (mtdMatch mtd) = k) ->
  restoreState W state allowPartial s = Ret None s' ->
  registryConsistent s'
  /\ (forall mid l, matches s' !! mid = Some l ->
        exists mtd mt, MatchTrackers state !! mid = Some mtd /\ heap s' !! l = Some mt
                       /\ restoredFrom s state mtd mt)
  /\ orders s' = OrderMatches state
  /\ (forall l mt, heap s !! l = Some mt -> heap s' !! l = Some mt)
  /\ (allowPartial = false -> forall id, id ∈ Assets state -> is_Some (coins s !! id)).
Proof.
  intros Hfair Hkeys. unfold restoreState. unfold bind at 1. unfold get at 1.
  destruct (findMissingAssets (Assets state) (coins s) allowPartial ∅) as [missing|] eqn:Hfind;
    [|done].
  assert (Hmissing : forall id, id ∈ missing <-> id ∈ Assets state /\ coins s !! id = None).
  { destruct allowPartial.
    - destruct (findMissingAssets_partial (Assets state) (coins s) ∅) as (found & Hf & Hiff).
      assert (found = missing) by congruence. subst found.
      intros id. rewrite Hiff. split; [|by right].
      intros [Hin|?]; [|done]. by apply elem_of_empty in Hin.
    - destruct (findMissingAssets_strict_some _ _ _ _ Hfind) as [-> Hall].
      intros id. split.
      + intros Hin. by apply elem_of_empty in Hin.
      + intros [Hin Hnone]. destruct (Hall id Hin) as [a Ha]. congruence. }
  assert (Hstrict : allowPartial = false ->
                    forall id, id ∈ Assets state -> is_Some (coins s !! id)).
  { intros ->. by destruct (findMissingAssets_strict_some _ _ _ _ Hfind) as [_ Hall]. }
  unfold bind at 1. unfold modify at 1. unfold bind at 1. unfold modify at 1.
  unfold bind at 1. unfold rangeMap at 1. unfold ask at 1.
  set (s1 := upd_tick S (upd_userMatches (fun _ => ∅) (upd_matches (fun _ => ∅) s))).
  set (trackers := wRange W _ _ (map_to_list (MatchTrackers state))).
  assert (Hperm : trackers ≡ₚ map_to_list (MatchTrackers state)) by apply Hfair.
  assert (Hinv1 : restoring s state [] s1).
  { split; [|split; [|done]].
    - split; [|split].
      + intros mid l Hl. subst s1. cbn [matches upd_tick upd_userMatches upd_matches] in Hl.
        by rewrite lookup_empty in Hl.
      + intros u mid l. unfold userIndex. subst s1.
        cbn [matches userMatches upd_tick upd_userMatches upd_matches].
        rewrite !lookup_empty. split; [done | by intros [? _]].
      + intros u um. subst s1. cbn [userMatches upd_tick upd_userMatches upd_matches].
        by rewrite lookup_empty.
    - intros mid l Hl. subst s1. cbn [matches upd_tick upd_userMatches upd_matches] in Hl.
      by rewrite lookup_empty in Hl. }
  unfold bind at 1.
  destruct (forRange trackers (restoreMatch W missing) tt s1) as [[] s2|] eqn:Hloop; [|done].
  assert (Hinv2 : restoring s state trackers s2).
  { apply (restoreMatch_rounds s state missing Hmissing trackers [] s1 s2); try done.
    - cbn [app]. rewrite Hperm. apply NoDup_fst_map_to_list.
    - apply Forall_forall. intros [k mtd] Hin. rewrite Hperm in Hin.
      apply elem_of_map_to_list in Hin. cbn [fst snd]. by apply Hkeys. }
  unfold bind at 1. unfold modify at 1. unfold bind at 1. unfold rangeMap at 1.
  unfold ask at 1. unfold bind at 1.
  set (s3 := upd_tick S (upd_orders (fun _ => OrderMatches state) s2)).
  match goal with
  | |- context [forRange ?ws (restoreWaiter W) tt s3] =>
      pose proof (preserves_forRange
                    (fun s => (matches s, userMatches s, heap s, orders s, coins s))
                    ws (restoreWaiter W) restoreWaiter_keeps tt s3) as Hkeep;
      destruct (forRange ws (restoreWaiter W) tt s3) as [[] s4|] eqn:Hloop2; [|done]
  end.
  simpl in Hkeep. injection Hkeep as Hk1 Hk2 Hk3 Hk4 Hk5.
  intros [= <-].
  destruct Hinv2 as (Hc & Hp & Hh & Hco & Ho).
  split; [|split; [|split; [|split]]].
  - eapply (registryConsistent_ext s2); try done. intros l mt. by rewrite Hk3.
  - intros mid l. rewrite Hk1, Hk3. intros Hm.
    destruct (Hp mid l Hm) as (mtd & mt & Hin & Hl & Hx).
    exists mtd, mt. split; [|done]. rewrite Hperm in Hin. by apply elem_of_map_to_list in Hin.
  - by rewrite Hk4.
  - intros l mt Hl. rewrite Hk3. by apply Hh.
  - exact Hstrict.
Qed.


Lemma loadInitialState_keeps_trace cfg : preserves trace (loadInitialState W cfg).
Proof. unfold loadInitialState. preserves_auto. Qed.

Lemma restoreState_keeps_trace state allowPartial :
  preserves trace (restoreState W state allowPartial).
Proof.
  unfold restoreState, restoreMatch, restoreWaiter, handleInit, handleRedeem, step,
    translateSwapStatus, addMatch.
  preserves_auto.
Qed.

(** X24. The routes are registered exactly when the constructor succeeds.
    [NewSwapper] calls the auth manager only to register its handlers for the
    init and the redeem route, in that order and as its last act: when it
    returns a swapper both are registered, and when it returns an error or
    panics it has made no call at all. *)
Theorem NewSwapper_routes_iff_success (cfg : Config) (s : Swapper) :
  newEvents s (final (NewSwapper W cfg s))
  = match NewSwapper W cfg s with
    | Ret None _ => [EvRoute InitRoute; EvRoute RedeemRoute]
    | _ => []
    end.
Proof.
  assert (Hnil : forall s1 : Swapper, trace s1 = trace s -> newEvents s s1 = []).
  { intros s1 Ht. apply newEvents_app. by rewrite app_nil_r. }
  unfold NewSwapper. mrun.
  destruct (wStat W (tick s) (DataDir cfg)) as [[]| |]; mrun; try (by apply Hnil).
  destruct (zeroFeeAsset _); mrun; [by apply Hnil|].
  match goal with
  | |- context [(if ?c then _ else _) ?s0] =>
      assert (Hclamp : exists s1, (if c then modify (upd_txWaitExpiration
                                                      (fun _ => BroadcastTimeout cfg))
                                   else ret tt) s0 = Ret tt s1
                        /\ trace s1 = trace s)
  end.
  { destruct (_ <? _); mrun; eexists; (split; [reflexivity|]); done. }
  destruct Hclamp as (s1 & Hrun & Htr). unfold modify, ret in Hrun. rewrite Hrun. clear Hrun.
  pose proof (loadInitialState_keeps_trace cfg s1) as Hload.
  destruct (loadInitialState W cfg s1) as [[err|state] s2|]; simpl in Hload;
    [apply Hnil; congruence| |apply Hnil; congruence].
  destruct state as [st|].
  - pose proof (restoreState_keeps_trace st (AllowPartialRestore cfg) s2) as Hk.
    destruct (restoreState W st (AllowPartialRestore cfg) s2) as [[err|] s3|] eqn:Hr;
      simpl in *; try (apply Hnil; congruence).
    apply newEvents_app. simpl. rewrite Hk, Hload, Htr. by rewrite <- app_assoc.
  - mrun. apply newEvents_app. simpl. rewrite Hload, Htr. by rewrite <- app_assoc.
Qed.

Lemma find_all_false {A} (f : A -> bool) (l : list A) :
  (forall x, In x l -> f x = false) -> List.find f l = None.
Proof.
  induction l as [|x l IH]; intros Hall; simpl; [done|].
  rewrite (Hall x) by (by left). apply IH. intros y Hy. apply Hall. by right.
Qed.

(** X25. The latest state file is restored only under the stored hash.  The
    data directory is in order, every asset has a maximum fee rate, no state
    path is given and the state is not to be ignored; the data directory holds
    a state file [name] and the storage returns the hash [stateHash].  When
    that hash is empty, [NewSwapper] succeeds with an empty swapper, asking
    nothing about the file.  When it is not empty and the file's hash
    differs, [NewSwapper] returns an error without loading the file and
    without registering a route. *)
Theorem NewSwapper_checks_state_hash (cfg : Config) (s : Swapper) (name : string)
    (stateHash : Bytes) :
  fairRange W ->
  wStat W (tick s) (DataDir cfg) = StatInfo true ->
  (forall id a, cfgAssets cfg !! id = Some a -> MaxFeeRate a ≠ 0%N) ->
  StatePath cfg = EmptyString ->
  IgnoreState cfg = false ->
  wLatestStateFile W (S (S (tick s))) (DataDir cfg) = Some (Some name) ->
  wGetStateHash W (S (S (S (tick s)))) = Some stateHash ->
  (stateHash = [] ->
   exists s', NewSwapper W cfg s = Ret None s'
              /\ tick s' = (4 + tick s)%nat
              /\ matches s' = ∅ /\ userMatches s' = ∅ /\ orders s' = ∅
              /\ liveWaiters s' = ∅ /\ latencyQ s' = []
              /\ coins s' = cfgAssets cfg /\ bTimeout s' = BroadcastTimeout cfg)
  /\ (stateHash ≠ [] ->
      forall fileHash,
        wFileHash W (S (S (S (S (tick s))))) name = Some fileHash ->
        fileHash ≠ stateHash ->
        exists s', NewSwapper W cfg s
                   = Ret (Some "latest swap %s file failed consistency check") s'
                   /\ tick s' = (5 + tick s)%nat /\ trace s' = trace s).
Proof.
  intros Hfair Hstat Hfees Hpath Hignore Hlatest Hhash.
  assert (Hzero : zeroFeeAsset (wRange W _ (S (tick s)) (map_to_list (cfgAssets cfg))) = None).
  { unfold zeroFeeAsset. rewrite find_all_false; [done|].
    intros [id a] Hin. apply list_elem_of_In in Hin. rewrite (Hfair _ (S (tick s))) in Hin.
    apply elem_of_map_to_list in Hin. simpl. apply bool_decide_eq_false_2.
    by eapply Hfees. }
  split.
  - intros ->. unfold NewSwapper, loadInitialState. mrun. rewrite Hstat. mrun.
    rewrite Hzero. mrun. rewrite Hpath, Hignore.
    destruct (_ <? _); mrun; rewrite Hlatest; mrun; rewrite Hhash; mrun;
      eexists; (split; [reflexivity|]); done.
  - intros Hne fileHash Hfile Hdiff. unfold NewSwapper, loadInitialState. mrun.
    rewrite Hstat. mrun. rewrite Hzero. mrun. rewrite Hpath, Hignore.
    assert (Hlen : (0 <? length stateHash)%nat = true).
    { destruct stateHash; [done | reflexivity]. }
    destruct (_ <? _); mrun; rewrite Hlatest; mrun; rewrite Hhash; mrun; rewrite Hlen; mrun;
      rewrite Hfile; mrun;
      rewrite (bool_decide_eq_false_2 (stateHash = fileHash)) by congruence; mrun;
      eexists; (split; [reflexivity|]); done.
Qed.

End Startup.

(** ** New matches *)

(** The assets a tracker holds for its two sides are those of the maker's
    order: the maker swaps the base asset when selling, the quote asset when
    buying, and each side redeems what the other swaps. *)
Definition tracksAssets (mt : matchTracker) : Prop :=
  let maker := loData (Maker (mtMatch mt)) in
  let sold := if Sell maker then BaseAsset maker else QuoteAsset maker in
  let bought := if Sell maker then QuoteAsset maker else BaseAsset maker in
  swapAsset (makerStatus mt) = sold /\ redeemAsset (makerStatus mt) = bought
  /\ swapAsset (takerStatus mt) = bought /\ redeemAsset (takerStatus mt) = sold.

(** The trackers at [ls] are new in [s'], one for each of [ms] in order, and
    nothing but the heap differs between [s] and [s']. *)
Definition allocated (f : Match -> matchTracker) (s s' : Swapper) (ls : list loc)
    (ms : list Match) : Prop :=
  Forall2 (fun l m => heap s !! l = None /\ heap s' !! l = Some (f m)) ls ms
  /\ NoDup ls
  /\ (forall l mt, heap s !! l = Some mt -> heap s' !! l = Some mt)
  /\ s' = upd_heap (fun _ => heap s') s.

Lemma allocated_nil f s : allocated f s s [] [].
Proof.
  split; [constructor|]. split; [constructor|]. split; [done|]. by destruct s.
Qed.

Lemma allocated_app f s s1 s2 ls1 ls2 ms1 ms2 :
  allocated f s s1 ls1 ms1 -> allocated f s1 s2 ls2 ms2 ->
  allocated f s s2 (ls1 ++ ls2) (ms1 ++ ms2).
Proof.
  intros (H1 & Hnd1 & Hk1 & He1) (H2 & Hnd2 & Hk2 & He2).
  split; [|split; [|split]].
  - apply Forall2_app.
    + eapply Forall2_impl; [exact H1|]. intros l m [Hn Hs]. split; [done|]. by apply Hk2.
    + eapply Forall2_impl; [exact H2|]. intros l m [Hn Hs]. split; [|done].
      destruct (heap s !! l) as [mt|] eqn:Hl; [|done].
      apply Hk1 in Hl. congruence.
  - apply NoDup_app. split; [done|]. split; [|done].
    intros l Hin1 Hin2.
    assert (is_Some (heap s1 !! l)) as [mt Hmt].
    { clear -H1 Hin1. induction H1 as [|l0 m0 ls ms [_ Hs] _ IH]; [by apply elem_of_nil in Hin1|].
      apply elem_of_cons in Hin1 as [->|Hin1]; [by eexists | by apply IH]. }
    assert (heap s1 !! l = None); [|congruence].
    clear -H2 Hin2. induction H2 as [|l0 m0 ls ms [Hn _] _ IH]; [by apply elem_of_nil in Hin2|].
    apply elem_of_cons in Hin2 as [->|Hin2]; [done | by apply IH].
  - intros l mt Hl. by apply Hk2, Hk1.
  - rewrite He2 at 1. rewrite He1 at 1. by destruct s.
Qed.

Lemma alloc_allocated f s m :
  allocated f s (upd_heap (insert (fresh (dom (heap s))) (f m)) s)
    [fresh (dom (heap s))] [m].
Proof.
  assert (Hfresh : heap s !! fresh (dom (heap s)) = None).
  { apply not_elem_of_dom, is_fresh. }
  split; [|split; [|split]].
  - constructor; [|constructor]. split; [done|]. destruct s; simpl in *.
    by rewrite lookup_insert_eq.
  - apply NoDup_singleton.
  - intros l mt Hl. destruct s; simpl in *. rewrite lookup_insert_ne; [done|]. congruence.
  - by destruct s.
Qed.

Lemma trackMatch_tracksAssets nowMs feeRates m : tracksAssets (trackMatch nowMs feeRates m).
Proof. unfold tracksAssets, trackMatch. simpl. by destruct (Sell _). Qed.

Section NewMatches.

Variable W : World.

Lemma readMatches_inner nowMs feeRates (ms : list Match) :
  forall (acc : list loc) (s : Swapper),
    exists ls s',
      forRange ms
        (fun m matches => l <- alloc (trackMatch nowMs feeRates m) ;; ret (matches ++ [l]))
        acc s = Ret (acc ++ ls) s'
      /\ allocated (trackMatch nowMs feeRates) s s' ls ms.
Proof.
  induction ms as [|m ms IH]; intros acc s.
  - exists [], s. split; [by rewrite app_nil_r | apply allocated_nil].
  - destruct (IH (acc ++ [fresh (dom (heap s))])
                (upd_heap (insert (fresh (dom (heap s))) (trackMatch nowMs feeRates m)) s))
      as (ls & s' & Hrun & Halloc).
    exists (fresh (dom (heap s)) :: ls), s'. split.
    + rewrite <- app_assoc in Hrun. etransitivity; [|exact Hrun]. reflexivity.
    + change (fresh (dom (heap s)) :: ls) with ([fresh (dom (heap s))] ++ ls).
      change (m :: ms) with ([m] ++ ms).
      eapply allocated_app; [apply alloc_allocated | exact Halloc].
Qed.

Lemma readMatches_outer nowMs feeRates (matchSets : list (list Match)) :
  forall (acc : list loc) (s : Swapper),
    exists ls s',
      forRange matchSets
        (fun matchSet matches =>
           forRange matchSet
             (fun m matches =>
                l <- alloc (trackMatch nowMs feeRates m) ;; ret (matches ++ [l]))
             matches)
        acc s = Ret (acc ++ ls) s'
      /\ allocated (trackMatch nowMs feeRates) s s' ls (concat matchSets).
Proof.
  induction matchSets as [|ms matchSets IH]; intros acc s.
  - exists [], s. split; [by rewrite app_nil_r | apply allocated_nil].
  - destruct (readMatches_inner nowMs feeRates ms acc s) as (ls1 & s1 & Hrun1 & Ha1).
    destruct (IH (acc ++ ls1) s1) as (ls2 & s2 & Hrun2 & Ha2).
    exists (ls1 ++ ls2), s2. split.
    + rewrite <- app_assoc in Hrun2. etransitivity; [|exact Hrun2].
      cbn [forRange]. unfold bind at 1. by rewrite Hrun1.
    + cbn [concat]. eapply allocated_app; eassumption.
Qed.

(** X26. [readMatches] makes one new tracker for each match.  It always returns,
    with the trackers of the matches of all the match sets in order, each at a
    location that was free and no two at the same one; it reads the clock
    once and changes nothing else: no match is registered yet and the
    trackers there were are as before.  Each new tracker holds the match with
    the fee rates of its base and quote asset (zero where none is known), was
    seen at the clock reading cut to milliseconds, has no swap or redemption
    on either side, and holds the assets the maker's order gives. *)
Theorem readMatches_allocates (matchSets : list (list Match)) (feeRates : gmap AssetID N)
    (s : Swapper) :
  let nowMs := Truncate (wNow W (tick s)) Millisecond in
  exists ls s',
    readMatches W matchSets feeRates s = Ret ls s'
    /\ s' = upd_heap (fun _ => heap s') (upd_tick S s)
    /\ NoDup ls
    /\ (forall l mt, heap s !! l = Some mt -> heap s' !! l = Some mt)
    /\ Forall2
         (fun l m =>
            heap s !! l = None
            /\ exists mt,
                 heap s' !! l = Some mt
                 /\ mtMatch mt
                    = mkMatch (matchID m) (Taker m) (Maker m) (Quantity m) (matchRate m)
                        (EpochEnd m)
                        (default 0%N (feeRates !! BaseAsset (loData (Maker m))))
                        (default 0%N (feeRates !! QuoteAsset (loData (Maker m))))
                        (Status m)
                 /\ time mt = nowMs /\ matchTime mt = EpochEnd m
                 /\ tracksAssets mt
                 /\ (forall side, swap (statusOf side mt) = None
                                  /\ redemption (statusOf side mt) = None
                                  /\ swapTime (statusOf side mt) = 0
                                  /\ swapConfirmed (statusOf side mt) = 0
                                  /\ redeemTime (statusOf side mt) = 0))
         ls (concat matchSets).
Proof.
  intros nowMs.
  destruct (readMatches_outer nowMs feeRates matchSets [] (upd_tick S s))
    as (ls & s' & Hrun & Hfor & Hnd & Hkeep & Heq).
  exists ls, s'. split; [|split; [|split; [|split]]].
  - etransitivity; [|exact Hrun]. reflexivity.
  - exact Heq.
  - exact Hnd.
  - intros l mt Hl. apply Hkeep. by destruct s.
  - eapply Forall2_impl; [exact Hfor|]. intros l m [Hn Hs]. split; [by destruct s|].
    eexists. split; [exact Hs|]. split; [reflexivity|]. split; [reflexivity|].
    split; [reflexivity|]. split; [apply trackMatch_tracksAssets|].
    intros []; simpl; done.
Qed.

(** Whether a step is the broadcast of a swap contract. *)
Definition isInitStep (st : MatchStatus) : bool :=
  match st with NewlyMatched | MakerSwapCast => true | _ => false end.

(** X27. [step] resolves the asset the tracker holds.  For a tracker holding the
    assets of the maker's order, when [step] resolves a request the actor's
    asset is the one the tracker holds for the actor's side, as the asset to
    swap when the step is an init and as the asset to redeem otherwise, the
    counterparty's asset is the other one of the actor's side, and the backed
    asset returned is the configured one of the actor's asset. *)
Theorem step_resolves_tracked_asset (user : AccountID) (mid : MatchID) (l : loc)
    (mt : matchTracker) (si : stepInformation) (s s' : Swapper) :
  matches s !! mid = Some l ->
  heap s !! l = Some mt ->
  tracksAssets mt ->
  step W user mid s = Ret (inl si) s' ->
  let mine := statusOf (actorStatus (actor si)) mt in
  siMatch si = l
  /\ actorSwapAsset (actor si)
     = (if isInitStep (step_ si) then swapAsset mine else redeemAsset mine)
  /\ actorSwapAsset (counterParty si)
     = (if isInitStep (step_ si) then redeemAsset mine else swapAsset mine)
  /\ coins s !! actorSwapAsset (actor si) = Some (siAsset si)
  /\ actorUser (actor si) = user
  /\ s' = s.
Proof.
  intros Hm Hl (Hms & Hmr & Hts & Htr) Hstep. revert Hstep.
  unfold step, deref. mrun. rewrite Hm. mrun. rewrite Hl. mrun.
  unfold stepParties.
  destruct (Status (mtMatch mt)) eqn:Hst; simpl;
    try (intros; discriminate);
    (destruct (bool_decide (_ = user)) eqn:Hu; simpl; [|intros; discriminate]);
    apply bool_decide_eq_true_1 in Hu;
    destruct (Sell (loData (Maker (mtMatch mt)))) eqn:Hsell; simpl in *;
    (destruct (coins s !! _) as [backed|] eqn:Hc; simpl; [|intros; discriminate]);
    intros [= <- <-]; simpl; rewrite ?Hst; simpl;
    rewrite ?Hms, ?Hmr, ?Hts, ?Htr; done.
Qed.

End NewMatches.

(** ** Worked runs of the further properties *)

Lemma exWorldFull_fair contract latest stateHash fileHash :
  fairRange (exWorldFull contract latest stateHash fileHash).
Proof. intros A n l. reflexivity. Qed.

Lemma exUnregistered_consistent mt : registryConsistent (exUnregistered mt).
Proof.
  split; [|split].
  - intros mid l Hm. simpl in Hm. by rewrite lookup_empty in Hm.
  - intros user mid l. unfold userIndex. simpl. rewrite !lookup_empty. simpl.
    split; [done | by intros [? _]].
  - intros user um Hum. simpl in Hum. by rewrite lookup_empty in Hum.
Qed.

Lemma exSwapper_consistent mt :
  matchID (mtMatch mt) = 7%N -> makerUser mt = 10%N -> takerUser mt = 20%N ->
  registryConsistent (exSwapper mt).
Proof.
  intros Hid Hmk Htk. split; [|split].
  - by apply exSwapper_wf.
  - intros user mid l. unfold userIndex. simpl. split.
    + intros Hu. apply bind_Some in Hu as (um & Hum & Hl).
      apply lookup_insert_Some in Hum as [[<- <-]|[_ Hum]];
        [|apply lookup_singleton_Some in Hum as [<- <-]];
        apply lookup_singleton_Some in Hl as [<- <-];
        (split; [reflexivity|]); exists mt; (split; [reflexivity|]);
        rewrite Hmk, Htk; auto.
    + intros (Hm & mt' & Hh & Hu).
      apply lookup_singleton_Some in Hm as [<- <-].
      apply lookup_singleton_Some in Hh as [_ <-].
      rewrite Hmk, Htk in Hu. destruct Hu as [-> | ->]; reflexivity.
  - intros user um Hum. simpl in Hum.
    apply lookup_insert_Some in Hum as [[_ <-]|[_ Hum]];
      [|apply lookup_singleton_Some in Hum as [_ <-]];
      apply insert_non_empty.
Qed.

Lemma exSwapper_trackers mt (user : AccountID) :
  forall um mid l, userMatches (exSwapper mt) !! user = Some um -> um !! mid = Some l ->
                   is_Some (heap (exSwapper mt) !! l).
Proof.
  intros um mid l Hum Hl. simpl in *.
  apply lookup_insert_Some in Hum as [[_ <-]|[_ Hum]];
    [|apply lookup_singleton_Some in Hum as [_ <-]];
    apply lookup_singleton_Some in Hl as [_ <-]; by eexists.
Qed.

Lemma feeRatesCapped_empty s : feeRatesCapped s ∅.
Proof. intros id rate H. by rewrite lookup_empty in H. Qed.

(** The match is registered for the first time. *)
Lemma addMatch_keeps_consistent_witness :
  exists s',
    addMatch 1%N (exUnregistered (exNewlyMatched (exNow - Minute))) = Ret tt s'
    /\ registryConsistent s'
    /\ userIndex s' 10%N 7%N = Some 1%N /\ userIndex s' 20%N 7%N = Some 1%N.
Proof.
  destruct (addMatch_keeps_consistent (exUnregistered (exNewlyMatched (exNow - Minute))) 1%N
              (exNewlyMatched (exNow - Minute)) (exUnregistered_consistent _)
              eq_refl eq_refl)
    as (s' & Hrun & Hcons & _ & Hmk & Htk & _).
  exists s'. split; [exact Hrun|]. split; [exact Hcons|]. split; [exact Hmk | exact Htk].
Defined.

(** The only match is removed. *)
Lemma deleteMatch_keeps_consistent_witness :
  exists s',
    deleteMatch 1%N (exSwapper (exNewlyMatched (exNow - Minute))) = Ret tt s'
    /\ registryConsistent s'
    /\ matches s' = delete 7%N (matches (exSwapper (exNewlyMatched (exNow - Minute)))).
Proof.
  destruct (deleteMatch_keeps_consistent (exSwapper (exNewlyMatched (exNow - Minute)))
              7%N 1%N
              (exSwapper_consistent (exNewlyMatched (exNow - Minute)) eq_refl eq_refl eq_refl)
              eq_refl)
    as (s' & Hrun & Hcons & Hm & _).
  exists s'. split; [exact Hrun|]. split; [exact Hcons | exact Hm].
Defined.

Lemma addMatch_deleteMatch_witness :
  (addMatch 1%N ;;; deleteMatch 1%N) (exUnregistered (exNewlyMatched (exNow - Minute)))
  = Ret tt (exUnregistered (exNewlyMatched (exNow - Minute))).
Proof.
  apply (addMatch_deleteMatch_round_trip _ 1%N (exNewlyMatched (exNow - Minute))
           (exUnregistered_consistent _) eq_refl eq_refl).
Defined.

(** The maker has one match of one DCR on the DCR-BTC market. *)
Lemma UserSwappingAmt_totals_witness :
  UserSwappingAmt exWorld 10%N 42%N 0%N (exSwapper (exNewlyMatched (exNow - Minute)))
  = Ret (100000000%N, 1%N) (upd_tick S (exSwapper (exNewlyMatched (exNow - Minute)))).
Proof.
  exact (UserSwappingAmt_totals exWorld (exSwapper (exNewlyMatched (exNow - Minute)))
           10%N 42%N 0%N (exWorldWith_fair _ _ _) (exSwapper_trackers _ 10%N)).
Defined.

Lemma addMatch_counts_witness :
  exists amt count s1 s' s2,
    UserSwappingAmt exWorld 10%N 42%N 0%N (exUnregistered (exNewlyMatched (exNow - Minute)))
    = Ret (amt, count) s1
    /\ addMatch 1%N (exUnregistered (exNewlyMatched (exNow - Minute))) = Ret tt s'
    /\ UserSwappingAmt exWorld 10%N 42%N 0%N s'
       = Ret (wrapU64 (amt + 100000000), wrapU64 (count + 1)) s2.
Proof.
  exact (addMatch_counts_towards_amount exWorld
           (exUnregistered (exNewlyMatched (exNow - Minute))) 1%N
           (exNewlyMatched (exNow - Minute)) 10%N 42%N 0%N (exWorldWith_fair _ _ _)
           (exUnregistered_consistent _) eq_refl eq_refl (or_introl eq_refl)).
Defined.

(** The backend recommends 25 and the maximum for DCR is 10. *)
Lemma getFeeRate_capped_witness :
  feeRatesCapped (upd_tick S (exSwapper exTakerSwapCast)) {[ 42%N := 10%N ]}.
Proof.
  apply (proj1 (getFeeRate_capped exChains (exSwapper exTakerSwapCast)
                  (upd_tick S (exSwapper exTakerSwapCast)) 42%N ∅ {[ 42%N := 10%N ]} false
                  (feeRatesCapped_empty _) eq_refl)).
Defined.

Lemma exSwapper_block_ready :
  forall mid' l', matches (exSwapper (exMakerSwapCast 0)) !! mid' = Some l' ->
    exists mt', heap (exSwapper (exMakerSwapCast 0)) !! l' = Some mt'
                /\ trackerReady (exSwapper (exMakerSwapCast 0)) mt'.
Proof.
  intros mid' l' Hm. simpl in Hm. apply lookup_singleton_Some in Hm as [_ <-].
  exists (exMakerSwapCast 0). split; [reflexivity|]. split.
  - intros [] H; [by eexists | discriminate H].
  - repeat split; by eexists.
Qed.

(** A DCR block confirms the maker's contract. *)
Lemma processBlock_confirms_witness :
  exists s' mt',
    processBlock exWorld exChains exBlock (exSwapper (exMakerSwapCast 0)) = Ret tt s'
    /\ heap s' !! 1%N = Some mt'
    /\ swapConfirmed (makerStatus mt') = exNow
    /\ In (EvUnlockOrderCoins 42%N 1%N) (newEvents (exSwapper (exMakerSwapCast 0)) s').
Proof.
  destruct (processBlock_confirms exWorld exChains (exSwapper (exMakerSwapCast 0)) exBlock
              7%N 1%N (exMakerSwapCast 0) MakerSide exContract (mkAsset "dcr" 10%N 1%N 42%N)
              (exWorldWith_fair _ _ _) exSwapper_block_ready
              eq_refl eq_refl eq_refl eq_refl eq_refl eq_refl eq_refl eq_refl)
    as (s' & mt' & Hrun & Hl & Hst & _ & Hev).
  - intros n. exists 1. split; [reflexivity | simpl; lia].
  - exists s', mt'. split; [exact Hrun|]. split; [exact Hl|]. split; [|exact Hev].
    simpl in Hst. rewrite Hst. reflexivity.
Defined.

Lemma exSwapper_ready mt :
  matchID (mtMatch mt) = 7%N ->
  fundingConfigured (exSwapper mt) mt ->
  registryReady (exSwapper mt).
Proof.
  intros Hid Hf mid l Hm. simpl in Hm. apply lookup_singleton_Some in Hm as [<- <-].
  exists mt. split; [reflexivity|]. split; assumption.
Qed.

(** The maker has not acted thirteen minutes after the match was seen. *)
Lemma sweeps_revoke_due_witness :
  exists s' e,
    checkInactionEventBased exWorld (exSwapper (exNewlyMatched (exNow - 13 * Minute)))
    = Ret tt s'
    /\ matches s' !! 7%N = None
    /\ heap s' = heap (exSwapper (exNewlyMatched (exNow - 13 * Minute)))
    /\ inactionOf (exNewlyMatched (exNow - 13 * Minute)) = Some e
    /\ In e (newEvents (exSwapper (exNewlyMatched (exNow - 13 * Minute))) s').
Proof.
  apply (proj1 (sweeps_revoke_due exWorld (exSwapper (exNewlyMatched (exNow - 13 * Minute)))
                  7%N 1%N (exNewlyMatched (exNow - 13 * Minute)) (exWorldWith_fair _ _ _)
                  (exSwapper_ready (exNewlyMatched (exNow - 13 * Minute)) eq_refl
                     (conj (ex_intro _ _ eq_refl) (ex_intro _ _ eq_refl)))
                  eq_refl eq_refl eq_refl)).
  reflexivity.
Defined.

(** A maker swap that no block has confirmed is not due. *)
Lemma blockSweep_spares_witness :
  notRevoked 7%N 1%N (exSwapper (exMakerSwapCast 0))
    (final (checkInactionBlockBased exWorld 42%N (exSwapper (exMakerSwapCast 0)))).
Proof.
  apply (proj1 (blockSweep_revokes_only_due exWorld (exSwapper (exMakerSwapCast 0)) 7%N 1%N
                  (exMakerSwapCast 0) (exWorldWith_fair _ _ _)
                  (exSwapper_wf (exMakerSwapCast 0) eq_refl) eq_refl eq_refl) 42%N).
  reflexivity.
Defined.

(** The taker's redeem, a minute after the maker's. *)
Lemma handleRedeem_waiter_expiry_witness :
  exists params l mt stepInfo coinStr,
    unmarshalRedeem exWorld (Payload exRedeemMsg) = Some params
    /\ matches (exSwapper exMakerRedeemed) !! matchIDOfBytes (redeemMatchID params) = Some l
    /\ heap (exSwapper exMakerRedeemed) !! l = Some mt
    /\ latencyQ (final (handleRedeem exWorld 20%N exRedeemMsg (exSwapper exMakerRedeemed)))
       = [mkWaiter (exNow + 2 * Minute) (RedeemWaiter 20%N exRedeemMsg params stepInfo coinStr)].
Proof.
  destruct (handleRedeem_waiter_expiry exWorld
              (exSwapper exMakerRedeemed)
              (final (handleRedeem exWorld 20%N exRedeemMsg (exSwapper exMakerRedeemed)))
              20%N exRedeemMsg)
    as (params & l & mt & stepInfo & coinStr & Hp & Hm & Hl & _ & _ & Hq).
  - vm_compute. reflexivity.
  - exists params, l, mt, stepInfo, coinStr.
    repeat split; try assumption.
    rewrite Hq. clear Hq.
    injection Hp as <-. vm_compute in Hm. injection Hm as <-.
    vm_compute in Hl. injection Hl as <-. reflexivity.
Defined.

(** The maker's init with a contract that passes every check. *)
Lemma processInit_accepts_witness :
  exists s',
    processInit exWorld exInitMsg exInit exMakerInitStep
      (exSwapper (exNewlyMatched (exNow - Minute)))
    = Ret DontTryAgain s'
    /\ Status ∘ mtMatch <$> heap s' !! siMatch exMakerInitStep = Some MakerSwapCast
    /\ swap ∘ makerStatus <$> heap s' !! siMatch exMakerInitStep = Some (Some exContract).
Proof.
  destruct (processInit_accepts exWorld (exSwapper (exNewlyMatched (exNow - Minute)))
              exInitMsg exInit exMakerInitStep (exNewlyMatched (exNow - Minute)) exContract
              eq_refl eq_refl)
    as (s' & Hrun & Hheap & _).
  - vm_compute. discriminate.
  - intros H. apply H. reflexivity.
  - intros H. apply H. reflexivity.
  - vm_compute. discriminate.
  - reflexivity.
  - by eexists.
  - exists s'. split; [exact Hrun|]. rewrite Hheap. split; reflexivity.
Defined.

(** The maker's contract is found after the match was revoked. *)
Lemma late_coin_witness :
  exists s',
    processInit exWorld exInitMsg exInit exMakerInitStep
      (exUnregistered (exNewlyMatched (exNow - Minute)))
    = Ret DontTryAgain s'
    /\ heap s' = heap (exUnregistered (exNewlyMatched (exNow - Minute))).
Proof.
  destruct (proj1 (late_coin_changes_no_tracker exWorld
                     (exUnregistered (exNewlyMatched (exNow - Minute))) exInitMsg
                     exMakerInitStep (exNewlyMatched (exNow - Minute)) eq_refl eq_refl)
              exInit exContract eq_refl)
    as (s' & Hrun & Hheap & _).
  - vm_compute. discriminate.
  - intros H. apply H. reflexivity.
  - intros H. apply H. reflexivity.
  - vm_compute. discriminate.
  - reflexivity.
  - exists s'. split; assumption.
Defined.

(** The maker redeems: the match stays, and the maker's counter goes down. *)
Lemma processRedeem_maker_redeem_witness :
  exists s',
    processRedeem exWorld exRedeemMsg exRedeem exMakerRedeemStep (exSwapper exTakerSwapCast)
    = Ret DontTryAgain s'
    /\ matches s' = matches (exSwapper exTakerSwapCast)
    /\ Status ∘ mtMatch <$> heap s' !! 1%N = Some MakerRedeemed
    /\ orders s' !! 1%N = None.
Proof.
  destruct (processRedeem_maker_redeem exWorld (exSwapper exTakerSwapCast) 10%N 7%N 1%N
              exTakerSwapCast exRedeemMsg exRedeem exMakerRedeemStep exContract
              (mkCoin [9%N]) eq_refl eq_refl eq_refl eq_refl eq_refl eq_refl eq_refl eq_refl)
    as (s' & Hrun & Hm & _ & Hheap & Hord & _).
  exists s'. split; [exact Hrun|]. split; [exact Hm|]. split.
  - exact (f_equal (fmap (M:=option) (Status ∘ mtMatch)) Hheap).
  - rewrite Hord. reflexivity.
Defined.

(** The saved state names an asset that is not configured. *)
Lemma restoreState_needs_every_asset_witness :
  exists err, restoreState exWorld (exState [42%N; 60%N]) false exFresh = Ret (Some err) exFresh.
Proof.
  apply (restoreState_needs_every_asset exWorld exFresh (exState [42%N; 60%N])).
  exists 60%N. split; [|reflexivity].
  apply list_elem_of_further, list_elem_of_here.
Defined.

Lemma exState_keys assets :
  forall k mtd, MatchTrackers (exState assets) !! k = Some mtd -> matchID (mtdMatch mtd) = k.
Proof.
  intros k mtd H. simpl in H. by apply lookup_singleton_Some in H as [<- <-].
Qed.

(** The saved match is restored. *)
Lemma restoreState_restores_witness :
  registryConsistent (final (restoreState exWorld (exState [42%N; 0%N]) false exFresh))
  /\ orders (final (restoreState exWorld (exState [42%N; 0%N]) false exFresh))
     = OrderMatches (exState [42%N; 0%N])
  /\ is_Some (matches (final (restoreState exWorld (exState [42%N; 0%N]) false exFresh))
                !! 7%N).
Proof.
  destruct (restoreState_restores exWorld exFresh
              (final (restoreState exWorld (exState [42%N; 0%N]) false exFresh))
              (exState [42%N; 0%N]) false (exWorldWith_fair _ _ _) (exState_keys _))
    as (Hcons & _ & Hord & _).
  - vm_compute. reflexivity.
  - split; [exact Hcons|]. split; [exact Hord|]. by eexists.
Defined.

Lemma exCoins_fees :
  forall id a, cfgAssets exStateConfig !! id = Some a -> MaxFeeRate a ≠ 0%N.
Proof.
  intros id a H. simpl in H. unfold exCoins in H.
  apply lookup_insert_Some in H as [[_ <-]|[_ H]];
    [|apply lookup_singleton_Some in H as [_ <-]]; done.
Qed.

(** The state file's hash is not the stored one. *)
Lemma NewSwapper_checks_state_hash_witness :
  exists s',
    NewSwapper (exWorldFull (Found exContract) (Some (Some "swaps.gob")) (Some [1%N])
                  (Some [2%N]))
      exStateConfig processStart
    = Ret (Some "latest swap %s file failed consistency check") s'
    /\ tick s' = 5%nat /\ trace s' = [].
Proof.
  apply (proj2 (NewSwapper_checks_state_hash
                  (exWorldFull (Found exContract) (Some (Some "swaps.gob")) (Some [1%N])
                     (Some [2%N]))
                  exStateConfig processStart "swaps.gob" [1%N] (exWorldFull_fair _ _ _ _)
                  eq_refl exCoins_fees eq_refl eq_refl eq_refl eq_refl)
           ltac:(discriminate) [2%N] eq_refl ltac:(discriminate)).
Defined.

(** The maker's init: the maker sells, and swaps the base asset. *)
Lemma step_resolves_tracked_asset_witness :
  actorSwapAsset (actor exMakerInitStep)
  = swapAsset (makerStatus (exNewlyMatched (exNow - Minute)))
  /\ coins (exSwapper (exNewlyMatched (exNow - Minute))) !! 42%N
     = Some (siAsset exMakerInitStep).
Proof.
  destruct (step_resolves_tracked_asset exWorld 10%N 7%N 1%N
              (exNewlyMatched (exNow - Minute)) exMakerInitStep
              (exSwapper (exNewlyMatched (exNow - Minute)))
              (exSwapper (exNewlyMatched (exNow - Minute)))
              eq_refl eq_refl (conj eq_refl (conj eq_refl (conj eq_refl eq_refl))) eq_refl)
    as (_ & Hactor & _ & Hasset & _).
  split; [exact Hactor | exact Hasset].
Defined.

(** The contract is not found yet: the waiter is to try again, and nothing
    but the count of questions has changed. *)
Lemma coin_waiters_retry_witness :
  final (processInit (exWorldFull CoinNotFoundError (Some None) None None) exInitMsg exInit
           exMakerInitStep (exSwapper (exNewlyMatched (exNow - Minute))))
  = upd_tick S (exSwapper (exNewlyMatched (exNow - Minute))).
Proof.
  destruct (proj1 (coin_waiters_retry (exWorldFull CoinNotFoundError (Some None) None None)
                     (exSwapper (exNewlyMatched (exNow - Minute)))
                     (final (processInit
                               (exWorldFull CoinNotFoundError (Some None) None None)
                               exInitMsg exInit exMakerInitStep
                               (exSwapper (exNewlyMatched (exNow - Minute)))))
                     exInitMsg exMakerInitStep) exInit eq_refl)
    as [[_ Hs]|(c & _ & _ & Hfound & _)]; [exact Hs | discriminate Hfound].
Defined.
